(** * The PDF ingestion-and-routing pipeline of [scraping/extract_and_classify.py]

    A shallow embedding of the batch pipeline: the digital-content detector
    ([is_digital]), the structural repair stage ([ghostscript_repair]), the
    optical extraction stage ([ocr_extract]), the content classifier
    ([classify_text]), the per-document guard ([process_pdf]) and the batch
    orchestrator ([main]).

    Python values are modelled as follows.
    - A [str] is a list of Unicode code points ([N]); [lit] turns a Rocq
      string literal into one.
    - A path is the list of its components; [os.path.join dir name] appends
      one component (every joined name is a directory entry or a label, which
      holds no separator).
    - The file system is a finite map from paths to files, beside the set of
      the directories.  A directory is listed with its files and its
      sub-directories: a name is in the listing when a file or a directory
      lies at it or below it.
    - The external collaborators (Ghostscript, the zero-shot model, the
      EasyOCR engine, the file copies and moves that may fail) are oracles
      collected in a record [env]; what a copy, a move or a repair run that
      fails leaves at its destination is an oracle too.
    - Effects are threaded through a state-and-exception monad [M] over a
      [world]; [print] appends to the world's [stdout].

    The text cleaner of [scraping/cleaning_text.py] and the
    question-answering session of [scraping/llama.py] follow the pipeline,
    each in a module of its own. *)

From Stdlib Require Import ZArith NArith QArith List String Ascii Strings.Byte Lia Bool.
From Stdlib Require Import Sorting.Sorted Sorting.Permutation DecimalString.
From stdpp Require Import base option list gmap sorting.

(** ** Text *)

Abbreviation char := N (only parsing).
Abbreviation str := (list N) (only parsing).
Abbreviation path := (list (list N)) (only parsing).

Definition lit (s : string) : str := map N_of_ascii (list_ascii_of_string s).
Arguments lit s%_string : simpl never.

(** The code points Python's [str.isspace] accepts, which are the ones
    [str.strip()] removes. *)
Definition is_space (c : char) : bool :=
  ((9 <=? c) && (c <=? 13) || (28 <=? c) && (c <=? 32)
   || (c =? 133) || (c =? 160) || (c =? 5760)
   || (8192 <=? c) && (c <=? 8202)
   || (c =? 8232) || (c =? 8233) || (c =? 8239) || (c =? 8287)
   || (c =? 12288))%N.

Fixpoint lstrip (s : str) : str :=
  match s with
  | c :: rest => if is_space c then lstrip rest else s
  | [] => []
  end.

Definition rstrip (s : str) : str := rev (lstrip (rev s)).

Definition strip (s : str) : str := rstrip (lstrip s).

(** Truth value of a Python string: empty is false. *)
Definition truthy {A} (s : list A) : bool :=
  match s with [] => false | _ => true end.

(** [sep.join(parts)] *)
Fixpoint join (sep : str) (parts : list str) : str :=
  match parts with
  | [] => []
  | [p] => p
  | p :: rest => p ++ sep ++ join sep rest
  end.

(** [s.replace(old, new)] for one-character [old] and [new]. *)
Definition replace_char (old new : char) (s : str) : str :=
  map (fun c => if (c =? old)%N then new else c) s.

(** [s * n] *)
Definition str_mul (s : str) (n : nat) : str := concat (repeat s n).
Arguments str_mul : simpl never.

(** Decimal rendering of a Python [int], as an f-string does it. *)
Definition str_of_Z (z : Z) : str := lit (NilZero.string_of_int (Z.to_int z)).
Arguments str_of_Z : simpl never.

(** [s.lower()] on the letters [A]-[Z].  Python's lowering also changes
    code points outside ASCII, none of them into a character of [".pdf"]. *)
Definition lower (s : str) : str :=
  map (fun c => if ((65 <=? c) && (c <=? 90))%N then (c + 32)%N else c) s.

Fixpoint startswith (s pre : str) : bool :=
  match pre, s with
  | [], _ => true
  | p :: pre', c :: s' => (c =? p)%N && startswith s' pre'
  | _ :: _, [] => false
  end.

Definition endswith (s suf : str) : bool := startswith (rev s) (rev suf).

(** Code-point order on [str], the order of Python's [<] and [sorted]. *)
Fixpoint str_leb (a b : str) : bool :=
  match a, b with
  | [], _ => true
  | _ :: _, [] => false
  | x :: a', y :: b' => (x <? y)%N || ((x =? y)%N && str_leb a' b')
  end.

Definition str_le (a b : str) : Prop := str_leb a b = true.

Fixpoint insert_sorted (x : str) (l : list str) : list str :=
  match l with
  | [] => [x]
  | y :: l' => if str_leb x y then x :: l else y :: insert_sorted x l'
  end.

(** [sorted(names)]: on strings the ordering is total and antisymmetric, so
    every sorting algorithm returns the list this one returns. *)
Definition sorted (l : list str) : list str := fold_right insert_sorted [] l.

(** What a read in text mode makes of the line ends: ["\r\n"] and a lone
    ["\r"] become ["\n"]. *)
Fixpoint universal (s : str) : str :=
  match s with
  | [] => []
  | c :: rest =>
      if (c =? 13)%N then
        10%N :: match rest with
                | d :: rest' => if (d =? 10)%N then universal rest' else universal rest
                | [] => []
                end
      else c :: universal rest
  end.

(** ** Paths *)

Definition path_join (dir : path) (name : str) : path := dir ++ [name].

Definition basename (p : path) : str := List.last p [].

(** Index of the last ['.'] of [s], as [s.rfind('.')] gives it. *)
Fixpoint rfind_dot (s : str) (i : nat) (found : option nat) : option nat :=
  match s with
  | [] => found
  | c :: rest => rfind_dot rest (S i) (if (c =? 46)%N then Some i else found)
  end.

(** [os.path.splitext] on a single component: the extension starts at the
    last dot, unless only dots come before it. *)
Definition splitext (name : str) : str * str :=
  match rfind_dot name 0 None with
  | Some dotIndex =>
      if forallb (fun c => (c =? 46)%N) (take dotIndex name) then (name, [])
      else (take dotIndex name, drop dotIndex name)
  | None => (name, [])
  end.

(** ** Documents, files and the world *)

Abbreviation image := (list byte) (only parsing).

(** A page of an opened document: its extractable text and its raster at a
    given resolution.  A page of a document that opens always yields both. *)
Record page := Page {
  get_text : str;
  get_pixmap : Z -> image
}.

Inductive file :=
  | Pdf (pages : list page)   (* bytes that PyMuPDF opens as a document *)
  | Text (content : str)      (* a text file *)
  | Damaged (raw : list byte) (* bytes that PyMuPDF refuses to open *).

(** A recognition-engine instance, identified by the construction that
    built it. *)
Record engine := Engine { engine_id : nat }.

Inductive exn :=
  | RuntimeError (msg : str)
  | CalledProcessError (cmd : str)
  | FileDataError (p : path)
  | FileNotFoundError (p : path)
  | OSError (p : path)
  | IndexError
  | ModelError
  | EngineError.

(** Result of the zero-shot pipeline: labels ranked by score. *)
Record zs_result := ZsResult {
  labels : list str;
  scores : list Q
}.

(** What the program prints. *)
Inductive event :=
  | MsgNoInputDir (input_dir : path)
  | MsgDigital (name : str)
  | MsgScanned (name : str)
  | MsgClassified (label : str) (score : Q)
  | MsgError (name : str) (e : exn)
  | MsgCompleted.

Record world := World {
  fs : gmap (list (list N)) file;
  dirs : gset (list (list N));
  stdout : list event;
  reader_attempts : nat;              (* calls of [easyocr.Reader] so far *)
  readers : list engine;              (* the instances they built *)
  model_calls : list (str * list str);  (* invocations of [classifier] *)
  ocr_calls : list (engine * image)     (* invocations of [reader.readtext] *)
}.

(** The external collaborators. *)
Record env := Env {
  gs_responds : str -> bool;
    (* [subprocess.run([cand, "-v"], check=True)] returns *)
  gs_rewrite : str -> file -> option (list page);
    (* the repair run on the bytes of a file: the rewritten document, or a
       non-zero exit *)
  zero_shot : str -> list str -> option zs_result;
    (* the classification model, or an error of the model *)
  reader_boot : nat -> bool;
    (* the k-th construction of the recognition engine succeeds *)
  recognise : engine -> image -> option (list str);
    (* [readtext(..., detail=0, paragraph=True)], or an error *)
  move_ok : path -> path -> bool;
  copy_ok : path -> path -> bool;
  gs_leaves : str -> option file -> option file;
    (* what a repair run that exits with an error leaves at its output
       path, from the candidate and the source if there is one: nothing, or
       a file *)
  move_leaves : path -> path -> file -> option file;
    (* what a move that fails leaves at its destination: nothing new, or a
       file (incomplete, or complete when only the removal of the source
       failed); the source stays *)
  copy_leaves : path -> path -> file -> option file
    (* what a copy that fails leaves at its destination: nothing new, or an
       empty or incomplete file *)
}.

Definition set_fs (f : gmap (list (list N)) file → gmap (list (list N)) file)
    (w : world) : world :=
  World (f (fs w)) (dirs w) (stdout w) (reader_attempts w) (readers w)
        (model_calls w) (ocr_calls w).

Definition add_dirs (d : gset (list (list N))) (w : world) : world :=
  World (fs w) (d ∪ dirs w) (stdout w) (reader_attempts w) (readers w)
        (model_calls w) (ocr_calls w).

Definition add_stdout (e : event) (w : world) : world :=
  World (fs w) (dirs w) (stdout w ++ [e]) (reader_attempts w) (readers w)
        (model_calls w) (ocr_calls w).

Definition add_reader (r : option engine) (w : world) : world :=
  World (fs w) (dirs w) (stdout w) (S (reader_attempts w))
        (match r with Some e => readers w ++ [e] | None => readers w end)
        (model_calls w) (ocr_calls w).

Definition add_model_call (c : str * list str) (w : world) : world :=
  World (fs w) (dirs w) (stdout w) (reader_attempts w) (readers w)
        (model_calls w ++ [c]) (ocr_calls w).

Definition add_ocr_call (c : engine * image) (w : world) : world :=
  World (fs w) (dirs w) (stdout w) (reader_attempts w) (readers w)
        (model_calls w) (ocr_calls w ++ [c]).

(** ** The state-and-exception monad *)

Inductive outcome (A : Type) :=
  | Return (a : A)
  | Raise (e : exn).
Arguments Return {A} a.
Arguments Raise {A} e.

Definition M (A : Type) : Type := world -> outcome A * world.

Definition ret {A} (a : A) : M A := fun w => (Return a, w).

Definition raise {A} (e : exn) : M A := fun w => (Raise e, w).

Definition bind {A B} (m : M A) (k : A -> M B) : M B :=
  fun w =>
    match m w with
    | (Return a, w') => k a w'
    | (Raise e, w') => (Raise e, w')
    end.

(** [try: m  except Exception as e: h e] *)
Definition try_except {A} (m : M A) (h : exn -> M A) : M A :=
  fun w =>
    match m w with
    | (Return a, w') => (Return a, w')
    | (Raise e, w') => h e w'
    end.

Declare Scope py_scope.
Delimit Scope py_scope with py.
Notation "x <- m ;; k" := (bind m (fun x => k))
  (at level 100, m at next level, right associativity) : py_scope.
Notation "m ;;; k" := (bind m (fun _ => k))
  (at level 100, right associativity) : py_scope.
Open Scope py_scope.

Definition print (e : event) : M unit := fun w => (Return tt, add_stdout e w).

(** [xs[i]] *)
Definition subscript {A} (xs : list A) (i : nat) : M A :=
  match nth_error xs i with
  | Some x => ret x
  | None => raise IndexError
  end.

(** ** File-system primitives *)

(** [p] and the paths above it. *)
Definition ancestors (p : path) : gset (list (list N)) :=
  list_to_set (map (fun n => take (S n) p) (seq 0 (length p))).

(** [os.makedirs(p, exist_ok=True)]: [p] and its ancestors become
    directories.  Python raises when a file lies at [p] or above it; the
    pipeline is followed on file systems whose output roots and label
    directories are free of such a file, where the call returns. *)
Definition makedirs (p : path) : M unit :=
  fun w => (Return tt, add_dirs (ancestors p) w).

Definition isdir (p : path) : M bool :=
  fun w => (Return (bool_decide (p ∈ dirs w)), w).

(** The component that [p] adds to [dir], when [p] is an entry of [dir]. *)
Fixpoint entry_of (dir p : path) : option str :=
  match dir, p with
  | [], [name] => Some name
  | d :: dir', c :: p' => if decide (d = c) then entry_of dir' p' else None
  | _, _ => None
  end.

(** The names of the files directly in [dir]. *)
Definition entries (dir : path) (m : gmap (list (list N)) file) : list str :=
  omap (fun kv => entry_of dir (fst kv)) (map_to_list m).

(** The first component of [p] below [dir], when [p] lies below [dir]. *)
Fixpoint child_of (dir p : path) : option str :=
  match dir, p with
  | [], name :: _ => Some name
  | d :: dir', c :: p' => if decide (d = c) then child_of dir' p' else None
  | _, _ => None
  end.

(** The names directly in [dir]: those of its files and those of its
    sub-directories, a sub-directory being a directory that was made or one
    that holds a file, however deep. *)
Definition listing (dir : path) (w : world) : list str :=
  elements (list_to_set (omap (child_of dir)
                           (map fst (map_to_list (fs w)) ++ elements (dirs w)))
            : gset (list N)).

(** [os.listdir(dir)], in the arbitrary order of the operating system:
    files and sub-directories alike. *)
Definition listdir (dir : path) : M (list str) :=
  fun w => (Return (listing dir w), w).

(** [fitz.open(p)] *)
Definition fitz_open (p : path) : M (list page) :=
  fun w =>
    match fs w !! p with
    | Some (Pdf pages) => (Return pages, w)
    | _ => (Raise (FileDataError p), w)
    end.

(** [open(p, "w")]: the file is created or truncated. *)
Definition open_w (p : path) : M unit :=
  fun w => (Return tt, set_fs (insert p (Text [])) w).

(** [txt_file.write(data)] on the file opened at [p]. *)
Definition write (p : path) (data : str) : M unit :=
  fun w =>
    match fs w !! p with
    | Some (Text content) => (Return tt, set_fs (insert p (Text (content ++ data))) w)
    | _ => (Return tt, set_fs (insert p (Text data)) w)
    end.

(** [open(p, "r").read()]: the text of the file, its line ends turned
    into line feeds. *)
Definition read (p : path) : M str :=
  fun w =>
    match fs w !! p with
    | Some (Text content) => (Return (universal content), w)
    | _ => (Raise (FileNotFoundError p), w)
    end.

(** What a failed write of a whole file leaves at its destination. *)
Definition leave (dst : path) (debris : option file)
    (m : gmap (list (list N)) file) : gmap (list (list N)) file :=
  match debris with
  | Some g => <[dst := g]> m
  | None => m
  end.

Section Pipeline.

Variable E : env.

(** [shutil.move(src, dst)]: a rename, or a copy followed by the removal of
    the source.  A move that fails has not removed the source; it may have
    written to the destination. *)
Definition shutil_move (src dst : path) : M unit :=
  fun w =>
    match fs w !! src with
    | Some f =>
        if move_ok E src dst
        then (Return tt, set_fs (fun m => <[dst := f]> (delete src m)) w)
        else (Raise (OSError dst), set_fs (leave dst (move_leaves E src dst f)) w)
    | None => (Raise (FileNotFoundError src), w)
    end.

(** [shutil.copy(src, dst)]; a copy that fails may have created or
    truncated the destination. *)
Definition shutil_copy (src dst : path) : M unit :=
  fun w =>
    match fs w !! src with
    | Some f =>
        if copy_ok E src dst
        then (Return tt, set_fs (insert dst f) w)
        else (Raise (OSError dst), set_fs (leave dst (copy_leaves E src dst f)) w)
    | None => (Raise (FileNotFoundError src), w)
    end.

(** ** Zero-shot classifier *)

Definition LABELS : list str := [lit "static data"; lit "dynamic data"].

(** [classifier(text, LABELS, multi_label=False)] *)
Definition classifier (text : str) (candidate_labels : list str) : M zs_result :=
  fun w =>
    match zero_shot E text candidate_labels with
    | Some result => (Return result, add_model_call (text, candidate_labels) w)
    | None => (Raise ModelError, add_model_call (text, candidate_labels) w)
    end.

Definition classify_text (text : str) : M str :=
  if negb (truthy (strip text)) then ret (lit "unknown")
  else
    result <- classifier text LABELS ;;
    label <- subscript (labels result) 0 ;;
    score <- subscript (scores result) 0 ;;
    print (MsgClassified label score) ;;;
    ret label.

(** ** PDF processing functions *)

(** [sum(1 for page in doc if page.get_text().strip())] *)
Definition text_pages (doc : list page) : Z :=
  Z.of_nat (length (filter (fun pg => truthy (strip (get_text pg)) = true) doc)).

Definition page_count (doc : list page) : Z := Z.of_nat (length doc).

(** [text_pages >= doc.page_count / 2], the division being Python's true
    division (exact on the page counts a document can have). *)
Definition half_threshold (doc : list page) : bool :=
  Qle_bool (inject_Z (page_count doc) / inject_Z 2) (inject_Z (text_pages doc)).

Definition is_digital (pdf_path : path) : M bool :=
  try_except
    (doc <- fitz_open pdf_path ;;
     ret (half_threshold doc))
    (fun _ => ret false).

Definition gs_candidates : list str := [lit "gswin64c"; lit "gswin32c"; lit "gs"].

(** The probing loop: the first candidate whose [-v] run succeeds. *)
Fixpoint probe (cands : list str) : option str :=
  match cands with
  | [] => None
  | cand :: rest => if gs_responds E cand then Some cand else probe rest
  end.

(** [subprocess.run([gs, "-o", out_path, ..., pdf_path], check=True)]; a
    run that exits with an error may have written to its output path. *)
Definition run_gs (gs : str) (out_path pdf_path : path) : M unit :=
  fun w =>
    match fs w !! pdf_path with
    | Some source =>
        match gs_rewrite E gs source with
        | Some repaired => (Return tt, set_fs (insert out_path (Pdf repaired)) w)
        | None => (Raise (CalledProcessError gs),
                   set_fs (leave out_path (gs_leaves E gs (Some source))) w)
        end
    | None => (Raise (CalledProcessError gs),
               set_fs (leave out_path (gs_leaves E gs None)) w)
    end.

Definition ghostscript_repair (pdf_path repaired_dir : path) : M path :=
  makedirs repaired_dir ;;;
  let out_path := path_join repaired_dir (basename pdf_path) in
  match probe gs_candidates with
  | None => raise (RuntimeError (lit "Ghostscript not found. Please install it."))
  | Some gs =>
      run_gs gs out_path pdf_path ;;;
      ret out_path
  end.

(** [reader.readtext(pix.tobytes(), detail=0, paragraph=True)] *)
Definition readtext (reader : engine) (pix : image) : M (list str) :=
  fun w =>
    match recognise E reader pix with
    | Some fragments => (Return fragments, add_ocr_call (reader, pix) w)
    | None => (Raise EngineError, add_ocr_call (reader, pix) w)
    end.

Definition NL : char := 10%N.

(** The body of [for page_num in range(doc.page_count)], from [page_num]
    on. *)
Fixpoint ocr_pages (txt_path : path) (reader : engine) (dpi : Z)
    (pages : list page) (page_num : Z) : M unit :=
  match pages with
  | [] => ret tt
  | pg :: rest =>
      let pix := get_pixmap pg dpi in
      ocr_result <- readtext reader pix ;;
      write txt_path (lit "Page " ++ str_of_Z (page_num + 1) ++ lit ":" ++ [NL]) ;;;
      write txt_path (join (lit " ") ocr_result) ;;;
      write txt_path ([NL] ++ str_mul (lit "-") 80 ++ [NL]) ;;;
      ocr_pages txt_path reader dpi rest (page_num + 1)
  end.

Definition ocr_name (name : str) : str := fst (splitext name) ++ lit "_ocr.txt".

Definition ocr_extract (pdf_path ocr_dir : path) (reader : engine) (dpi : Z) : M path :=
  makedirs ocr_dir ;;;
  let base := fst (splitext (basename pdf_path)) in
  let txt_path := path_join ocr_dir (base ++ lit "_ocr.txt") in
  doc <- fitz_open pdf_path ;;
  open_w txt_path ;;;
  ocr_pages txt_path reader dpi doc 0 ;;;
  ret txt_path.

(** [easyocr.Reader(langs, gpu=gpu)], the import included. *)
Definition easyocr_Reader (langs : list str) (gpu : bool) : M engine :=
  fun w =>
    let k := reader_attempts w in
    if reader_boot E k
    then (Return (Engine k), add_reader (Some (Engine k)) w)
    else (Raise EngineError, add_reader None w).

(** The digital branch of [process_pdf], after its message. *)
Definition repair_and_file (pdf_path repaired_dir : path) : M unit :=
  repaired_path <- ghostscript_repair pdf_path repaired_dir ;;
  doc <- fitz_open repaired_path ;;
  let text_content := join [NL] (map get_text doc) in
  label <- classify_text text_content ;;
  let classified_dir := path_join repaired_dir (replace_char 32 95 label) in
  makedirs classified_dir ;;;
  shutil_move repaired_path (path_join classified_dir (basename repaired_path)).

(** The scanned branch of [process_pdf], after its message. *)
Definition extract_and_file (pdf_path ocr_dir : path) (reader : option engine) : M unit :=
  reader <- match reader with
            | None => easyocr_Reader [lit "hi"; lit "en"] true
            | Some r => ret r
            end ;;
  txt_path <- ocr_extract pdf_path ocr_dir reader 200 ;;
  text_content <- read txt_path ;;
  label <- classify_text text_content ;;
  let classified_dir := path_join ocr_dir (replace_char 32 95 label) in
  makedirs classified_dir ;;;
  shutil_move txt_path (path_join classified_dir (basename txt_path)).

(** The [try] block of [process_pdf]. *)
Definition process_body (pdf_path repaired_dir ocr_dir : path)
    (reader : option engine) : M unit :=
  digital <- is_digital pdf_path ;;
  if digital then
    print (MsgDigital (basename pdf_path)) ;;;
    repair_and_file pdf_path repaired_dir
  else
    print (MsgScanned (basename pdf_path)) ;;;
    extract_and_file pdf_path ocr_dir reader.

(** The [except] block of [process_pdf]; a failure of the copy is passed
    over. *)
Definition quarantine (pdf_path : path) (error_dir : option path) (e : exn) : M unit :=
  print (MsgError (basename pdf_path) e) ;;;
  match error_dir with
  | Some dir =>
      if truthy dir then
        makedirs dir ;;;
        try_except
          (shutil_copy pdf_path (path_join dir (basename pdf_path)))
          (fun _ => ret tt)
      else ret tt
  | None => ret tt
  end.

Definition process_pdf (pdf_path repaired_dir ocr_dir : path)
    (error_dir : option path) (reader : option engine) : M unit :=
  try_except
    (process_body pdf_path repaired_dir ocr_dir reader)
    (quarantine pdf_path error_dir).

(** ** The batch orchestrator *)

Definition is_pdf_name (filename : str) : bool := endswith (lower filename) (lit ".pdf").

(** The [for filename in sorted(os.listdir(input_dir))] loop; the value
    returned is [count] when the loop is left. *)
Fixpoint main_loop (input_dir repaired_dir ocr_dir : path)
    (error_dir : option path) (limit : option Z) (reader : option engine)
    (files : list str) (count : Z) : M Z :=
  match files with
  | [] => ret count
  | filename :: rest =>
      if negb (is_pdf_name filename) then
        main_loop input_dir repaired_dir ocr_dir error_dir limit reader rest count
      else if match limit with Some l => (count >=? l)%Z | None => false end then
        ret count
      else
        let pdf_path := path_join input_dir filename in
        process_pdf pdf_path repaired_dir ocr_dir error_dir reader ;;;
        main_loop input_dir repaired_dir ocr_dir error_dir limit reader rest (count + 1)
  end.

(** [main]; the Python function returns [None], the model returns the
    value of [count] when the loop is left. *)
Definition main (input_dir repaired_dir ocr_dir : path)
    (error_dir : option path) (limit : option Z) : M Z :=
  exists_ <- isdir input_dir ;;
  if negb exists_ then
    print (MsgNoInputDir input_dir) ;;;
    ret 0%Z
  else
    makedirs repaired_dir ;;;
    makedirs ocr_dir ;;;
    match error_dir with
    | Some dir => if truthy dir then makedirs dir else ret tt
    | None => ret tt
    end ;;;
    reader <- try_except
                (r <- easyocr_Reader [lit "hi"; lit "en"] true ;; ret (Some r))
                (fun _ => ret None) ;;
    names <- listdir input_dir ;;
    count <- main_loop input_dir repaired_dir ocr_dir error_dir limit reader
               (sorted names) 0 ;;
    print MsgCompleted ;;;
    ret count.

End Pipeline.


(** ** Vocabulary of the specification *)

(** Number of pages whose extractable text is not empty once stripped. *)
Definition pages_with_text (doc : list page) : nat :=
  length (filter (fun pg => strip (get_text pg) <> []) doc).

(** The monotonicity property of the detector as the specification words it:
    a readable document of any page count is digital when all its pages hold
    text, and not digital when none does. *)
Definition detection_all_or_none : Prop :=
  forall (p : path) (w : world) (doc : list page),
    fs w !! p = Some (Pdf doc) ->
    (pages_with_text doc = length doc -> fst (is_digital p w) = Return true)
    /\ (pages_with_text doc = 0 -> fst (is_digital p w) = Return false).

(** The text artifact as the specification describes it: per page, a line
    [Page k:], the recognised fragments joined by spaces, and a line of 80
    dashes; pages are numbered from 1 in ascending order. *)
Definition separator_line : str := repeat 45%N 80.

Definition page_block (k : nat) (fragments : list str) : str :=
  lit "Page " ++ str_of_Z (Z.of_nat k) ++ lit ":" ++ [10%N]
  ++ join (lit " ") fragments ++ [10%N]
  ++ separator_line ++ [10%N].

Definition page_blocks_from (first : nat) (per_page : list (list str)) : list str :=
  imap (fun i fragments => page_block (first + i) fragments) per_page.

Definition text_artifact (per_page : list (list str)) : str :=
  concat (page_blocks_from 1 per_page).

(** The text artifact as a read in text mode returns it: recognised
    fragments may hold carriage returns, which the read turns into line
    feeds. *)
Definition artifact_read (per_page : list (list str)) : str :=
  universal (text_artifact per_page).

(** The documents a run dispatches, in order: the names in the
    ["Processing digital PDF"] and ["Processing scanned PDF"] lines. *)
Definition dispatched (out : list event) : list str :=
  omap (fun ev => match ev with
                  | MsgDigital name | MsgScanned name => Some name
                  | _ => None
                  end) out.

(** The documents whose processing raised: the names in the
    ["Error processing"] lines. *)
Definition errored (out : list event) : list str :=
  omap (fun ev => match ev with MsgError name _ => Some name | _ => None end) out.


(** The world as [main] has arranged it when it lists the input directory:
    the output roots are made. *)
Definition arranged (repaired_dir ocr_dir : path) (error_dir : option path)
    (w : world) : world :=
  let made := add_dirs (ancestors ocr_dir) (add_dirs (ancestors repaired_dir) w) in
  match error_dir with
  | Some dir => if truthy dir then add_dirs (ancestors dir) made else made
  | None => made
  end.

(** The [.pdf] entries of the input directory, files and sub-directories
    alike, in the order of the loop. *)
Definition pdf_queue (input_dir : path) (w : world) : list str :=
  List.filter is_pdf_name (sorted (listing input_dir w)).

(** The part of the queue a cap lets through, [count] documents having been
    dispatched already. *)
Definition under_cap (limit : option Z) (count : Z) (queue : list str) : list str :=
  match limit with
  | Some l => take (Z.to_nat (l - count)) queue
  | None => queue
  end.

(** The paths the processing of the document [name] may write or remove. *)
Definition footprint (repaired_dir ocr_dir : path) (error_dir : option path)
    (name : str) (q : path) : Prop :=
  q = repaired_dir ++ [name]
  \/ (exists label, q = repaired_dir ++ [label; name])
  \/ q = ocr_dir ++ [ocr_name name]
  \/ (exists label, q = ocr_dir ++ [label; ocr_name name])
  \/ (exists dir, error_dir = Some dir /\ q = dir ++ [name]).

(** A computation preserves a relation between the world it starts in and
    the world it ends in, whether it returns or raises. *)
Definition preserves {A} (R : world -> world -> Prop) (m : M A) : Prop :=
  forall w, R w (snd (m w)).

(** Only the paths in [S] may change in the file system. *)
Definition frame (S : path -> Prop) (w w' : world) : Prop :=
  forall q, ~ S q -> fs w' !! q = fs w !! q.

(** What is printed are events satisfying [P]. *)
Definition prints (P : event -> Prop) (w w' : world) : Prop :=
  exists out, stdout w' = stdout w ++ out /\ Forall P out.

(** No engine is constructed and every recognition call goes to [r]. *)
Definition engine_reused (r : engine) (w w' : world) : Prop :=
  reader_attempts w' = reader_attempts w
  /\ readers w' = readers w
  /\ exists calls, ocr_calls w' = ocr_calls w ++ calls
                   /\ Forall (fun c => fst c = r) calls.

(** No construction of an engine is attempted. *)
Definition attempts_kept (w w' : world) : Prop :=
  reader_attempts w' = reader_attempts w.

(** The lines a document may print after its dispatch line: the
    classification it received and the error of its own processing. *)
Definition report_of (name : str) (ev : event) : Prop :=
  match ev with
  | MsgClassified _ _ => True
  | MsgError name' _ => name' = name
  | _ => False
  end.

(** The engine [main] passes to every document: the one its own
    construction built, if that succeeded. *)
Definition boot_engine (E : env) (w : world) : option engine :=
  if reader_boot E (reader_attempts w) then Some (Engine (reader_attempts w)) else None.

(** What a run printed: the lines of [stdout] after those of the initial
    world. *)
Definition printed (w w' : world) : list event := drop (length (stdout w)) (stdout w').





(** Two directories neither of which lies inside the other. *)
Definition separate (a b : path) : Prop :=
  ~ a `prefix_of` b /\ ~ b `prefix_of` a.

(** The input directory and the three output roots are pairwise
    separate. *)
Definition layout_ok (input_dir repaired_dir ocr_dir error_dir : path) : Prop :=
  separate input_dir repaired_dir /\ separate input_dir ocr_dir
  /\ separate input_dir error_dir /\ separate repaired_dir ocr_dir
  /\ separate repaired_dir error_dir /\ separate ocr_dir error_dir.

(** No file lies under [root]. *)
Definition fresh (root : path) (m : gmap (list (list N)) file) : Prop :=
  map_Forall (fun q _ => ~ root `prefix_of` q) m.




Definition exactly_one (A B C : Prop) : Prop :=
  (A /\ ~ B /\ ~ C) \/ (~ A /\ B /\ ~ C) \/ (~ A /\ ~ B /\ C).


(** The line a successful classification prints. *)
Definition classification_line (ev : event) : Prop :=
  match ev with MsgClassified _ _ => True | _ => False end.


(** What the end of a run holds at the quarantine path of an errored entry
    of the input directory.  For a file: the original when the copy
    succeeded; when the copy failed, what the failed copy left there, and
    what was there before the run when it left nothing.  For a
    sub-directory, which no copy takes: what was there before the run. *)
Definition kept (E : env) (input_dir error_dir : path) (w : world)
    (m : gmap (list (list N)) file) (name : str) : Prop :=
  let src := input_dir ++ [name] in
  let dst := error_dir ++ [name] in
  match fs w !! src with
  | Some original =>
      if copy_ok E src dst then m !! dst = Some original
      else m !! dst = match copy_leaves E src dst original with
                      | Some debris => Some debris
                      | None => fs w !! dst
                      end
  | None => m !! dst = fs w !! dst
  end.

(** The move of an artifact of the document [name] into a label directory
    fails and leaves a file there. *)
Definition move_left (E : env) (repaired_dir ocr_dir : path) (name : str) : Prop :=
  exists (src dst : path) (label : str) (f debris : file),
    (src = repaired_dir ++ [name] /\ dst = repaired_dir ++ [label; name]
     \/ src = ocr_dir ++ [ocr_name name] /\ dst = ocr_dir ++ [label; ocr_name name])
    /\ move_ok E src dst = false
    /\ move_leaves E src dst f = Some debris.




(** ** Sample inputs *)

Module Sample.

Definition input_dir : path := [lit "."; lit "data"; lit "pdfs"].
Definition repaired_dir : path := [lit "."; lit "sorted_data"; lit "repaired"].
Definition ocr_dir : path := [lit "."; lit "sorted_data"; lit "ocr_texts"].
Definition error_dir : path := [lit "."; lit "sorted_data"; lit "error"].

Definition text_page : page := Page (lit "Annual report") (fun _ => []).
Definition blank_page : page := Page (lit "  ") (fun _ => []).

(** A world whose input directory holds the given files and nothing else. *)
Definition world_of (files : list (str * file)) : world :=
  World (list_to_map (map (fun nf => (path_join input_dir (fst nf), snd nf)) files))
        {[ input_dir ]} [] 0 [] [] [].

Definition ranking (text : str) (candidates : list str) : option zs_result :=
  Some (ZsResult candidates (map (fun _ => 1 # 2) candidates)).

(** Every collaborator works; Ghostscript is installed as [gs]. *)
Definition all_good : env :=
  Env (fun cand => bool_decide (cand = lit "gs"))
      (fun _ source => match source with Pdf pages => Some pages | _ => None end)
      ranking
      (fun _ => true)
      (fun _ _ => Some [lit "scanned"; lit "words"])
      (fun _ _ => true)
      (fun _ _ => true)
      (fun _ _ => None) (fun _ _ _ => None) (fun _ _ _ => None).

Definition typed : file := Pdf [text_page; text_page].
Definition scan : file := Pdf [blank_page; blank_page].

(** Five documents and a file that is not a document, listed out of
    order. *)
Definition five : world :=
  world_of [(lit "e.pdf", scan); (lit "b.PDF", typed); (lit "notes.txt", Text []);
            (lit "d.pdf", typed); (lit "a.pdf", scan); (lit "c.pdf", typed)].








(** No collaborator works; what fails half-way leaves an empty file. *)
Definition nothing_works : env :=
  Env (fun _ => false) (fun _ _ => None) (fun _ _ => None) (fun _ => false)
      (fun _ _ => None) (fun _ _ => false) (fun _ _ => false)
      (fun _ _ => Some (Damaged [])) (fun _ _ _ => Some (Damaged []))
      (fun _ _ _ => Some (Damaged [])).



(** Ghostscript is installed and its repair run exits with an error; the
    copy into the quarantine directory fails and leaves an empty file. *)
Definition no_copy : env :=
  Env (gs_responds all_good) (fun _ _ => None) ranking (fun _ => true)
      (fun _ _ => Some [lit "scanned"; lit "words"])
      (fun _ _ => true) (fun _ _ => false)
      (fun _ _ => None) (fun _ _ _ => None) (fun _ _ _ => Some (Damaged [])).


End Sample.

(** ** Further vocabulary *)

(** The label [classify_text] returns for a text, when it returns: the
    short-circuit label on blank text, the first label of the model's answer
    otherwise. *)
Definition label_of (E : env) (text : str) : option str :=
  if forallb is_space text then Some (lit "unknown")
  else
    match zero_shot E text LABELS with
    | Some result =>
        match labels result, scores result with
        | label :: _, _ :: _ => Some label
        | _, _ => None
        end
    | None => None
    end.

(** The directory name of a label: [label.replace(" ", "_")]. *)
Definition label_dir (label : str) : str := replace_char 32 95 label.

(** The recognition engine is left alone: nothing is constructed and
    nothing is recognised. *)
Definition engine_idle (w w' : world) : Prop :=
  reader_attempts w' = reader_attempts w
  /\ readers w' = readers w
  /\ ocr_calls w' = ocr_calls w.

(** The classification model is left alone. *)
Definition model_idle (w w' : world) : Prop := model_calls w' = model_calls w.


(** The engine the scanned branch works with: the one handed over, or, with
    none handed over, the one constructed on the spot when the construction
    succeeds. *)
Definition engine_for (E : env) (reader : option engine) (w : world) : option engine :=
  match reader with
  | Some r => Some r
  | None => boot_engine E w
  end.

(** The pages of a document as the extraction hands them to the engine. *)
Definition scans (r : engine) (dpi : Z) (doc : list page) : list (engine * image) :=
  map (fun pg => (r, get_pixmap pg dpi)) doc.

(** The engine recognises every page of [doc], page by page as [per_page]. *)
Definition legible (E : env) (r : engine) (dpi : Z) (doc : list page)
    (per_page : list (list str)) : Prop :=
  Forall2 (fun pg fr => recognise E r (get_pixmap pg dpi) = Some fr) doc per_page.

(** What a run asked the model: the calls after those of the initial
    world. *)
Definition asked (w w' : world) : list (str * list str) :=
  drop (length (model_calls w)) (model_calls w').

(** What the [except] block of [process_pdf] does to the files: with an
    error directory set and a file at [pdf_path], the file is copied under
    its own name into the error directory, or, when the copy fails, what the
    failed copy leaves is there; otherwise nothing. *)
Definition quarantine_copy (E : env) (pdf_path : path) (error_dir : option path)
    (m : gmap (list (list N)) file) : gmap (list (list N)) file :=
  match error_dir, m !! pdf_path with
  | Some dir, Some f =>
      let dst := dir ++ [basename pdf_path] in
      if truthy dir then
        if copy_ok E pdf_path dst then <[dst := f]> m
        else leave dst (copy_leaves E pdf_path dst f) m
      else m
  | _, _ => m
  end.

(** The directories the [except] block of [process_pdf] makes sure of. *)
Definition quarantine_dirs (error_dir : option path) : gset (list (list N)) :=
  match error_dir with
  | Some dir => if truthy dir then ancestors dir else ∅
  | None => ∅
  end.

(** * The text cleaner of [scraping/cleaning_text.py]

    [clean_file_in_place] rewrites a text file through a temporary file,
    replacing every block of header lines (a line holding [---] or starting
    with [Page ]) by one line [#] and dropping the blank lines;
    [clean_directory] does so for the [.txt] entries of a directory.

    The cleaner prints lines of its own and meets errors of its own, so it
    runs on a store of its own; files, paths and text are those of the
    pipeline.  A text file holds its text with the line ends as they are
    stored; a read in text mode turns them into line feeds ([universal]),
    and what the cleaner writes holds line feeds only. *)

Module Cleaning.

(** ** Text *)

(** [needle in hay] *)
Fixpoint contains (hay needle : str) : bool :=
  startswith hay needle
  || match hay with
     | [] => false
     | _ :: rest => contains rest needle
     end.

(** The lines the iteration over a text file yields: each ends with its
    line feed, except possibly the last. *)
Fixpoint split_lines (s : str) : list str :=
  match s with
  | [] => []
  | c :: rest =>
      if (c =? 10)%N then [c] :: split_lines rest
      else match split_lines rest with
           | [] => [[c]]
           | line :: lines => (c :: line) :: lines
           end
  end.

(** ** Errors, printed lines, store *)

Inductive error :=
  | NoTempFile                      (* [tempfile.mkstemp] failed *)
  | FileNotFoundError (p : path)
  | UnicodeDecodeError (p : path)
  | OSError (p : path).

Inductive notice :=
  | ErrorProcessing (name : str) (e : error)  (* Error processing {name}: {e} *)
  | DirectoryNotFound (dir : path)            (* Error: Directory not found at '{dir}' *)
  | NoTxtFiles                                (* No .txt files were found to clean. *)
  | CleaningIn (dir : path).                  (* Cleaning text files in: {dir} *)

Record store := Store {
  files : gmap (list (list N)) file;
  folders : gset (list (list N));
  console : list notice
}.

(** The collaborators of the cleaner. *)
Record env := Env {
  mkstemp_path : gmap (list (list N)) file -> option path;
    (* the path of the temporary file [tempfile.mkstemp] creates *)
  garbled : file -> list str * bool;
    (* a file that is not a text file read in text mode: the lines it
       yields, and whether the read gets to the end of the file without a
       decoding error *)
  move_ok : path -> path -> bool;
  move_leaves : path -> path -> file -> option file;
    (* what a move that fails leaves at its destination: nothing new, or a
       file, the move of the temporary file onto the target being a copy
       across file systems; the source stays *)
  remove_ok : path -> bool;
  project_root : path
    (* [os.path.dirname(os.path.abspath(__file__))] *)
}.

Definition set_files (f : gmap (list (list N)) file -> gmap (list (list N)) file)
    (s : store) : store :=
  Store (f (files s)) (folders s) (console s).

Definition add_console (n : notice) (s : store) : store :=
  Store (files s) (folders s) (console s ++ [n]).

(** ** The state-and-exception monad of the cleaner *)

Inductive result (A : Type) :=
  | Ok (a : A)
  | Err (e : error).
Arguments Ok {A} a.
Arguments Err {A} e.

Definition M (A : Type) : Type := store -> result A * store.

Definition ret {A} (a : A) : M A := fun s => (Ok a, s).
Definition raise {A} (e : error) : M A := fun s => (Err e, s).

Definition bind {A B} (m : M A) (k : A -> M B) : M B :=
  fun s =>
    match m s with
    | (Ok a, s') => k a s'
    | (Err e, s') => (Err e, s')
    end.

Definition try_except {A} (m : M A) (h : error -> M A) : M A :=
  fun s =>
    match m s with
    | (Ok a, s') => (Ok a, s')
    | (Err e, s') => h e s'
    end.

Declare Scope clean_scope.
Delimit Scope clean_scope with clean.
Notation "x <- m ;; k" := (bind m (fun x => k))
  (at level 100, m at next level, right associativity) : clean_scope.
Notation "m ;;; k" := (bind m (fun _ => k))
  (at level 100, right associativity) : clean_scope.
Local Open Scope clean_scope.

Definition print (n : notice) : M unit := fun s => (Ok tt, add_console n s).

(** ** File-system primitives *)

Definition isdir (p : path) : M bool :=
  fun s => (Ok (bool_decide (p ∈ folders s)), s).

(** [os.listdir(dir)] on a directory of files: the names of the files
    directly in [dir]. *)
Definition listdir (dir : path) : M (list str) :=
  fun s => (Ok (entries dir (files s)), s).

(** [os.path.exists(p)] *)
Definition path_exists (p : path) : M bool :=
  fun s => (Ok (bool_decide (is_Some (files s !! p) \/ p ∈ folders s)), s).

(** [temp_file.write(data)] on the file opened at [p]. *)
Definition write (p : path) (data : str) : M unit :=
  fun s =>
    match files s !! p with
    | Some (Text content) => (Ok tt, set_files (insert p (Text (content ++ data))) s)
    | _ => (Ok tt, set_files (insert p (Text data)) s)
    end.

Section Cleaner.

Variable E : env.

(** [tempfile.mkstemp()] with [os.fdopen(temp_fd, 'w')]: a new, empty
    file. *)
Definition mkstemp : M path :=
  fun s =>
    match mkstemp_path E (files s) with
    | Some p => (Ok p, set_files (insert p (Text [])) s)
    | None => (Err NoTempFile, s)
    end.

(** [open(p, 'r', encoding='utf-8')] *)
Definition open_r (p : path) : M file :=
  fun s =>
    match files s !! p with
    | Some f => (Ok f, s)
    | None => (Err (FileNotFoundError p), s)
    end.

(** The lines the iteration over an open file yields, and whether it gets
    to the end of the file. *)
Definition lines_of (f : file) : list str * bool :=
  match f with
  | Text content => (split_lines (universal content), true)
  | _ => garbled E f
  end.

(** [shutil.move(src, dst)]; a file at [dst] is replaced.  A move that
    fails has not removed the source; it may have written to the
    destination. *)
Definition shutil_move (src dst : path) : M unit :=
  fun s =>
    match files s !! src with
    | Some f =>
        if move_ok E src dst
        then (Ok tt, set_files (fun m => <[dst := f]> (delete src m)) s)
        else (Err (OSError dst), set_files (leave dst (move_leaves E src dst f)) s)
    | None => (Err (FileNotFoundError src), s)
    end.

(** [os.remove(p)] *)
Definition os_remove (p : path) : M unit :=
  fun s =>
    match files s !! p with
    | Some _ =>
        if remove_ok E p
        then (Ok tt, set_files (delete p) s)
        else (Err (OSError p), s)
    | None => (Err (FileNotFoundError p), s)
    end.

Definition marker : str := lit "#" ++ [10%N].

(** [ '---' in stripped_line or stripped_line.startswith('Page ') ] *)
Definition is_header (stripped_line : str) : bool :=
  contains stripped_line (lit "---") || startswith stripped_line (lit "Page ").

(** The body of [for line in original_file], from the lines left to
    read. *)
Fixpoint clean_loop (temp_path : path) (lines : list str) (is_header_block : bool)
    : M unit :=
  match lines with
  | [] => ret tt
  | line :: rest =>
      let stripped_line := strip line in
      if is_header stripped_line then
        if negb is_header_block then
          write temp_path marker ;;;
          clean_loop temp_path rest true
        else clean_loop temp_path rest is_header_block
      else if truthy stripped_line then
        write temp_path line ;;;
        clean_loop temp_path rest false
      else clean_loop temp_path rest is_header_block
  end.

Definition clean_file_in_place (filepath : path) : M bool :=
  temp_path <- mkstemp ;;
  try_except
    (original_file <- open_r filepath ;;
     let '(lines, complete) := lines_of original_file in
     clean_loop temp_path lines false ;;;
     (if complete then ret tt else raise (UnicodeDecodeError filepath)) ;;;
     shutil_move temp_path filepath ;;;
     ret true)
    (fun e =>
       print (ErrorProcessing (basename filepath) e) ;;;
       exists_ <- path_exists temp_path ;;
       (if exists_ then os_remove temp_path else ret tt) ;;;
       ret false).

(** The [for filename in os.listdir(directory_path)] loop; the value
    returned is [files_found]. *)
Fixpoint clean_each (directory_path : path) (names : list str) (files_found : Z)
    : M Z :=
  match names with
  | [] => ret files_found
  | filename :: rest =>
      if endswith filename (lit ".txt") then
        clean_file_in_place (path_join directory_path filename) ;;;
        clean_each directory_path rest (files_found + 1)
      else clean_each directory_path rest files_found
  end.

Definition clean_directory (directory_path : path) : M unit :=
  is_dir <- isdir directory_path ;;
  if negb is_dir then print (DirectoryNotFound directory_path)
  else
    names <- listdir directory_path ;;
    files_found <- clean_each directory_path names 0 ;;
    if (files_found =? 0)%Z then print NoTxtFiles else ret tt.

Definition run_cleaning : M unit :=
  let target_directory :=
    path_join (path_join (project_root E) (lit "data")) (lit "texts") in
  print (CleaningIn target_directory) ;;;
  clean_directory target_directory.

End Cleaner.

(** ** Vocabulary of the cleaner *)

(** The pieces the loop writes for the lines it reads. *)
Fixpoint cleaned (lines : list str) (is_header_block : bool) : list str :=
  match lines with
  | [] => []
  | line :: rest =>
      if is_header (strip line) then
        if is_header_block then cleaned rest true
        else marker :: cleaned rest true
      else if truthy (strip line) then line :: cleaned rest false
      else cleaned rest is_header_block
  end.

(** The text of a cleaned file, from the text of the file. *)
Definition clean_text (content : str) : str :=
  concat (cleaned (split_lines (universal content)) false).

(** A line the cleaner keeps: neither blank nor a header. *)
Definition is_content (line : str) : bool :=
  negb (is_header (strip line)) && truthy (strip line).

(** A computation leaves the file [f] at [q], whether it returns or
    raises. *)
Definition keeps {A} (q : path) (f : file) (m : M A) : Prop :=
  forall s, files s !! q = Some f -> files (snd (m s)) !! q = Some f.


(** The temporary files are new files. *)
Definition fresh_temps (E : env) : Prop :=
  forall m p, mkstemp_path E m = Some p -> m !! p = None.

(** A line that ends with its line feed and holds no other. *)
Definition terminated (line : str) : Prop :=
  exists body, line = body ++ [10%N] /\ ~ In 10%N body.

(** The lines of a text: each ends with its line feed, except possibly the
    last, which is then not empty. *)
Inductive lines_wf : list str -> Prop :=
  | wf_nil : lines_wf []
  | wf_last (line : str) : line <> [] -> ~ In 10%N line -> lines_wf [line]
  | wf_cons (line : str) (rest : list str) :
      terminated line -> lines_wf rest -> lines_wf (line :: rest).

(** A text of one line, without line end, that is not a header; it may be
    blank. *)
Definition one_line (t : str) : Prop :=
  ~ In 10%N t /\ ~ In 13%N t /\ is_header (strip t) = false.


(** A sample: every collaborator works, and the temporary file gets a
    path longer than every path in use. *)
Definition beyond (m : gmap (list (list N)) file) : path :=
  lit "tmp" :: concat (map fst (map_to_list m)).

Definition all_good : env :=
  Env (fun m => Some (beyond m))
      (fun _ => ([], false))
      (fun _ _ => true)
      (fun _ _ _ => None)
      (fun _ => true)
      [lit "."].


Definition texts : path := [lit "."; lit "data"; lit "texts"].

Definition shelf (entries : list (str * file)) : store :=
  Store (list_to_map (map (fun nf => (path_join texts (fst nf), snd nf)) entries))
        {[ texts ]} [].

End Cleaning.

(** * The question-answering session of [scraping/llama.py]

    [run_llama] connects to the vector database, creates the collection when
    it is missing, loads the documents the pipeline produced, indexes them
    and answers questions read from the standard input until an exit word is
    typed.  The database, the document reader, the splitter, the index and
    the query engine are collaborators: the calls made to them are recorded
    in order, and what they answer is taken from oracles.  The standard input
    is the list of the lines still to be read. *)

Module Llama.

(** A Python [dict] with string keys, in insertion order. *)
Abbreviation dict := (list (list N * list N)) (only parsing).

(** [d.get(key, default)] *)
Fixpoint dict_get (d : list (list N * list N)) (key default : str) : str :=
  match d with
  | [] => default
  | (k, v) :: rest => if bool_decide (k = key) then v else dict_get rest key default
  end.

Record document := Document {
  metadata : list (list N * list N);
  text : str;
  text_template : str;
  excluded_embed_metadata_keys : list str;
  excluded_llm_metadata_keys : list str
}.

Record source_node := SourceNode {
  node_metadata : list (list N * list N);
  score : option Q          (* [None] is Python's [None] *)
}.

Record response := Response {
  response_text : str;
  source_nodes : list source_node
}.

(** The calls to the collaborators. *)
Inductive call :=
  | ConnectToLocal (port : Z)
  | IsReady
  | CollectionsExists (name : str)
  | CollectionsCreate (name : str)
  | LoadData (input_dir : path)
      (* SimpleDirectoryReader(input_dir, recursive=True).load_data() *)
  | GetNodesFromDocuments (docs : list document)
      (* HierarchicalNodeParser.from_defaults().get_nodes_from_documents(docs) *)
  | BuildIndex (nodes : list str) (index_name : str)
      (* VectorStoreIndex(nodes, WeaviateVectorStore(client, index_name)) *)
  | AsQueryEngine (similarity_top_k : Z)
  | Query (query_text : str)
  | Close.

Inductive error :=
  | RuntimeError (msg : str)
  | EOFError
  | TypeError               (* a score that is [None] formatted as a number *)
  | Failed (c : call).      (* the error a collaborator raised in the call [c] *)

Inductive line :=
  | CreatingCollection      (* Creating new collection in Weaviate... *)
  | NoDocuments             (* [WARN] No documents found in ... *)
  | Chunked (n : nat)       (* Chunked {len(nodes)} nodes. *)
  | Indexed                 (* Data indexed successfully. *)
  | EngineReady             (* --- Query Engine Ready --- *)
  | TypeExit                (* Type 'exit' to quit. *)
  | Prompt                  (* the prompt of [input]: Ask a question: *)
  | Goodbye                 (* Goodbye! *)
  | EmptyQuery              (* Query cannot be empty. *)
  | ResponseHeader          (* --- Response --- *)
  | ResponseText (t : str)  (* pprint.pprint(response.response) *)
  | SourceHeader            (* --- Source Nodes --- *)
  | SourceLine (file_name : str) (s : Q)  (* {file_name} | Score: {score:.4f} *)
  | NoSourceNodes.          (* No source nodes found. *)

Record session := Session {
  stdin : list str;
  stdout : list line;
  calls : list call;
  made : list path          (* the directories [os.makedirs] was called on *)
}.

Record env := Env {
  connects : bool;
  ready : option bool;
  collection_exists : str -> option bool;
  creates : str -> bool;
  loads : path -> option (list document);
  splits : list document -> option (list str);
  indexes : list str -> bool;
  engine_made : bool;
  answers : str -> option response;
  closes : bool;
  project_root : path
}.

Definition read_line (s : session) : session :=
  Session (tl (stdin s)) (stdout s) (calls s) (made s).

Definition add_line (l : line) (s : session) : session :=
  Session (stdin s) (stdout s ++ [l]) (calls s) (made s).

Definition add_call (c : call) (s : session) : session :=
  Session (stdin s) (stdout s) (calls s ++ [c]) (made s).

Definition add_made (p : path) (s : session) : session :=
  Session (stdin s) (stdout s) (calls s) (made s ++ [p]).

Inductive result (A : Type) :=
  | Ok (a : A)
  | Err (e : error).
Arguments Ok {A} a.
Arguments Err {A} e.

Definition M (A : Type) : Type := session -> result A * session.

Definition ret {A} (a : A) : M A := fun s => (Ok a, s).
Definition raise {A} (e : error) : M A := fun s => (Err e, s).

Definition bind {A B} (m : M A) (k : A -> M B) : M B :=
  fun s =>
    match m s with
    | (Ok a, s') => k a s'
    | (Err e, s') => (Err e, s')
    end.

Declare Scope llama_scope.
Delimit Scope llama_scope with llama.
Notation "x <- m ;; k" := (bind m (fun x => k))
  (at level 100, m at next level, right associativity) : llama_scope.
Notation "m ;;; k" := (bind m (fun _ => k))
  (at level 100, right associativity) : llama_scope.
Local Open Scope llama_scope.

Definition print (l : line) : M unit := fun s => (Ok tt, add_line l s).

Definition makedirs (p : path) : M unit := fun s => (Ok tt, add_made p s).

(** A call to a collaborator: recorded, then answered or failed. *)
Definition ask {A} (c : call) (answer : option A) : M A :=
  fun s =>
    match answer with
    | Some a => (Ok a, add_call c s)
    | None => (Err (Failed c), add_call c s)
    end.

Definition done (ok : bool) : option unit := if ok then Some tt else None.

Definition index_name : str := lit "Curaj".

Section Session.

Variable E : env.

(** The body of the second [for dir_path in data_dirs]: [docs.extend]. *)
Fixpoint load_all (data_dirs : list path) (docs : list document) : M (list document) :=
  match data_dirs with
  | [] => ret docs
  | dir_path :: rest =>
      loaded <- ask (LoadData dir_path) (loads E dir_path) ;;
      load_all rest (docs ++ loaded)
  end.

(** The body of [for doc in docs]. *)
Definition prepare (doc : document) : document :=
  let kept := filter (fun k => k <> lit "file_name") (map fst (metadata doc)) in
  Document (metadata doc) (text doc)
    (lit "Metadata:" ++ [10%N] ++ lit "{metadata_str}" ++ [10%N] ++ lit "---"
     ++ [10%N] ++ lit "Content:" ++ [10%N] ++ lit "{content}")
    kept kept.

(** The lines printed for the source nodes of a response. *)
Fixpoint print_sources (nodes : list source_node) : M unit :=
  match nodes with
  | [] => ret tt
  | node :: rest =>
      match score node with
      | Some sc =>
          print (SourceLine (dict_get (node_metadata node) (lit "file_name") (lit "N/A"))
                   sc) ;;;
          print_sources rest
      | None => raise TypeError
      end
  end.

(** The [while True] loop, on the lines the standard input still holds;
    [input] raises [EOFError] when none is left. *)
Fixpoint query_loop (inputs : list str) : M unit :=
  match inputs with
  | [] => print Prompt ;;; raise EOFError
  | query_text :: rest =>
      print Prompt ;;;
      (fun s => (Ok tt, read_line s)) ;;;
      if bool_decide (lower query_text ∈ [lit "exit"; lit "quit"]) then
        print Goodbye
      else if negb (truthy (strip query_text)) then
        print EmptyQuery ;;;
        query_loop rest
      else
        response <- ask (Query query_text) (answers E query_text) ;;
        print ResponseHeader ;;;
        print (ResponseText (response_text response)) ;;;
        print SourceHeader ;;;
        (if truthy (source_nodes response)
         then print_sources (source_nodes response)
         else print NoSourceNodes) ;;;
        query_loop rest
  end.

Definition run_llama : M unit :=
  ask (ConnectToLocal 8080) (done (connects E)) ;;;
  is_ready <- ask IsReady (ready E) ;;
  if negb is_ready then
    raise (RuntimeError
             (lit "Weaviate is not ready. Make sure Docker container is running."))
  else
    exists_ <- ask (CollectionsExists index_name) (collection_exists E index_name) ;;
    (if negb exists_ then
       print CreatingCollection ;;;
       ask (CollectionsCreate index_name) (done (creates E index_name))
     else ret tt) ;;;
    let data_dirs :=
      [project_root E ++ [lit "sorted_data"; lit "repaired"];
       project_root E ++ [lit "sorted_data"; lit "ocr_texts"]] in
    makedirs (project_root E ++ [lit "sorted_data"; lit "repaired"]) ;;;
    makedirs (project_root E ++ [lit "sorted_data"; lit "ocr_texts"]) ;;;
    docs <- load_all data_dirs [] ;;
    if negb (truthy docs) then
      print NoDocuments
    else
      let docs := map prepare docs in
      nodes <- ask (GetNodesFromDocuments docs) (splits E docs) ;;
      print (Chunked (length nodes)) ;;;
      ask (BuildIndex nodes index_name) (done (indexes E nodes)) ;;;
      print Indexed ;;;
      ask (AsQueryEngine 5) (done (engine_made E)) ;;;
      print EngineReady ;;;
      print TypeExit ;;;
      (fun s => query_loop (stdin s) s) ;;;
      ask Close (done (closes E)).

End Session.

(** ** Vocabulary of the session *)

Definition is_exit (query_text : str) : bool :=
  bool_decide (lower query_text ∈ [lit "exit"; lit "quit"]).

(** The lines typed before the first exit word. *)
Fixpoint before_exit (inputs : list str) : list str :=
  match inputs with
  | [] => []
  | query_text :: rest => if is_exit query_text then [] else query_text :: before_exit rest
  end.

(** The questions among the lines: those that are not blank. *)
Definition questions (inputs : list str) : list str :=
  List.filter (fun query_text => truthy (strip query_text)) (before_exit inputs).

(** A response whose source nodes all carry a score. *)
Definition scored (r : response) : Prop :=
  Forall (fun node => is_Some (score node)) (source_nodes r).

(** The lines printed for a response. *)
Definition response_lines (r : response) : list line :=
  [ResponseHeader; ResponseText (response_text r); SourceHeader]
  ++ match source_nodes r with
     | [] => [NoSourceNodes]
     | nodes =>
         omap (fun node =>
                 SourceLine (dict_get (node_metadata node) (lit "file_name") (lit "N/A"))
                 <$> score node) nodes
     end.

(** The questions put to the query engine, among the calls. *)
Definition queried (cs : list call) : list str :=
  omap (fun c => match c with Query q => Some q | _ => None end) cs.

(** A computation that reads no line and does not close the client. *)
Definition harmless {A} (m : M A) : Prop :=
  forall s, stdin (snd (m s)) = stdin s
            /\ exists cs, calls (snd (m s)) = calls s ++ cs /\ ~ In Close cs.

(** A computation whose calls are questions to the query engine. *)
Definition asks_only {A} (m : M A) : Prop :=
  forall s, exists qs, calls (snd (m s)) = calls s ++ map Query qs.

(** A computation that closes the client only when an exit word is among
    the lines to be read. *)
Definition guarded {A} (m : M A) : Prop :=
  forall s, exists cs, calls (snd (m s)) = calls s ++ cs
                       /\ (In Close cs -> existsb is_exit (stdin s) = true).

(** What a run called: the calls after those of the initial session. *)
Definition called (s s' : session) : list call := drop (length (calls s)) (calls s').

(** A sample: every collaborator works, two documents are found, and the
    engine answers every question with its own words. *)
Definition deed : document :=
  Document [(lit "file_name", lit "deed.pdf"); (lit "file_size", lit "2048")]
    (lit "deed of sale") [] [] [].

Definition all_good : env :=
  Env true (Some true) (fun _ => Some true) (fun _ => true)
      (fun _ => Some [deed]) (fun docs => Some (map text docs)) (fun _ => true) true
      (fun q => Some (Response q [SourceNode [(lit "file_name", lit "deed.pdf")]
                                            (Some (1 # 2))]))
      true [lit "."].

(** A sample: the pipeline has produced nothing yet. *)
Definition nothing_loaded : env :=
  Env true (Some true) (fun _ => Some true) (fun _ => true)
      (fun _ => Some []) (fun docs => Some (map text docs)) (fun _ => true) true
      (fun q => Some (Response q [])) true [lit "."].

Definition typing (inputs : list str) : session := Session inputs [] [] [].

End Llama.

(** * The entry point of the pipeline *)

(** No directory disappears. *)
Definition dirs_grow (w w' : world) : Prop := dirs w ⊆ dirs w'.

(** The directories made lie at or above the output roots and the
    directories right below them. *)
Definition made_under (repaired_dir ocr_dir : path) (error_dir : option path)
    (w w' : world) : Prop :=
  forall p, p ∈ dirs w' ->
    p ∈ dirs w
    \/ exists root label,
         (root = repaired_dir \/ root = ocr_dir \/ error_dir = Some root)
         /\ p `prefix_of` root ++ [label].

(** * Properties *)

(** ** Running the monad *)

Lemma bind_Return {A B} (m : M A) (k : A -> M B) (w w' : world) (a : A) :
  m w = (Return a, w') -> bind m k w = k a w'.
Proof. intros H. unfold bind. rewrite H. reflexivity. Qed.

Lemma bind_Raise {A B} (m : M A) (k : A -> M B) (w w' : world) (e : exn) :
  m w = (Raise e, w') -> bind m k w = (Raise e, w').
Proof. intros H. unfold bind. rewrite H. reflexivity. Qed.

Lemma try_Return {A} (m : M A) (h : exn -> M A) (w w' : world) (a : A) :
  m w = (Return a, w') -> try_except m h w = (Return a, w').
Proof. intros H. unfold try_except. rewrite H. reflexivity. Qed.

Lemma try_Raise {A} (m : M A) (h : exn -> M A) (w w' : world) (e : exn) :
  m w = (Raise e, w') -> try_except m h w = h e w'.
Proof. intros H. unfold try_except. rewrite H. reflexivity. Qed.

(** ** Stripping *)

Lemma lstrip_nil (s : str) : lstrip s = [] <-> forallb is_space s = true.
Proof.
  induction s as [|c s IH]; simpl; [tauto|].
  destruct (is_space c); simpl; [exact IH|].
  split; discriminate.
Qed.

Lemma lstrip_head (s : str) :
  match lstrip s with [] => True | c :: _ => is_space c = false end.
Proof.
  induction s as [|c s IH]; simpl; [exact I|].
  destruct (is_space c) eqn:Hc; [exact IH | simpl; exact Hc].
Qed.

Lemma forallb_rev {A} (f : A -> bool) (l : list A) :
  forallb f (rev l) = forallb f l.
Proof.
  induction l as [|a l IH]; simpl; [reflexivity|].
  rewrite forallb_app, IH. simpl. rewrite andb_true_r. apply andb_comm.
Qed.

Lemma rev_nil_inv {A} (l : list A) : rev l = [] -> l = [].
Proof.
  intros H. apply (f_equal (@rev A)) in H. rewrite rev_involutive in H. exact H.
Qed.

(** [text.strip()] is empty exactly when every character of [text] is
    whitespace. *)
Lemma strip_nil (s : str) : strip s = [] <-> forallb is_space s = true.
Proof.
  unfold strip, rstrip. split.
  - intros H. apply rev_nil_inv in H. apply lstrip_nil in H.
    rewrite forallb_rev in H.
    pose proof (lstrip_head s) as Hh.
    destruct (lstrip s) as [|c r] eqn:Hl.
    + apply lstrip_nil. exact Hl.
    + simpl in H. rewrite Hh in H. discriminate.
  - intros H. apply lstrip_nil in H. rewrite H. reflexivity.
Qed.

Lemma truthy_strip (s : str) : truthy (strip s) = negb (forallb is_space s).
Proof.
  destruct (forallb is_space s) eqn:Hs.
  - apply strip_nil in Hs. rewrite Hs. reflexivity.
  - destruct (strip s) eqn:Hst; [|reflexivity].
    apply strip_nil in Hst. congruence.
Qed.

(** ** The content classifier *)

Section ClassifierFacts.

Variable E : env.

Lemma classify_text_blank (text : str) (w : world) :
  forallb is_space text = true ->
  classify_text E text w = (Return (lit "unknown"), w).
Proof.
  intros H. unfold classify_text. rewrite truthy_strip, H. reflexivity.
Qed.

Lemma classify_text_calls (text : str) (w : world) :
  forallb is_space text = false ->
  model_calls (snd (classify_text E text w)) = model_calls w ++ [(text, LABELS)].
Proof.
  intros H. unfold classify_text. rewrite truthy_strip, H. simpl.
  unfold bind, classifier.
  destruct (zero_shot E text LABELS) as [r|]; [|reflexivity].
  unfold subscript.
  destruct (nth_error (labels r) 0); [|reflexivity].
  destruct (nth_error (scores r) 0); reflexivity.
Qed.

Lemma classify_text_label (text : str) (w : world) (r : zs_result) :
  forallb is_space text = false ->
  zero_shot E text LABELS = Some r ->
  Permutation (labels r) LABELS ->
  length (scores r) = length (labels r) ->
  exists (label : str) (score : Q),
    classify_text E text w =
      (Return label,
       add_stdout (MsgClassified label score) (add_model_call (text, LABELS) w))
    /\ nth_error (labels r) 0 = Some label
    /\ In label LABELS.
Proof.
  intros H Hr Hp Hlen. unfold classify_text. rewrite truthy_strip, H. simpl.
  unfold bind, classifier. rewrite Hr. unfold subscript.
  pose proof (Permutation_length Hp) as Hl.
  destruct (labels r) as [|label ls] eqn:Hlab; [discriminate Hl|].
  destruct (scores r) as [|score ss] eqn:Hsc; [discriminate Hlen|].
  simpl. exists label, score. split; [reflexivity|]. split; [reflexivity|].
  apply (Permutation_in _ Hp). left. reflexivity.
Qed.

End ClassifierFacts.

(** C8. Classification of a text that is empty or made of whitespace only
    returns ["unknown"] and leaves the world as it was: the model is not
    invoked and nothing is printed.  On every other text the model is
    invoked once, with the text and the fixed vocabulary, and when it answers
    with a ranking of the vocabulary the label returned is its first label,
    a member of the closed label set. *)
Theorem classify_text_unknown_or_model (E : env) (text : str) (w : world) :
  if forallb is_space text
  then classify_text E text w = (Return (lit "unknown"), w)
  else
    model_calls (snd (classify_text E text w)) = model_calls w ++ [(text, LABELS)]
    /\ forall r : zs_result,
         zero_shot E text LABELS = Some r ->
         Permutation (labels r) LABELS ->
         length (scores r) = length (labels r) ->
         exists label : str,
           fst (classify_text E text w) = Return label
           /\ nth_error (labels r) 0 = Some label
           /\ In label LABELS.
Proof.
  destruct (forallb is_space text) eqn:Hs.
  - apply classify_text_blank. exact Hs.
  - split; [apply classify_text_calls; exact Hs|].
    intros r Hr Hp Hlen.
    destruct (classify_text_label E text w r Hs Hr Hp Hlen)
      as (label & score & Heq & Hn & Hin).
    exists label. rewrite Heq. auto.
Qed.

Lemma classify_text_unknown_or_model_witness :
  classify_text Sample.all_good (lit "   ") Sample.five
  = (Return (lit "unknown"), Sample.five)
  /\ exists label,
       fst (classify_text Sample.all_good (lit "Annual report") Sample.five)
       = Return label
       /\ In label LABELS.
Proof.
  split.
  - exact (classify_text_unknown_or_model Sample.all_good (lit "   ") Sample.five).
  - destruct (classify_text_unknown_or_model Sample.all_good (lit "Annual report")
                Sample.five) as [_ Hmodel].
    destruct (Hmodel (ZsResult LABELS [1 # 2; 1 # 2]) eq_refl
                (Permutation_refl _) eq_refl) as (label & Hl & _ & Hin).
    exists label. split; assumption.
Defined.

(** ** The digital-content detector *)

Lemma text_pages_spec (doc : list page) :
  text_pages doc = Z.of_nat (pages_with_text doc).
Proof.
  unfold text_pages, pages_with_text. f_equal.
  induction doc as [|pg doc IH]; [reflexivity|].
  rewrite !filter_cons.
  destruct (strip (get_text pg)) as [|c s] eqn:Hs; simpl;
    repeat case_decide; simpl; congruence.
Qed.

Lemma pages_with_text_le (doc : list page) : pages_with_text doc <= length doc.
Proof. unfold pages_with_text. apply length_filter. Qed.

(** The float comparison of the source is the integer comparison
    [page_count <= 2 * text_pages]. *)
Lemma half_threshold_spec (doc : list page) :
  half_threshold doc = true <-> length doc <= 2 * pages_with_text doc.
Proof.
  unfold half_threshold, page_count. rewrite text_pages_spec, Qle_bool_iff.
  unfold Qle, Qdiv, Qmult, Qinv, inject_Z. simpl. lia.
Qed.

Lemma is_digital_opened (p : path) (w : world) (doc : list page) :
  fs w !! p = Some (Pdf doc) ->
  is_digital p w = (Return (half_threshold doc), w).
Proof.
  intros H. unfold is_digital, try_except, bind, fitz_open. rewrite H. reflexivity.
Qed.

Lemma is_digital_unopened (p : path) (w : world) :
  (forall doc, fs w !! p <> Some (Pdf doc)) ->
  is_digital p w = (Return false, w).
Proof.
  intros H. unfold is_digital, try_except, bind, fitz_open.
  destruct (fs w !! p) as [[doc| |]|] eqn:Hp; try reflexivity.
  exfalso. apply (H doc). reflexivity.
Qed.

(** The detector never raises and never changes the world. *)
Lemma is_digital_pure (p : path) (w : world) :
  exists b : bool, is_digital p w = (Return b, w).
Proof.
  unfold is_digital, try_except, bind, fitz_open.
  destruct (fs w !! p) as [[doc| |]|]; eexists; reflexivity.
Qed.

(** C5. On a document that opens, the detector answers true exactly when
    the pages with non-empty stripped text are at least half of all pages
    (the page count is at most twice their number), and false otherwise; on a
    path that does not open as a document it answers false.  In both cases
    the world is left as it was. *)
Theorem is_digital_at_least_half (p : path) (w : world) :
  match fs w !! p with
  | Some (Pdf doc) =>
      exists b : bool,
        is_digital p w = (Return b, w)
        /\ (b = true <-> length doc <= 2 * pages_with_text doc)
  | _ => is_digital p w = (Return false, w)
  end.
Proof.
  destruct (fs w !! p) as [[doc| |]|] eqn:Hp;
    try (apply is_digital_unopened; intros doc; rewrite Hp; discriminate).
  exists (half_threshold doc). split.
  - apply is_digital_opened. exact Hp.
  - apply half_threshold_spec.
Qed.

(** C6, as worded, fails on the document without pages: none of its pages
    holds text, and the detector answers true ([0 >= 0 / 2]). *)
Lemma zero_page_document_is_digital :
  let p := path_join Sample.input_dir (lit "empty.pdf") in
  let w := Sample.world_of [(lit "empty.pdf", Pdf [])] in
  fs w !! p = Some (Pdf [])
  /\ pages_with_text [] = 0
  /\ fst (is_digital p w) = Return true
  /\ ~ detection_all_or_none.
Proof.
  assert (Hl : fs (Sample.world_of [(lit "empty.pdf", Pdf [])])
               !! path_join Sample.input_dir (lit "empty.pdf") = Some (Pdf []))
    by (vm_compute; reflexivity).
  assert (Hd : fst (is_digital (path_join Sample.input_dir (lit "empty.pdf"))
                      (Sample.world_of [(lit "empty.pdf", Pdf [])])) = Return true)
    by (rewrite (is_digital_opened _ _ _ Hl); reflexivity).
  simpl. repeat split; try assumption.
  intros Hclaim.
  destruct (Hclaim _ _ _ Hl) as [_ Hnone].
  specialize (Hnone eq_refl). rewrite Hd in Hnone. discriminate Hnone.
Qed.

(** C6, amended.  A readable document all of whose pages hold text is
    digital, whatever its page count; a readable document with at least one
    page and no page holding text is not digital; a readable document
    without pages is digital. *)
Theorem is_digital_all_or_none (p : path) (w : world) (doc : list page) :
  fs w !! p = Some (Pdf doc) ->
  (pages_with_text doc = length doc -> is_digital p w = (Return true, w))
  /\ (pages_with_text doc = 0 -> 0 < length doc -> is_digital p w = (Return false, w))
  /\ (length doc = 0 -> is_digital p w = (Return true, w)).
Proof.
  intros Hp. rewrite (is_digital_opened _ _ _ Hp).
  pose proof (half_threshold_spec doc) as Hspec.
  pose proof (pages_with_text_le doc) as Hle.
  repeat split.
  - intros Hall. f_equal. f_equal. apply Hspec. lia.
  - intros Hnone Hpos. f_equal. f_equal.
    destruct (half_threshold doc); [|reflexivity].
    assert (length doc <= 2 * pages_with_text doc) by (apply Hspec; reflexivity).
    lia.
  - intros Hzero. f_equal. f_equal. apply Hspec. lia.
Qed.

Lemma is_digital_all_or_none_witness :
  is_digital (path_join Sample.input_dir (lit "typed.pdf"))
    (Sample.world_of [(lit "typed.pdf", Pdf [Sample.text_page; Sample.text_page])])
  = (Return true,
     Sample.world_of [(lit "typed.pdf", Pdf [Sample.text_page; Sample.text_page])])
  /\ is_digital (path_join Sample.input_dir (lit "scan.pdf"))
       (Sample.world_of [(lit "scan.pdf", Pdf [Sample.blank_page])])
     = (Return false, Sample.world_of [(lit "scan.pdf", Pdf [Sample.blank_page])]).
Proof.
  split.
  - refine (proj1 (is_digital_all_or_none _ _
              [Sample.text_page; Sample.text_page] _) _);
      vm_compute; reflexivity.
  - refine (proj1 (proj2 (is_digital_all_or_none _ _ [Sample.blank_page] _)) _ _);
      [vm_compute; reflexivity | vm_compute; reflexivity | simpl; lia].
Defined.

(** ** The optical extraction stage *)

Section OcrFacts.

Variable E : env.

Lemma write_text (p : path) (data content : str) (w : world) :
  fs w !! p = Some (Text content) ->
  write p data w = (Return tt, set_fs (insert p (Text (content ++ data))) w).
Proof. intros H. unfold write. rewrite H. reflexivity. Qed.

Lemma page_blocks_from_cons (n : nat) (fr : list str) (rest : list (list str)) :
  page_blocks_from n (fr :: rest) = page_block n fr :: page_blocks_from (S n) rest.
Proof.
  unfold page_blocks_from. rewrite imap_cons. f_equal.
  - f_equal. lia.
  - apply imap_ext. intros i x _. simpl. f_equal. lia.
Qed.

Lemma readtext_ok (reader : engine) (pix : image) (fr : list str) (w : world) :
  recognise E reader pix = Some fr ->
  readtext E reader pix w = (Return fr, add_ocr_call (reader, pix) w).
Proof. intros H. unfold readtext. rewrite H. reflexivity. Qed.

Lemma ocr_pages_cons (txt_path : path) (reader : engine) (dpi : Z)
    (pg : page) (rest : list page) (page_num : Z) :
  ocr_pages E txt_path reader dpi (pg :: rest) page_num
  = (ocr_result <- readtext E reader (get_pixmap pg dpi) ;;
     write txt_path (lit "Page " ++ str_of_Z (page_num + 1) ++ lit ":" ++ [NL]) ;;;
     write txt_path (join (lit " ") ocr_result) ;;;
     write txt_path ([NL] ++ str_mul (lit "-") 80 ++ [NL]) ;;;
     ocr_pages E txt_path reader dpi rest (page_num + 1)).
Proof. reflexivity. Qed.

Lemma separator_line_eq : str_mul (lit "-") 80 = separator_line.
Proof. reflexivity. Qed.


End OcrFacts.



(** ** Sorting of the directory listing *)

Lemma str_leb_total (a : str) : forall b, str_leb a b = false -> str_leb b a = true.
Proof.
  induction a as [|x a IH]; intros [|y b] H; simpl in *; try congruence.
  apply orb_false_iff in H. destruct H as [Hlt Hrest].
  apply N.ltb_ge in Hlt.
  destruct (N.eqb_spec x y) as [->|Hne].
  - simpl in Hrest. rewrite N.eqb_refl, (IH _ Hrest). simpl. apply orb_true_r.
  - assert (Hyx : (y <? x)%N = true) by (apply N.ltb_lt; lia).
    rewrite Hyx. reflexivity.
Qed.

Lemma str_leb_trans (a : str) :
  forall b c, str_leb a b = true -> str_leb b c = true -> str_leb a c = true.
Proof.
  induction a as [|x a IH]; intros [|y b] [|z c] Hab Hbc; simpl in *;
    try congruence.
  apply orb_true_iff in Hab. apply orb_true_iff in Hbc. apply orb_true_iff.
  destruct Hab as [Hxy|Hxy]; destruct Hbc as [Hyz|Hyz].
  - left. apply N.ltb_lt. apply N.ltb_lt in Hxy, Hyz. lia.
  - apply andb_true_iff in Hyz. destruct Hyz as [Heq _].
    apply N.eqb_eq in Heq. subst. left. exact Hxy.
  - apply andb_true_iff in Hxy. destruct Hxy as [Heq _].
    apply N.eqb_eq in Heq. subst. left. exact Hyz.
  - apply andb_true_iff in Hxy. apply andb_true_iff in Hyz.
    destruct Hxy as [Heq1 H1]. destruct Hyz as [Heq2 H2].
    apply N.eqb_eq in Heq1, Heq2. subst. right.
    rewrite N.eqb_refl. simpl. exact (IH _ _ H1 H2).
Qed.

Lemma insert_sorted_perm (x : str) (l : list str) :
  Permutation (insert_sorted x l) (x :: l).
Proof.
  induction l as [|y l IH]; simpl; [reflexivity|].
  destruct (str_leb x y); [reflexivity|].
  rewrite IH. apply perm_swap.
Qed.

Lemma sorted_perm (l : list str) : Permutation (sorted l) l.
Proof.
  induction l as [|x l IH]; simpl; [reflexivity|].
  rewrite insert_sorted_perm. constructor. exact IH.
Qed.

Lemma insert_sorted_sorted (x : str) (l : list str) :
  StronglySorted str_le l -> StronglySorted str_le (insert_sorted x l).
Proof.
  induction l as [|y l IH]; intros Hl; simpl.
  - constructor; constructor.
  - inversion Hl as [|? ? Hl' Hy]; subst.
    destruct (str_leb x y) eqn:Hxy.
    + constructor; [exact Hl|]. constructor; [exact Hxy|].
      eapply Forall_impl; [exact Hy|].
      intros z Hz. exact (str_leb_trans _ _ _ Hxy Hz).
    + constructor; [apply IH; exact Hl'|].
      apply (Permutation_Forall (Permutation_sym (insert_sorted_perm x l))).
      constructor; [apply str_leb_total; exact Hxy | exact Hy].
Qed.

(** [sorted] returns its argument rearranged in ascending code-point
    order. *)
Lemma sorted_sorted (l : list str) : StronglySorted str_le (sorted l).
Proof.
  induction l as [|x l IH]; simpl; [constructor|].
  apply insert_sorted_sorted. exact IH.
Qed.

Lemma str_leb_antisym (a : str) :
  forall b, str_leb a b = true -> str_leb b a = true -> a = b.
Proof.
  induction a as [|x a IH]; intros [|y b] Hab Hba; simpl in *;
    try congruence.
  apply orb_true_iff in Hab. apply orb_true_iff in Hba.
  destruct Hab as [Hxy|Hxy]; destruct Hba as [Hyx|Hyx];
    rewrite ?N.ltb_lt, ?andb_true_iff, ?N.eqb_eq in *; try lia.
  destruct Hxy as [-> H1]. destruct Hyx as [_ H2].
  f_equal. exact (IH _ H1 H2).
Qed.

#[local] Instance str_le_antisym : AntiSymm (=) str_le.
Proof. intros a b. apply str_leb_antisym. Qed.

(** Every ascending rearrangement of a list is the one [sorted] returns:
    the model does not depend on the sorting algorithm. *)
Lemma sorted_unique (l l' : list str) :
  StronglySorted str_le l' -> Permutation l' l -> l' = sorted l.
Proof.
  intros Hs Hp. apply (StronglySorted_unique str_le); [exact Hs | apply sorted_sorted|].
  rewrite Hp. symmetry. apply sorted_perm.
Qed.


(** ** The directory listing has no repeated name *)






Lemma child_of_inv (dir : path) : forall (p : path) (name : str),
  child_of dir p = Some name -> exists rest, p = dir ++ name :: rest.
Proof.
  induction dir as [|d dir IH]; intros p name H.
  - destruct p as [|c p']; simpl in H; [discriminate|].
    injection H as ->. exists p'. reflexivity.
  - destruct p as [|c p']; simpl in H; [discriminate|].
    destruct (decide (d = c)) as [->|]; [|discriminate].
    destruct (IH _ _ H) as [rest ->]. exists rest. reflexivity.
Qed.

Lemma child_of_below (dir : path) (name : str) (rest : path) :
  child_of dir (dir ++ name :: rest) = Some name.
Proof.
  induction dir as [|d dir IH]; simpl; [reflexivity|].
  destruct (decide (d = d)); [exact IH | congruence].
Qed.

(** The listing of a directory: a name is listed when a file or a
    directory lies at it or below it. *)
Lemma elem_of_listing (dir : path) (w : world) (name : str) :
  name ∈ listing dir w
  <-> exists rest, is_Some (fs w !! (dir ++ name :: rest))
                   \/ dir ++ name :: rest ∈ dirs w.
Proof.
  unfold listing. rewrite elem_of_elements, elem_of_list_to_set, list_elem_of_omap.
  split.
  - intros (p & Hin & Hchild). apply child_of_inv in Hchild.
    destruct Hchild as [rest ->]. exists rest.
    apply elem_of_app in Hin. destruct Hin as [Hin|Hin].
    + left. apply list_elem_of_fmap in Hin. destruct Hin as ([q f] & Hq & Hin).
      simpl in Hq. subst q. apply elem_of_map_to_list in Hin. eauto.
    + right. apply elem_of_elements in Hin. exact Hin.
  - intros (rest & [[f Hf]|Hd]); exists (dir ++ name :: rest);
      (split; [|apply child_of_below]); apply elem_of_app.
    + left. apply list_elem_of_fmap. exists (dir ++ name :: rest, f).
      split; [reflexivity|]. apply elem_of_map_to_list. exact Hf.
    + right. apply elem_of_elements. exact Hd.
Qed.

(** Two worlds in which the same names lie in a directory list it alike. *)
Lemma listing_same (dir : path) (w w' : world) :
  (forall name, name ∈ listing dir w' <-> name ∈ listing dir w) ->
  listing dir w' = listing dir w.
Proof.
  unfold listing. intros H. f_equal. apply set_eq. intros name.
  specialize (H name). rewrite !elem_of_elements in H. exact H.
Qed.

Lemma elem_of_ancestors (p q : path) : q ∈ ancestors p -> q `prefix_of` p.
Proof.
  unfold ancestors. rewrite elem_of_list_to_set, list_elem_of_fmap.
  intros (n & -> & _). exists (drop (S n) p). symmetry. apply take_drop.
Qed.

Lemma NoDup_listing (dir : path) (w : world) : NoDup (listing dir w).
Proof. apply NoDup_elements. Qed.

Lemma NoDup_pdf_queue (input_dir : path) (w : world) : NoDup (pdf_queue input_dir w).
Proof.
  unfold pdf_queue. apply NoDup_ListNoDup, List.NoDup_filter.
  apply (Permutation_NoDup (Permutation_sym (sorted_perm _))).
  apply NoDup_ListNoDup, NoDup_listing.
Qed.



(** ** Relations preserved by the pipeline *)

Lemma preserves_ret {A} (R : world -> world -> Prop) `{!Reflexive R} (a : A) :
  preserves R (ret a).
Proof. intros w. simpl. reflexivity. Qed.

Lemma preserves_raise {A} (R : world -> world -> Prop) `{!Reflexive R} (e : exn) :
  preserves R (@raise A e).
Proof. intros w. simpl. reflexivity. Qed.

Lemma preserves_bind {A B} (R : world -> world -> Prop) `{!Transitive R}
    (m : M A) (k : A -> M B) :
  preserves R m -> (forall a, preserves R (k a)) -> preserves R (bind m k).
Proof.
  intros Hm Hk w. specialize (Hm w). unfold bind.
  destruct (m w) as [[a|e] w1]; simpl in *; [|exact Hm].
  transitivity w1; [exact Hm | apply Hk].
Qed.

Lemma preserves_try {A} (R : world -> world -> Prop) `{!Transitive R}
    (m : M A) (h : exn -> M A) :
  preserves R m -> (forall e, preserves R (h e)) -> preserves R (try_except m h).
Proof.
  intros Hm Hh w. specialize (Hm w). unfold try_except.
  destruct (m w) as [[a|e] w1]; simpl in *; [exact Hm|].
  transitivity w1; [exact Hm | apply Hh].
Qed.

#[local] Instance frame_refl (S : path -> Prop) : Reflexive (frame S).
Proof. intros w q _. reflexivity. Qed.

#[local] Instance frame_trans (S : path -> Prop) : Transitive (frame S).
Proof. intros w1 w2 w3 H12 H23 q Hq. rewrite (H23 q Hq). exact (H12 q Hq). Qed.

#[local] Instance prints_refl (P : event -> Prop) : Reflexive (prints P).
Proof. intros w. exists []. rewrite app_nil_r. split; [reflexivity | constructor]. Qed.

#[local] Instance prints_trans (P : event -> Prop) : Transitive (prints P).
Proof.
  intros w1 w2 w3 (o1 & H1 & F1) (o2 & H2 & F2). exists (o1 ++ o2).
  rewrite H2, H1, app_assoc. split; [reflexivity | apply Forall_app; auto].
Qed.

#[local] Instance engine_reused_refl (r : engine) : Reflexive (engine_reused r).
Proof.
  intros w. repeat split. exists []. rewrite app_nil_r.
  split; [reflexivity | constructor].
Qed.

#[local] Instance engine_reused_trans (r : engine) : Transitive (engine_reused r).
Proof.
  intros w1 w2 w3 (A1 & B1 & c1 & C1 & F1) (A2 & B2 & c2 & C2 & F2).
  split; [congruence|]. split; [congruence|].
  exists (c1 ++ c2). rewrite C2, C1, app_assoc.
  split; [reflexivity | apply Forall_app; auto].
Qed.

(** A computation that leaves the file system alone preserves every
    frame; likewise for the other relations. *)
Lemma frame_of_fs_eq (S : path -> Prop) (w w' : world) : fs w' = fs w -> frame S w w'.
Proof. intros H q _. rewrite H. reflexivity. Qed.

Lemma prints_of_stdout_eq (P : event -> Prop) (w w' : world) :
  stdout w' = stdout w -> prints P w w'.
Proof.
  intros H. exists []. rewrite app_nil_r. split; [exact H | constructor].
Qed.

Lemma engine_reused_of_eq (r : engine) (w w' : world) :
  reader_attempts w' = reader_attempts w -> readers w' = readers w ->
  ocr_calls w' = ocr_calls w -> engine_reused r w w'.
Proof.
  intros H1 H2 H3. split; [exact H1|]. split; [exact H2|].
  exists []. rewrite app_nil_r. split; [exact H3 | constructor].
Qed.

(** Unfolds a primitive at a world and splits on what it reads. *)
Ltac run_primitive :=
  intros ?w;
  unfold makedirs, isdir, listdir, fitz_open, open_w, write, read, print,
    subscript, shutil_move, shutil_copy, classifier, run_gs, readtext,
    easyocr_Reader, ret, raise, leave;
  repeat case_match; cbn [fst snd].

Ltac quiet_primitive :=
  run_primitive;
  first [ apply frame_of_fs_eq; reflexivity
        | apply prints_of_stdout_eq; reflexivity
        | apply engine_reused_of_eq; reflexivity ].

Section Primitives.

Variable E : env.
Variable R : world -> world -> Prop.
Hypothesis R_quiet :
  forall w w', fs w' = fs w -> stdout w' = stdout w ->
    reader_attempts w' = reader_attempts w -> readers w' = readers w ->
    ocr_calls w' = ocr_calls w -> R w w'.

Ltac quiet := run_primitive; apply R_quiet; reflexivity.

Lemma makedirs_quiet (p : path) : preserves R (makedirs p).
Proof. quiet. Qed.

Lemma isdir_quiet (p : path) : preserves R (isdir p).
Proof. quiet. Qed.

Lemma listdir_quiet (p : path) : preserves R (listdir p).
Proof. quiet. Qed.

Lemma fitz_open_quiet (p : path) : preserves R (fitz_open p).
Proof. quiet. Qed.

Lemma read_quiet (p : path) : preserves R (read p).
Proof. quiet. Qed.

Lemma subscript_quiet {A} (xs : list A) (i : nat) : preserves R (subscript xs i).
Proof. quiet. Qed.

Lemma classifier_quiet (text : str) (ls : list str) : preserves R (classifier E text ls).
Proof. quiet. Qed.

Lemma ret_quiet {A} (a : A) : preserves R (ret a).
Proof. quiet. Qed.

Lemma raise_quiet {A} (e : exn) : preserves R (@raise A e).
Proof. quiet. Qed.

End Primitives.

Lemma preserves_bind_val {A B} (R : world -> world -> Prop) `{!Transitive R}
    (V : A -> Prop) (m : M A) (k : A -> M B) :
  (forall w a w1, m w = (Return a, w1) -> V a) ->
  preserves R m -> (forall a, V a -> preserves R (k a)) -> preserves R (bind m k).
Proof.
  intros HV Hm Hk w. specialize (Hm w). unfold bind.
  destruct (m w) as [[a|e] w1] eqn:Hrun; simpl in *; [|exact Hm].
  transitivity w1; [exact Hm | apply Hk; eapply HV; exact Hrun].
Qed.

Lemma ghostscript_repair_value (E : env) (pdf_path repaired_dir : path)
    (w w1 : world) (p : path) :
  ghostscript_repair E pdf_path repaired_dir w = (Return p, w1) ->
  p = repaired_dir ++ [basename pdf_path].
Proof.
  unfold ghostscript_repair, bind, makedirs, raise, ret.
  destruct (probe E gs_candidates); [|discriminate].
  destruct (run_gs E _ _ _ _) as [[[]|e] w2]; [|discriminate].
  intros H. injection H as <- _. reflexivity.
Qed.

Lemma ocr_extract_value (E : env) (pdf_path ocr_dir : path) (reader : engine)
    (dpi : Z) (w w1 : world) (p : path) :
  ocr_extract E pdf_path ocr_dir reader dpi w = (Return p, w1) ->
  p = ocr_dir ++ [ocr_name (basename pdf_path)].
Proof.
  unfold ocr_extract, bind, makedirs, ret.
  destruct (fitz_open _ _) as [[doc|e] w2]; [|discriminate].
  destruct (open_w _ _) as [[[]|e] w3]; [|discriminate].
  destruct (ocr_pages _ _ _ _ _ _ _) as [[[]|e] w4]; [|discriminate].
  intros H. injection H as <- _. reflexivity.
Qed.

Lemma basename_join (dir : path) (name : str) : basename (dir ++ [name]) = name.
Proof. unfold basename. apply last_last. Qed.

(** The stages preserve every relation that their effectful primitives
    preserve. *)
Section Stages.

Variable E : env.
Variable R : world -> world -> Prop.
Context `{!Reflexive R, !Transitive R}.
Hypothesis R_quiet :
  forall w w', fs w' = fs w -> stdout w' = stdout w ->
    reader_attempts w' = reader_attempts w -> readers w' = readers w ->
    ocr_calls w' = ocr_calls w -> R w w'.

Lemma is_digital_preserves (p : path) : preserves R (is_digital p).
Proof.
  intros w. destruct (is_digital_pure p w) as [b Hb]. rewrite Hb. reflexivity.
Qed.

Lemma classify_text_preserves (text : str) :
  (forall l s, preserves R (print (MsgClassified l s))) ->
  preserves R (classify_text E text).
Proof.
  intros Hprint. unfold classify_text.
  destruct (negb (truthy (strip text))); [apply preserves_ret; exact _|].
  apply preserves_bind; [exact _ | apply classifier_quiet; exact R_quiet |].
  intros result. apply preserves_bind;
    [exact _ | apply subscript_quiet; exact R_quiet |].
  intros label. apply preserves_bind;
    [exact _ | apply subscript_quiet; exact R_quiet |].
  intros score. apply preserves_bind; [exact _ | apply Hprint |].
  intros _. apply preserves_ret; exact _.
Qed.

Lemma ghostscript_repair_preserves (pdf_path repaired_dir : path) :
  (forall gs, preserves R (run_gs E gs (repaired_dir ++ [basename pdf_path]) pdf_path)) ->
  preserves R (ghostscript_repair E pdf_path repaired_dir).
Proof.
  intros Hgs. unfold ghostscript_repair.
  apply preserves_bind; [exact _ | apply makedirs_quiet; exact R_quiet |].
  intros _. destruct (probe E gs_candidates) as [gs|];
    [|apply preserves_raise; exact _].
  apply preserves_bind; [exact _ | apply Hgs |].
  intros _. apply preserves_ret; exact _.
Qed.

Lemma ocr_pages_preserves (txt_path : path) (reader : engine) (dpi : Z)
    (pages : list page) :
  (forall pix, preserves R (readtext E reader pix)) ->
  (forall data, preserves R (write txt_path data)) ->
  forall page_num, preserves R (ocr_pages E txt_path reader dpi pages page_num).
Proof.
  intros Hread Hwrite.
  induction pages as [|pg pages IH]; intros page_num.
  - apply preserves_ret; exact _.
  - rewrite ocr_pages_cons.
    apply preserves_bind; [exact _ | apply Hread |]. intros ocr_result.
    apply preserves_bind; [exact _ | apply Hwrite |]. intros _.
    apply preserves_bind; [exact _ | apply Hwrite |]. intros _.
    apply preserves_bind; [exact _ | apply Hwrite |]. intros _.
    apply IH.
Qed.

Lemma ocr_extract_preserves (pdf_path ocr_dir : path) (reader : engine) (dpi : Z) :
  let txt_path := ocr_dir ++ [ocr_name (basename pdf_path)] in
  (forall pix, preserves R (readtext E reader pix)) ->
  preserves R (open_w txt_path) ->
  (forall data, preserves R (write txt_path data)) ->
  preserves R (ocr_extract E pdf_path ocr_dir reader dpi).
Proof.
  intros txt_path Hread Hopen Hwrite. unfold ocr_extract.
  apply preserves_bind; [exact _ | apply makedirs_quiet; exact R_quiet |].
  intros _. apply preserves_bind; [exact _ | apply fitz_open_quiet; exact R_quiet |].
  intros doc. apply preserves_bind; [exact _ | exact Hopen |].
  intros _. apply preserves_bind;
    [exact _ | apply ocr_pages_preserves; [exact Hread | exact Hwrite] |].
  intros _. apply preserves_ret; exact _.
Qed.

Lemma repair_and_file_preserves (pdf_path repaired_dir : path) :
  let name := basename pdf_path in
  let repaired_path := repaired_dir ++ [name] in
  (forall l s, preserves R (print (MsgClassified l s))) ->
  (forall gs, preserves R (run_gs E gs repaired_path pdf_path)) ->
  (forall label, preserves R (shutil_move E repaired_path (repaired_dir ++ [label; name]))) ->
  preserves R (repair_and_file E pdf_path repaired_dir).
Proof.
  intros name repaired_path HpC Hgs HmvR. unfold repair_and_file.
  apply (preserves_bind_val R (fun p => p = repaired_path));
    [intros w0 a w1 Hrun; exact (ghostscript_repair_value _ _ _ _ _ _ Hrun)
    | apply ghostscript_repair_preserves; exact Hgs |].
  intros p ->.
  apply preserves_bind; [exact _ | apply fitz_open_quiet; exact R_quiet |].
  intros doc.
  apply preserves_bind; [exact _ | apply classify_text_preserves; exact HpC |].
  intros label.
  apply preserves_bind; [exact _ | apply makedirs_quiet; exact R_quiet |].
  intros _. unfold path_join, repaired_path. rewrite basename_join.
  rewrite <- app_assoc. apply HmvR.
Qed.

Lemma extract_and_file_preserves (pdf_path ocr_dir : path) (reader : option engine) :
  let name := basename pdf_path in
  let txt_path := ocr_dir ++ [ocr_name name] in
  (forall l s, preserves R (print (MsgClassified l s))) ->
  (reader = None -> preserves R (easyocr_Reader E [lit "hi"; lit "en"] true)) ->
  (forall r pix, match reader with Some r0 => r = r0 | None => True end ->
                 preserves R (readtext E r pix)) ->
  preserves R (open_w txt_path) ->
  (forall data, preserves R (write txt_path data)) ->
  (forall label, preserves R (shutil_move E txt_path (ocr_dir ++ [label; ocr_name name]))) ->
  preserves R (extract_and_file E pdf_path ocr_dir reader).
Proof.
  intros name txt_path HpC Hctor Hread Hopen Hwrite HmvO. unfold extract_and_file.
  apply (preserves_bind_val R
           (fun r => match reader with Some r0 => r = r0 | None => True end)).
  - intros w r w1. destruct reader as [r0|]; [|trivial].
    unfold ret. intros H. injection H as <- _. reflexivity.
  - destruct reader as [r0|]; [apply preserves_ret; exact _ | apply Hctor; reflexivity].
  - intros r Hr.
    apply (preserves_bind_val R (fun p => p = txt_path));
      [intros w0 a w1 Hrun; exact (ocr_extract_value _ _ _ _ _ _ _ _ Hrun)
      | apply ocr_extract_preserves;
          [intros pix; apply Hread; exact Hr | exact Hopen | exact Hwrite] |].
    intros p ->.
    apply preserves_bind; [exact _ | apply read_quiet; exact R_quiet |].
    intros text_content.
    apply preserves_bind; [exact _ | apply classify_text_preserves; exact HpC |].
    intros label.
    apply preserves_bind; [exact _ | apply makedirs_quiet; exact R_quiet |].
    intros _. unfold path_join, txt_path. rewrite basename_join.
    rewrite <- app_assoc. apply HmvO.
Qed.

Lemma quarantine_preserves (pdf_path : path) (error_dir : option path) (e : exn) :
  preserves R (print (MsgError (basename pdf_path) e)) ->
  (forall dir, error_dir = Some dir ->
     preserves R (shutil_copy E pdf_path (dir ++ [basename pdf_path]))) ->
  preserves R (quarantine E pdf_path error_dir e).
Proof.
  intros Hprint Hcopy. unfold quarantine.
  apply preserves_bind; [exact _ | exact Hprint |]. intros _.
  destruct error_dir as [dir|]; [|apply preserves_ret; exact _].
  destruct (truthy dir); [|apply preserves_ret; exact _].
  apply preserves_bind; [exact _ | apply makedirs_quiet; exact R_quiet |].
  intros _. apply preserves_try; [exact _ | apply Hcopy; reflexivity |].
  intros _. apply preserves_ret; exact _.
Qed.

End Stages.

(** ** One document *)

Section OneDocument.

Variable E : env.
Variables (repaired_dir ocr_dir : path) (error_dir : option path).

Lemma quarantine_returns (pdf_path : path) (e : exn) (w : world) :
  exists w', quarantine E pdf_path error_dir e w = (Return tt, w').
Proof.
  unfold quarantine, bind, print, makedirs, try_except, ret.
  destruct error_dir as [dir|]; [|eexists; reflexivity].
  destruct (truthy dir); [|eexists; reflexivity].
  destruct (shutil_copy E _ _ _) as [[[]|e'] w1]; eexists; reflexivity.
Qed.

(** [process_pdf] prints its dispatch line and then runs one of the two
    branches under the guard. *)
Lemma process_pdf_run (pdf_path : path) (reader : option engine) (w : world) :
  exists (ev : event) (branch : M unit),
    (ev = MsgDigital (basename pdf_path)
       /\ branch = repair_and_file E pdf_path repaired_dir
       /\ is_digital pdf_path w = (Return true, w)
     \/ ev = MsgScanned (basename pdf_path)
       /\ branch = extract_and_file E pdf_path ocr_dir reader
       /\ is_digital pdf_path w = (Return false, w))
    /\ process_pdf E pdf_path repaired_dir ocr_dir error_dir reader w
       = try_except branch (quarantine E pdf_path error_dir) (add_stdout ev w).
Proof.
  destruct (is_digital_pure pdf_path w) as [[|] Hb].
  - exists (MsgDigital (basename pdf_path)), (repair_and_file E pdf_path repaired_dir).
    split; [left; auto|].
    unfold process_pdf, process_body, try_except, bind at 1. rewrite Hb. reflexivity.
  - exists (MsgScanned (basename pdf_path)),
      (extract_and_file E pdf_path ocr_dir reader).
    split; [right; auto|].
    unfold process_pdf, process_body, try_except, bind at 1. rewrite Hb. reflexivity.
Qed.

(** The guard catches everything: [process_pdf] always returns. *)
Lemma process_pdf_returns (pdf_path : path) (reader : option engine) (w : world) :
  exists w', process_pdf E pdf_path repaired_dir ocr_dir error_dir reader w = (Return tt, w').
Proof.
  destruct (process_pdf_run pdf_path reader w) as (ev & branch & _ & ->).
  unfold try_except.
  destruct (branch (add_stdout ev w)) as [[[]|e] w1]; [eexists; reflexivity|].
  apply quarantine_returns.
Qed.

(** Any relation preserved by the dispatch line, the two branches and the
    handler is preserved by [process_pdf]. *)
Lemma process_pdf_preserves (R : world -> world -> Prop) `{!Transitive R}
    (pdf_path : path) (reader : option engine) :
  preserves R (print (MsgDigital (basename pdf_path))) ->
  preserves R (print (MsgScanned (basename pdf_path))) ->
  preserves R (repair_and_file E pdf_path repaired_dir) ->
  preserves R (extract_and_file E pdf_path ocr_dir reader) ->
  (forall e, preserves R (quarantine E pdf_path error_dir e)) ->
  preserves R (process_pdf E pdf_path repaired_dir ocr_dir error_dir reader).
Proof.
  intros HpD HpS HD HS HQ w.
  destruct (process_pdf_run pdf_path reader w)
    as (ev & branch & [(-> & -> & _)|(-> & -> & _)] & ->).
  - transitivity (add_stdout (MsgDigital (basename pdf_path)) w); [apply HpD|].
    apply preserves_try; [exact _ | exact HD | exact HQ].
  - transitivity (add_stdout (MsgScanned (basename pdf_path)) w); [apply HpS|].
    apply preserves_try; [exact _ | exact HS | exact HQ].
Qed.

End OneDocument.

Lemma frame_quiet (S : path -> Prop) (w w' : world) :
  fs w' = fs w -> stdout w' = stdout w ->
  reader_attempts w' = reader_attempts w -> readers w' = readers w ->
  ocr_calls w' = ocr_calls w -> frame S w w'.
Proof. intros H _ _ _ _. apply frame_of_fs_eq. exact H. Qed.

Lemma prints_quiet (P : event -> Prop) (w w' : world) :
  fs w' = fs w -> stdout w' = stdout w ->
  reader_attempts w' = reader_attempts w -> readers w' = readers w ->
  ocr_calls w' = ocr_calls w -> prints P w w'.
Proof. intros _ H _ _ _. apply prints_of_stdout_eq. exact H. Qed.


(** *** What a document prints *)

Section DocumentOutput.

Variable E : env.
Variables (repaired_dir ocr_dir : path) (error_dir : option path).

Lemma print_prints (P : event -> Prop) (ev : event) :
  P ev -> preserves (prints P) (print ev).
Proof.
  intros Hev w. exists [ev]. split; [reflexivity|].
  constructor; [exact Hev | constructor].
Qed.

Lemma branches_print_reports (pdf_path : path) (reader : option engine) :
  let P := report_of (basename pdf_path) in
  preserves (prints P) (repair_and_file E pdf_path repaired_dir)
  /\ preserves (prints P) (extract_and_file E pdf_path ocr_dir reader)
  /\ forall e, preserves (prints P) (quarantine E pdf_path error_dir e).
Proof.
  intros P. split; [|split].
  - apply repair_and_file_preserves; try exact _; try apply prints_quiet.
    + intros l s. apply print_prints. exact I.
    + intros gs. quiet_primitive.
    + intros label. quiet_primitive.
  - apply extract_and_file_preserves; try exact _; try apply prints_quiet.
    + intros l s. apply print_prints. exact I.
    + intros _. quiet_primitive.
    + intros r pix _. quiet_primitive.
    + quiet_primitive.
    + intros data. quiet_primitive.
    + intros label. quiet_primitive.
  - intros e. apply quarantine_preserves; try exact _; try apply prints_quiet.
    + apply print_prints. reflexivity.
    + intros dir _. quiet_primitive.
Qed.

(** A document prints its dispatch line once, then only its own
    reports. *)
Lemma process_pdf_stdout (pdf_path : path) (reader : option engine) (w : world) :
  exists (w' : world) (ev : event) (out : list event),
    process_pdf E pdf_path repaired_dir ocr_dir error_dir reader w = (Return tt, w')
    /\ stdout w' = stdout w ++ ev :: out
    /\ (ev = MsgDigital (basename pdf_path) \/ ev = MsgScanned (basename pdf_path))
    /\ Forall (report_of (basename pdf_path)) out.
Proof.
  destruct (process_pdf_returns E repaired_dir ocr_dir error_dir pdf_path reader w)
    as [w' Hret].
  destruct (process_pdf_run E repaired_dir ocr_dir error_dir pdf_path reader w)
    as (ev & branch & Hcase & Hrun).
  destruct (branches_print_reports pdf_path reader) as (HD & HS & HQ).
  assert (Hp : preserves (prints (report_of (basename pdf_path)))
                 (try_except branch (quarantine E pdf_path error_dir))).
  { apply preserves_try; [exact _ | | exact HQ].
    destruct Hcase as [(_ & -> & _)|(_ & -> & _)]; assumption. }
  specialize (Hp (add_stdout ev w)). rewrite <- Hrun, Hret in Hp.
  destruct Hp as (out & Hout & Hall). simpl in Hout.
  exists w', ev, out. split; [exact Hret|]. split.
  - rewrite Hout, <- app_assoc. reflexivity.
  - split; [|exact Hall]. destruct Hcase as [(-> & _)|(-> & _)]; auto.
Qed.

End DocumentOutput.

Lemma dispatched_app (o1 o2 : list event) :
  dispatched (o1 ++ o2) = dispatched o1 ++ dispatched o2.
Proof. unfold dispatched. apply omap_app. Qed.

Lemma errored_app (o1 o2 : list event) : errored (o1 ++ o2) = errored o1 ++ errored o2.
Proof. unfold errored. apply omap_app. Qed.

Lemma dispatched_reports (name : str) (out : list event) :
  Forall (report_of name) out -> dispatched out = [].
Proof.
  induction 1 as [|ev out Hev _ IH]; [reflexivity|].
  destruct ev; simpl in *; try contradiction; exact IH.
Qed.

Lemma errored_reports (name : str) (out : list event) :
  Forall (report_of name) out -> forall n, In n (errored out) -> n = name.
Proof.
  induction 1 as [|ev out Hev _ IH]; intros n Hn; [destruct Hn|].
  destruct ev; simpl in *; try contradiction; try (apply IH; exact Hn).
  destruct Hn as [<-|Hn]; [exact Hev | apply IH; exact Hn].
Qed.

(** *** What a document writes *)

Section DocumentFrame.

Variable E : env.
Variables (repaired_dir ocr_dir : path) (error_dir : option path).

Ltac frame_primitive :=
  run_primitive;
  try (apply frame_of_fs_eq; reflexivity);
  intros q Hq; unfold set_fs; cbn [fs];
  repeat first
    [ rewrite lookup_insert_ne by (intros <-; apply Hq; assumption)
    | rewrite lookup_delete_ne by (intros <-; apply Hq; assumption) ];
  reflexivity.

Lemma open_w_frame (S : path -> Prop) (p : path) :
  S p -> preserves (frame S) (open_w p).
Proof. intros Hp. frame_primitive. Qed.

Lemma write_frame (S : path -> Prop) (p : path) (data : str) :
  S p -> preserves (frame S) (write p data).
Proof. intros Hp. frame_primitive. Qed.

Lemma run_gs_frame (S : path -> Prop) (gs : str) (out_path pdf_path : path) :
  S out_path -> preserves (frame S) (run_gs E gs out_path pdf_path).
Proof. intros Hp. frame_primitive. Qed.

Lemma shutil_move_frame (S : path -> Prop) (src dst : path) :
  S src -> S dst -> preserves (frame S) (shutil_move E src dst).
Proof. intros Hs Hd. frame_primitive. Qed.

Lemma shutil_copy_frame (S : path -> Prop) (src dst : path) :
  S dst -> preserves (frame S) (shutil_copy E src dst).
Proof. intros Hd. frame_primitive. Qed.

(** The two branches change the file system at the intermediate paths and
    the label paths of the document only, whatever fails. *)
Lemma branches_frame (S : path -> Prop) (pdf_path : path) (reader : option engine) :
  S (repaired_dir ++ [basename pdf_path]) ->
  (forall l, S (repaired_dir ++ [l; basename pdf_path])) ->
  S (ocr_dir ++ [ocr_name (basename pdf_path)]) ->
  (forall l, S (ocr_dir ++ [l; ocr_name (basename pdf_path)])) ->
  preserves (frame S) (repair_and_file E pdf_path repaired_dir)
  /\ preserves (frame S) (extract_and_file E pdf_path ocr_dir reader).
Proof.
  intros S1 S2 S3 S4. split.
  - apply repair_and_file_preserves; try exact _; try apply frame_quiet.
    + intros l s. quiet_primitive.
    + intros gs. apply run_gs_frame. exact S1.
    + intros label. apply shutil_move_frame; [exact S1 | apply S2].
  - apply extract_and_file_preserves; try exact _; try apply frame_quiet.
    + intros l s. quiet_primitive.
    + intros _. quiet_primitive.
    + intros r pix _. quiet_primitive.
    + apply open_w_frame. exact S3.
    + intros data. apply write_frame. exact S3.
    + intros label. apply shutil_move_frame; [exact S3 | apply S4].
Qed.

(** Processing a document changes the file system inside the document's
    footprint only. *)
Lemma process_pdf_frame (pdf_path : path) (reader : option engine) :
  preserves (frame (footprint repaired_dir ocr_dir error_dir (basename pdf_path)))
    (process_pdf E pdf_path repaired_dir ocr_dir error_dir reader).
Proof.
  set (S := footprint repaired_dir ocr_dir error_dir (basename pdf_path)).
  assert (S1 : S (repaired_dir ++ [basename pdf_path])) by (left; reflexivity).
  assert (S2 : forall l, S (repaired_dir ++ [l; basename pdf_path]))
    by (intros l; right; left; eauto).
  assert (S3 : S (ocr_dir ++ [ocr_name (basename pdf_path)]))
    by (right; right; left; reflexivity).
  assert (S4 : forall l, S (ocr_dir ++ [l; ocr_name (basename pdf_path)]))
    by (intros l; right; right; right; left; eauto).
  destruct (branches_frame S pdf_path reader S1 S2 S3 S4) as [HD HS].
  apply process_pdf_preserves; try exact _.
  - quiet_primitive.
  - quiet_primitive.
  - exact HD.
  - exact HS.
  - intros e. apply quarantine_preserves; try exact _; try apply frame_quiet.
    + quiet_primitive.
    + intros dir Hdir. apply shutil_copy_frame.
      right; right; right; right. eauto.
Qed.

End DocumentFrame.

(** *** Which engine a document uses *)

Section DocumentEngine.

Variable E : env.
Variables (repaired_dir ocr_dir : path) (error_dir : option path).



End DocumentEngine.

(** ** The batch *)

Section Batch.

Variable E : env.
Variables (input_dir repaired_dir ocr_dir : path) (error_dir : option path).
Variable limit : option Z.

Lemma under_cap_stop (l count : Z) (queue : list str) :
  (count >=? l)%Z = true -> under_cap (Some l) count queue = [].
Proof.
  intros H. rewrite Z.geb_leb in H. apply Z.leb_le in H. unfold under_cap.
  replace (Z.to_nat (l - count)) with 0 by lia. reflexivity.
Qed.

Lemma under_cap_go (count : Z) (name : str) (queue : list str) :
  match limit with Some l => (count >=? l)%Z | None => false end = false ->
  under_cap limit count (name :: queue) = name :: under_cap limit (count + 1) queue.
Proof.
  unfold under_cap. destruct limit as [l|]; [|reflexivity].
  intros H. rewrite Z.geb_leb in H. apply Z.leb_gt in H.
  replace (Z.to_nat (l - count)) with (S (Z.to_nat (l - (count + 1)))) by lia.
  reflexivity.
Qed.

(** The loop dispatches the part of the queue under the cap, one document
    after the other, and counts each of them; an invariant that every
    dispatch maintains holds at the end. *)
Lemma main_loop_inv (reader : option engine) (files : list str) :
  forall (I : list str -> world -> Prop) (count : Z) (w : world),
    let queue := under_cap limit count (List.filter is_pdf_name files) in
    I [] w ->
    (forall done name rest w1,
        queue = done ++ name :: rest -> I done w1 ->
        I (done ++ [name])
          (snd (process_pdf E (path_join input_dir name) repaired_dir ocr_dir
                  error_dir reader w1))) ->
    exists w',
      main_loop E input_dir repaired_dir ocr_dir error_dir limit reader files count w
      = (Return (count + Z.of_nat (length queue))%Z, w')
      /\ I queue w'.
Proof.
  induction files as [|filename files IH]; intros I count w queue H0 Hstep.
  - exists w. subst queue. unfold under_cap. simpl.
    destruct limit; rewrite ?take_nil; simpl; rewrite Z.add_0_r; auto.
  - cbn [main_loop]. subst queue.
    destruct (is_pdf_name filename) eqn:Hpdf; cbn [negb].
    + assert (Hf : List.filter is_pdf_name (filename :: files)
                   = filename :: List.filter is_pdf_name files)
        by (simpl; rewrite Hpdf; reflexivity).
      rewrite Hf in *. clear Hf.
      destruct (match limit with Some l => (count >=? l)%Z | None => false end)
        eqn:Hcap.
      * destruct limit as [l|]; [|discriminate].
        rewrite (under_cap_stop _ _ _ Hcap) in *. exists w.
        simpl. rewrite Z.add_0_r. auto.
      * rewrite (under_cap_go _ _ _ Hcap) in *.
        destruct (process_pdf_returns E repaired_dir ocr_dir error_dir
                    (path_join input_dir filename) reader w) as [w1 Hw1].
        rewrite (bind_Return _ _ _ _ _ Hw1).
        destruct (IH (fun done => I (filename :: done)) (count + 1)%Z w1)
          as (w' & Hrun & HI).
        { specialize (Hstep [] filename _ w eq_refl H0).
          rewrite Hw1 in Hstep. exact Hstep. }
        { intros done name rest w2 Hq HI2.
          apply (Hstep (filename :: done) name rest w2); [|exact HI2].
          rewrite Hq. reflexivity. }
        exists w'. split; [|exact HI].
        rewrite Hrun. f_equal. f_equal. simpl length. lia.
    + assert (Hf : List.filter is_pdf_name (filename :: files)
                   = List.filter is_pdf_name files)
        by (simpl; rewrite Hpdf; reflexivity).
      rewrite Hf in *. apply IH; assumption.
Qed.

Lemma arranged_fs (w : world) : fs (arranged repaired_dir ocr_dir error_dir w) = fs w.
Proof.
  unfold arranged. destruct error_dir as [dir|]; [destruct (truthy dir)|]; reflexivity.
Qed.

(** What [main] does before and after the loop: it makes the output
    roots, constructs the engine and lists the input directory as the roots
    just made leave it. *)
Lemma main_run (w : world) :
  input_dir ∈ dirs w ->
  let wa := arranged repaired_dir ocr_dir error_dir w in
  exists w0,
    fs w0 = fs w /\ dirs w0 = dirs wa /\ stdout w0 = stdout w
    /\ model_calls w0 = model_calls w /\ ocr_calls w0 = ocr_calls w
    /\ reader_attempts w0 = S (reader_attempts w)
    /\ readers w0 = readers w ++ match boot_engine E w with
                                 | Some r => [r]
                                 | None => []
                                 end
    /\ forall count w1,
         main_loop E input_dir repaired_dir ocr_dir error_dir limit (boot_engine E w)
           (sorted (listing input_dir wa)) 0 w0 = (Return count, w1) ->
         main E input_dir repaired_dir ocr_dir error_dir limit w
         = (Return count, add_stdout MsgCompleted w1).
Proof.
  intros Hdir wa. unfold main, boot_engine.
  unfold bind at 1. unfold isdir. rewrite (bool_decide_eq_true_2 _ Hdir). cbn [negb].
  unfold bind at 1. unfold makedirs at 1.
  unfold bind at 1. unfold makedirs at 1.
  set (wd := add_dirs _ (add_dirs _ w)).
  assert (Hrun : match error_dir with
                 | Some dir => if truthy dir then makedirs dir else ret tt
                 | None => ret tt
                 end wd = (Return tt, wa)).
  { subst wa wd. unfold arranged.
    destruct error_dir as [dir|]; [destruct (truthy dir)|]; reflexivity. }
  assert (Hsame : fs wa = fs w /\ stdout wa = stdout w /\ model_calls wa = model_calls w
                  /\ ocr_calls wa = ocr_calls w /\ reader_attempts wa = reader_attempts w
                  /\ readers wa = readers w).
  { subst wa. unfold arranged.
    destruct error_dir as [dir|]; [destruct (truthy dir)|]; repeat split. }
  destruct Hsame as (Hfs & Hout & Hmc & Hoc & Hra & Hrd).
  unfold bind at 1. rewrite Hrun.
  unfold bind at 1. unfold try_except, bind at 1, easyocr_Reader, ret.
  rewrite Hra.
  destruct (reader_boot E (reader_attempts w)) eqn:Hboot.
  - exists (add_reader (Some (Engine (reader_attempts w))) wa).
    split; [exact Hfs|]. split; [reflexivity|].
    repeat (split; [simpl; congruence|]).
    intros count w1 Hloop.
    unfold bind at 1, listdir.
    change (listing input_dir (add_reader (Some (Engine (reader_attempts w))) wa))
      with (listing input_dir wa).
    unfold bind at 1. rewrite Hloop. reflexivity.
  - exists (add_reader None wa).
    split; [exact Hfs|]. split; [reflexivity|].
    repeat (split; [simpl; rewrite ?app_nil_r; congruence|]).
    intros count w1 Hloop.
    unfold bind at 1, listdir.
    change (listing input_dir (add_reader None wa)) with (listing input_dir wa).
    unfold bind at 1. rewrite Hloop. reflexivity.
Qed.

(** A batch run dispatches the queue under the cap and returns the number
    of documents dispatched; an invariant that holds when the loop starts
    and that every dispatch maintains holds when the loop is left.  The
    queue is the one [main] lists, the output roots being made. *)
Lemma batch_inv (I : list str -> world -> Prop) (w : world) :
  input_dir ∈ dirs w ->
  let wa := arranged repaired_dir ocr_dir error_dir w in
  let queue := under_cap limit 0 (pdf_queue input_dir wa) in
  (forall w0,
      fs w0 = fs w -> dirs w0 = dirs wa -> stdout w0 = stdout w ->
      model_calls w0 = model_calls w -> ocr_calls w0 = ocr_calls w ->
      reader_attempts w0 = S (reader_attempts w) ->
      readers w0 = readers w ++ match boot_engine E w with
                                | Some r => [r]
                                | None => []
                                end ->
      I [] w0) ->
  (forall done name rest w1,
      queue = done ++ name :: rest -> I done w1 ->
      I (done ++ [name])
        (snd (process_pdf E (path_join input_dir name) repaired_dir ocr_dir
                error_dir (boot_engine E w) w1))) ->
  exists w1,
    main E input_dir repaired_dir ocr_dir error_dir limit w
    = (Return (Z.of_nat (length queue)), add_stdout MsgCompleted w1)
    /\ I queue w1.
Proof.
  intros Hdir wa queue H0 Hstep.
  destruct (main_run w Hdir)
    as (w0 & Hfs & Hds & Hout & Hmc & Hoc & Hra & Hrd & Hmain).
  destruct (main_loop_inv (boot_engine E w) (sorted (listing input_dir wa))
              I 0 w0) as (w1 & Hloop & HI).
  - apply H0; assumption.
  - exact Hstep.
  - exists w1. split; [|exact HI]. apply Hmain. fold wa. rewrite Hloop. reflexivity.
Qed.

End Batch.

Section BatchTrace.

Variable E : env.
Variables (input_dir repaired_dir ocr_dir : path) (error_dir : option path).
Variable limit : option Z.


End BatchTrace.




Lemma layout_sample :
  layout_ok Sample.input_dir Sample.repaired_dir Sample.ocr_dir Sample.error_dir.
Proof.
  unfold layout_ok, separate.
  repeat split; apply (bool_decide_unpack _); vm_compute; exact I.
Qed.




Lemma printed_app (w w' : world) (out : list event) :
  stdout w' = stdout w ++ out -> printed w w' = out.
Proof. intros H. unfold printed. rewrite H. apply drop_app_length. Qed.






(** ** The two branches and the handler *)

Section Dispatch.

Variable E : env.

Lemma process_pdf_digital (pdf_path repaired_dir ocr_dir : path)
    (error_dir : option path) (reader : option engine) (w : world) :
  is_digital pdf_path w = (Return true, w) ->
  process_pdf E pdf_path repaired_dir ocr_dir error_dir reader w
  = try_except (repair_and_file E pdf_path repaired_dir)
      (quarantine E pdf_path error_dir)
      (add_stdout (MsgDigital (basename pdf_path)) w).
Proof.
  intros Hd. unfold process_pdf, process_body, try_except, bind at 1.
  rewrite Hd. reflexivity.
Qed.


(** What the handler does to the world. *)
Lemma quarantine_world (pdf_path : path) (error_dir : option path)
    (e : exn) (w : world) :
  let w' := snd (quarantine E pdf_path error_dir e w) in
  fs w' = quarantine_copy E pdf_path error_dir (fs w)
  /\ dirs w' = quarantine_dirs error_dir ∪ dirs w
  /\ stdout w' = stdout w ++ [MsgError (basename pdf_path) e]
  /\ model_calls w' = model_calls w /\ ocr_calls w' = ocr_calls w
  /\ reader_attempts w' = reader_attempts w /\ readers w' = readers w.
Proof.
  unfold quarantine, quarantine_copy, quarantine_dirs, bind, print, makedirs,
    try_except, shutil_copy, ret, path_join.
  destruct error_dir as [dir|]; [destruct (truthy dir)|];
    cbn [fs dirs add_stdout add_dirs].
  - destruct (fs w !! pdf_path) as [f|]; [|repeat split].
    destruct (copy_ok E pdf_path (dir ++ [basename pdf_path])); repeat split.
  - repeat split; try (destruct (fs w !! pdf_path); reflexivity);
      symmetry; apply (left_id_L ∅ (∪)).
  - repeat split; try (destruct (fs w !! pdf_path); reflexivity);
      symmetry; apply (left_id_L ∅ (∪)).
Qed.

End Dispatch.

(** ** The missing repair utility *)

Section MissingTool.

Variable E : env.
Hypothesis no_gs : probe E gs_candidates = None.



Lemma quarantine_stdout (pdf_path : path) (error_dir : option path) (e : exn)
    (w : world) :
  stdout (snd (quarantine E pdf_path error_dir e w))
  = stdout w ++ [MsgError (basename pdf_path) e].
Proof.
  unfold quarantine, bind, print, makedirs, try_except, ret.
  destruct error_dir as [dir|]; [|reflexivity].
  destruct (truthy dir); [|reflexivity].
  unfold shutil_copy. cbn [fs add_dirs add_stdout].
  destruct (fs w !! pdf_path) as [f|]; [destruct (copy_ok E _ _)|]; reflexivity.
Qed.


End MissingTool.




(** ** The recognition engine *)


#[local] Instance attempts_kept_refl : Reflexive attempts_kept.
Proof. intros w. reflexivity. Qed.

#[local] Instance attempts_kept_trans : Transitive attempts_kept.
Proof. intros w1 w2 w3 H12 H23. unfold attempts_kept in *. congruence. Qed.




Section Construction.

Variable E : env.
Variables (repaired_dir ocr_dir : path) (error_dir : option path).







End Construction.



(** ** The file system after one document *)

Lemma frame_none_eq (w w' : world) : frame (fun _ => False) w w' -> fs w' = fs w.
Proof. intros H. apply map_eq. intros q. apply H. tauto. Qed.

Lemma frame_weaken (S T : path -> Prop) (w w' : world) :
  (forall q, S q -> T q) -> frame S w w' -> frame T w w'.
Proof. intros Hst H q Hq. apply H. intros Hs. apply Hq, Hst, Hs. Qed.

Section Outcome.

Variable E : env.

Lemma classify_text_fs (text : str) (w : world) :
  fs (snd (classify_text E text w)) = fs w.
Proof.
  apply frame_none_eq.
  apply classify_text_preserves; try exact _; try apply frame_quiet.
  intros l s. quiet_primitive.
Qed.

Lemma ghostscript_repair_frame (pdf_path repaired_dir : path) :
  preserves (frame (fun q => q = repaired_dir ++ [basename pdf_path]))
    (ghostscript_repair E pdf_path repaired_dir).
Proof.
  apply ghostscript_repair_preserves; try exact _; try apply frame_quiet.
  intros gs. apply run_gs_frame. reflexivity.
Qed.

Lemma ghostscript_repair_file (pdf_path repaired_dir : path) (w w1 : world) (p : path) :
  ghostscript_repair E pdf_path repaired_dir w = (Return p, w1) ->
  exists pages,
    fs w1 = <[repaired_dir ++ [basename pdf_path] := Pdf pages]> (fs w).
Proof.
  unfold ghostscript_repair, bind, makedirs, raise, ret, run_gs, path_join.
  destruct (probe E gs_candidates) as [gs|]; [|discriminate].
  cbn [fs add_dirs].
  destruct (fs w !! pdf_path) as [source|]; [|discriminate].
  destruct (gs_rewrite E gs source) as [repaired|]; [|discriminate].
  intros H. injection H as _ <-. exists repaired. reflexivity.
Qed.

Lemma ocr_pages_fs (txt_path : path) (reader : engine) (dpi : Z) (pages : list page) :
  forall (page_num : Z) (w : world) (content : str),
    fs w !! txt_path = Some (Text content) ->
    exists content',
      fs (snd (ocr_pages E txt_path reader dpi pages page_num w))
      = <[txt_path := Text content']> (fs w).
Proof.
  induction pages as [|pg pages IH]; intros page_num w content Hfile.
  - exists content. simpl. symmetry. apply insert_id. exact Hfile.
  - rewrite ocr_pages_cons. unfold bind at 1. unfold readtext.
    destruct (recognise E reader (get_pixmap pg dpi)) as [fr|].
    + set (w1 := add_ocr_call _ w).
      assert (H1 : fs w1 !! txt_path = Some (Text content)) by exact Hfile.
      rewrite (bind_Return _ _ _ _ _ (write_text _ _ _ _ H1)).
      set (w2 := set_fs _ w1).
      assert (H2 : fs w2 !! txt_path
                   = Some (Text (content ++ lit "Page " ++ str_of_Z (page_num + 1)
                                   ++ lit ":" ++ [NL])))
        by apply lookup_insert_eq.
      rewrite (bind_Return _ _ _ _ _ (write_text _ _ _ _ H2)).
      set (w3 := set_fs _ w2).
      assert (H3 : fs w3 !! txt_path
                   = Some (Text ((content ++ lit "Page " ++ str_of_Z (page_num + 1)
                                    ++ lit ":" ++ [NL]) ++ join (lit " ") fr)))
        by apply lookup_insert_eq.
      rewrite (bind_Return _ _ _ _ _ (write_text _ _ _ _ H3)).
      set (w4 := set_fs _ w3).
      assert (H4 : fs w4 !! txt_path
                   = Some (Text (((content ++ lit "Page " ++ str_of_Z (page_num + 1)
                                     ++ lit ":" ++ [NL]) ++ join (lit " ") fr)
                                 ++ [NL] ++ str_mul (lit "-") 80 ++ [NL])))
        by apply lookup_insert_eq.
      destruct (IH (page_num + 1)%Z w4 _ H4) as [content' Hfs].
      exists content'. rewrite Hfs.
      subst w4 w3 w2 w1. unfold set_fs, add_ocr_call. cbn [fs].
      rewrite !insert_insert_eq. reflexivity.
    + exists content. simpl. symmetry. apply insert_id. exact Hfile.
Qed.

Lemma ocr_extract_frame (pdf_path ocr_dir : path) (reader : engine) (dpi : Z) :
  preserves (frame (fun q => q = ocr_dir ++ [ocr_name (basename pdf_path)]))
    (ocr_extract E pdf_path ocr_dir reader dpi).
Proof.
  apply ocr_extract_preserves; try exact _; try apply frame_quiet.
  - intros pix. quiet_primitive.
  - apply open_w_frame. reflexivity.
  - intros data. apply write_frame. reflexivity.
Qed.

Lemma ocr_extract_file (pdf_path ocr_dir : path) (reader : engine) (dpi : Z)
    (w w1 : world) (p : path) :
  ocr_extract E pdf_path ocr_dir reader dpi w = (Return p, w1) ->
  exists text,
    fs w1 = <[ocr_dir ++ [ocr_name (basename pdf_path)] := Text text]> (fs w).
Proof.
  unfold ocr_extract. fold (ocr_name (basename pdf_path)). unfold path_join.
  set (txt_path := ocr_dir ++ [ocr_name (basename pdf_path)]).
  unfold bind at 1. unfold makedirs. unfold bind at 1. unfold fitz_open.
  cbn [fs add_dirs].
  destruct (fs w !! pdf_path) as [[doc| |]|]; try discriminate.
  unfold bind at 1. unfold open_w.
  set (w2 := set_fs _ _).
  assert (H2 : fs w2 !! txt_path = Some (Text [])) by apply lookup_insert_eq.
  destruct (ocr_pages_fs txt_path reader dpi doc 0 w2 [] H2) as [text Hfs].
  unfold bind, ret.
  destruct (ocr_pages E txt_path reader dpi doc 0 w2) as [[[]|e] w3];
    [|discriminate].
  intros H. injection H as _ <-. exists text.
  simpl in Hfs. rewrite Hfs. subst w2. unfold set_fs, add_dirs. cbn [fs].
  apply insert_insert_eq.
Qed.

End Outcome.

Section BranchOutcome.

Variable E : env.

Lemma shutil_move_outcome (src dst : path) (f : file) (w : world) :
  fs w !! src = Some f ->
  match shutil_move E src dst w with
  | (Return _, w') => fs w' = <[dst := f]> (delete src (fs w))
  | (Raise _, w') =>
      move_ok E src dst = false
      /\ fs w' = leave dst (move_leaves E src dst f) (fs w)
  end.
Proof.
  intros H. unfold shutil_move. rewrite H.
  destruct (move_ok E src dst); [reflexivity | split; reflexivity].
Qed.

Lemma frame_insert_two (p q : path) (f g : file) (w w' : world) :
  fs w' = <[q := g]> (<[p := f]> (fs w)) ->
  frame (fun x => x = p \/ x = q) w w'.
Proof.
  intros H x Hx. rewrite H.
  rewrite !lookup_insert_ne; [reflexivity | |]; intros <-; apply Hx; auto.
Qed.

Lemma frame_insert_at (p : path) (f : file) (w w' : world) :
  fs w' = <[p := f]> (fs w) -> frame (fun q => q = p) w w'.
Proof.
  intros H q Hq. rewrite H. apply lookup_insert_ne. intros <-. apply Hq. reflexivity.
Qed.

(** The digital branch either files the repaired copy under a label
    directory, leaving nothing at the intermediate path, or raises having
    changed at most the intermediate path and, when it is the move that fails
    and leaves a file, the label path the move was writing. *)
Lemma repair_and_file_outcome (pdf_path repaired_dir ocr_dir : path) (w : world) :
  let name := basename pdf_path in
  let tmp := repaired_dir ++ [name] in
  match repair_and_file E pdf_path repaired_dir w with
  | (Return _, w') =>
      exists label pages,
        fs w' = <[repaired_dir ++ [label; name] := Pdf pages]>
                  (delete tmp (fs w))
  | (Raise _, w') =>
      frame (fun q => q = tmp) w w'
      \/ (move_left E repaired_dir ocr_dir name
          /\ exists label,
               frame (fun q => q = tmp \/ q = repaired_dir ++ [label; name]) w w')
  end.
Proof.
  intros name tmp. unfold repair_and_file.
  pose proof (ghostscript_repair_frame E pdf_path repaired_dir w) as Hfr.
  destruct (ghostscript_repair E pdf_path repaired_dir w) as [[p|e] w1] eqn:Hgs;
    [rewrite (bind_Return _ _ _ _ _ Hgs)
    | rewrite (bind_Raise _ _ _ _ _ Hgs); left; exact Hfr].
  pose proof (ghostscript_repair_value _ _ _ _ _ _ Hgs) as ->.
  destruct (ghostscript_repair_file _ _ _ _ _ _ Hgs) as [pages Hfs1].
  fold name tmp in Hfs1 |- *.
  assert (Htmp : fs w1 !! tmp = Some (Pdf pages))
    by (rewrite Hfs1; apply lookup_insert_eq).
  assert (Hopen : fitz_open tmp w1 = (Return pages, w1))
    by (unfold fitz_open; rewrite Htmp; reflexivity).
  rewrite (bind_Return _ _ _ _ _ Hopen).
  pose proof (classify_text_fs E (join [NL] (map get_text pages)) w1) as Hcfs.
  destruct (classify_text E (join [NL] (map get_text pages)) w1)
    as [[label|e] w2] eqn:Hc; simpl in Hcfs.
  - rewrite (bind_Return _ _ _ _ _ Hc). unfold bind at 1, makedirs.
    set (w3 := add_dirs _ w2).
    assert (H3 : fs w3 !! tmp = Some (Pdf pages)) by (simpl; rewrite Hcfs; exact Htmp).
    pose proof (shutil_move_outcome tmp
                  (path_join (path_join repaired_dir (replace_char 32 95 label))
                     (basename tmp)) _ w3 H3) as Hmv.
    assert (Hdst : path_join (path_join repaired_dir (replace_char 32 95 label))
                     (basename tmp)
                   = repaired_dir ++ [replace_char 32 95 label; name])
      by (unfold path_join, tmp; rewrite basename_join, <- app_assoc; reflexivity).
    rewrite Hdst in *.
    destruct (shutil_move E tmp _ w3) as [[[]|e] w4].
    + exists (replace_char 32 95 label), pages. rewrite Hmv.
      simpl fs. rewrite Hcfs, Hfs1. rewrite delete_insert_eq. reflexivity.
    + destruct Hmv as [Hok Hmv]. simpl fs in Hmv. rewrite Hcfs, Hfs1 in Hmv.
      destruct (move_leaves E tmp (repaired_dir ++ [replace_char 32 95 label; name])
                  (Pdf pages)) as [debris|] eqn:Hleft; simpl in Hmv.
      * right. split.
        { exists tmp, (repaired_dir ++ [replace_char 32 95 label; name]),
            (replace_char 32 95 label), (Pdf pages), debris.
          split; [left; split; reflexivity|]. split; assumption. }
        exists (replace_char 32 95 label).
        apply (frame_insert_two tmp _ (Pdf pages) debris). exact Hmv.
      * left. apply (frame_insert_at tmp (Pdf pages)). exact Hmv.
  - rewrite (bind_Raise _ _ _ _ _ Hc). left.
    apply (frame_insert_at tmp (Pdf pages)). rewrite Hcfs. exact Hfs1.
Qed.

(** The scanned branch either files the text under a label directory,
    leaving nothing at the intermediate path, or raises having changed at
    most the intermediate path and, when it is the move that fails and leaves
    a file, the label path the move was writing. *)
Lemma extract_and_file_outcome (pdf_path repaired_dir ocr_dir : path)
    (reader : option engine) (w : world) :
  let name := basename pdf_path in
  let txt := ocr_dir ++ [ocr_name name] in
  match extract_and_file E pdf_path ocr_dir reader w with
  | (Return _, w') =>
      exists label text,
        fs w' = <[ocr_dir ++ [label; ocr_name name] := Text text]>
                  (delete txt (fs w))
  | (Raise _, w') =>
      frame (fun q => q = txt) w w'
      \/ (move_left E repaired_dir ocr_dir name
          /\ exists label,
               frame (fun q => q = txt \/ q = ocr_dir ++ [label; ocr_name name]) w w')
  end.
Proof.
  intros name txt. unfold extract_and_file.
  assert (Hctor : exists (res : outcome engine) (w0 : world),
             match reader with
             | Some r => ret r
             | None => easyocr_Reader E [lit "hi"; lit "en"] true
             end w = (res, w0) /\ fs w0 = fs w).
  { destruct reader as [r|]; [eexists; eexists; split; reflexivity|].
    unfold easyocr_Reader. destruct (reader_boot E (reader_attempts w));
      eexists; eexists; split; reflexivity. }
  destruct Hctor as ([r|e] & w0 & Hrun0 & Hfs0);
    [rewrite (bind_Return _ _ _ _ _ Hrun0)
    | rewrite (bind_Raise _ _ _ _ _ Hrun0); left; apply frame_of_fs_eq; exact Hfs0].
  assert (Hback : forall (S : path -> Prop) w', frame S w0 w' -> frame S w w').
  { intros S w' H q Hq. rewrite (H q Hq), Hfs0. reflexivity. }
  pose proof (ocr_extract_frame E pdf_path ocr_dir r 200 w0) as Hfr.
  destruct (ocr_extract E pdf_path ocr_dir r 200 w0) as [[p|e] w1] eqn:Hocr;
    [rewrite (bind_Return _ _ _ _ _ Hocr)
    | rewrite (bind_Raise _ _ _ _ _ Hocr); left; apply Hback; exact Hfr].
  pose proof (ocr_extract_value _ _ _ _ _ _ _ _ Hocr) as ->.
  destruct (ocr_extract_file _ _ _ _ _ _ _ _ Hocr) as [text Hfs1].
  fold name txt in Hfs1 |- *.
  assert (Htxt : fs w1 !! txt = Some (Text text))
    by (rewrite Hfs1; apply lookup_insert_eq).
  assert (Hread : read txt w1 = (Return (universal text), w1))
    by (unfold read; rewrite Htxt; reflexivity).
  rewrite (bind_Return _ _ _ _ _ Hread).
  pose proof (classify_text_fs E (universal text) w1) as Hcfs.
  destruct (classify_text E (universal text) w1) as [[label|e] w2] eqn:Hc;
    simpl in Hcfs.
  - rewrite (bind_Return _ _ _ _ _ Hc). unfold bind at 1, makedirs.
    set (w3 := add_dirs _ w2).
    assert (H3 : fs w3 !! txt = Some (Text text)) by (simpl; rewrite Hcfs; exact Htxt).
    pose proof (shutil_move_outcome txt
                  (path_join (path_join ocr_dir (replace_char 32 95 label))
                     (basename txt)) _ w3 H3) as Hmv.
    assert (Hdst : path_join (path_join ocr_dir (replace_char 32 95 label))
                     (basename txt)
                   = ocr_dir ++ [replace_char 32 95 label; ocr_name name])
      by (unfold path_join, txt; rewrite basename_join, <- app_assoc; reflexivity).
    rewrite Hdst in *.
    destruct (shutil_move E txt _ w3) as [[[]|e] w4].
    + exists (replace_char 32 95 label), text. rewrite Hmv.
      simpl fs. rewrite Hcfs, Hfs1, Hfs0. rewrite delete_insert_eq.
      reflexivity.
    + destruct Hmv as [Hok Hmv]. simpl fs in Hmv. rewrite Hcfs, Hfs1 in Hmv.
      destruct (move_leaves E txt (ocr_dir ++ [replace_char 32 95 label; ocr_name name])
                  (Text text)) as [debris|] eqn:Hleft; simpl in Hmv.
      * right. split.
        { exists txt, (ocr_dir ++ [replace_char 32 95 label; ocr_name name]),
            (replace_char 32 95 label), (Text text), debris.
          split; [right; split; reflexivity|]. split; assumption. }
        exists (replace_char 32 95 label).
        apply Hback, (frame_insert_two txt _ (Text text) debris). exact Hmv.
      * left. apply Hback, (frame_insert_at txt (Text text)). exact Hmv.
  - rewrite (bind_Raise _ _ _ _ _ Hc). left.
    apply Hback, (frame_insert_at txt (Text text)). rewrite Hcfs. exact Hfs1.
Qed.

(** The handler copies the source into the quarantine directory, or passes
    over the failure of the copy. *)
Lemma quarantine_outcome (pdf_path dir : path) (e : exn) (f : file) (w : world) :
  dir <> [] ->
  fs w !! pdf_path = Some f ->
  let w' := snd (quarantine E pdf_path (Some dir) e w) in
  let dst := dir ++ [basename pdf_path] in
  (copy_ok E pdf_path dst = true /\ fs w' = <[dst := f]> (fs w))
  \/ (copy_ok E pdf_path dst = false
      /\ fs w' = leave dst (copy_leaves E pdf_path dst f) (fs w)).
Proof.
  intros Hdir Hf. unfold quarantine, bind, print, makedirs, try_except, ret.
  destruct dir as [|d dir]; [congruence|]. cbn [truthy].
  unfold shutil_copy, path_join. cbn [fs add_dirs add_stdout]. rewrite Hf.
  destruct (copy_ok E pdf_path _); [left | right]; split; reflexivity.
Qed.

End BranchOutcome.

(** ** Paths that cannot coincide *)

Lemma separate_apart (a b x y : path) : separate a b -> a ++ x = b ++ y -> False.
Proof.
  intros [Hab Hba] Heq.
  destruct (prefix_weak_total a b (a ++ x)) as [H|H]; auto.
  - exists x. reflexivity.
  - exists y. exact Heq.
Qed.

(** Closes a goal [p <> q] on paths under the same root or under
    separate roots. *)
Ltac apart :=
  let H := fresh "Heq" in
  intros H;
  first
    [ apply app_inv_head in H; congruence
    | match goal with
      | Hs : separate ?a ?b |- _ =>
          first [ exact (separate_apart a b _ _ Hs H)
                | exact (separate_apart a b _ _ Hs (eq_sym H)) ]
      end ].

Lemma errored_classification (out : list event) :
  Forall classification_line out -> errored out = [].
Proof.
  induction 1 as [|ev out Hev _ IH]; [reflexivity|].
  destruct ev; simpl in *; try contradiction; exact IH.
Qed.

Section Verdict.

Variable E : env.
Variables (input_dir repaired_dir ocr_dir error_dir : path).
Hypothesis layout : layout_ok input_dir repaired_dir ocr_dir error_dir.
Hypothesis error_dir_set : error_dir <> [].

Lemma branches_print_classification (pdf_path : path) (reader : option engine) :
  preserves (prints classification_line) (repair_and_file E pdf_path repaired_dir)
  /\ preserves (prints classification_line)
       (extract_and_file E pdf_path ocr_dir reader).
Proof.
  split.
  - apply repair_and_file_preserves; try exact _; try apply prints_quiet.
    + intros l s. apply print_prints. exact I.
    + intros gs. quiet_primitive.
    + intros label. quiet_primitive.
  - apply extract_and_file_preserves; try exact _; try apply prints_quiet.
    + intros l s. apply print_prints. exact I.
    + intros _. quiet_primitive.
    + intros r pix _. quiet_primitive.
    + quiet_primitive.
    + intros data. quiet_primitive.
    + intros label. quiet_primitive.
Qed.

(** The verdict on one document: it is filed as a repaired copy, or filed
    as recognised text, or its processing raised.  In the last case nothing
    changes under the label directories, unless the move into one of them
    failed and left a file; and the original is copied into the quarantine
    directory, or, when the copy fails, the quarantine path holds what the
    failed copy left.  Nothing else changes under the label directories or at
    the document's quarantine path. *)
Lemma process_pdf_verdict (name : str) (reader : option engine) (w1 : world)
    (original : file) :
  fs w1 !! (input_dir ++ [name]) = Some original ->
  let w2 := snd (process_pdf E (input_dir ++ [name]) repaired_dir ocr_dir
                   (Some error_dir) reader w1) in
  let out := printed w1 w2 in
  let same_repaired := fun label =>
    fs w2 !! (repaired_dir ++ [label; name]) = fs w1 !! (repaired_dir ++ [label; name]) in
  let same_ocr := fun label =>
    fs w2 !! (ocr_dir ++ [label; ocr_name name])
    = fs w1 !! (ocr_dir ++ [label; ocr_name name]) in
  let same_quarantine :=
    fs w2 !! (error_dir ++ [name]) = fs w1 !! (error_dir ++ [name]) in
  (errored out = []
   /\ (exists label pages,
         fs w2 !! (repaired_dir ++ [label; name]) = Some (Pdf pages)
         /\ forall label', label' <> label -> same_repaired label')
   /\ (forall label, same_ocr label) /\ same_quarantine)
  \/ (errored out = []
      /\ (exists label text,
            fs w2 !! (ocr_dir ++ [label; ocr_name name]) = Some (Text text)
            /\ forall label', label' <> label -> same_ocr label')
      /\ (forall label, same_repaired label) /\ same_quarantine)
  \/ (errored out = [name]
      /\ ((forall label, same_repaired label) /\ (forall label, same_ocr label)
          \/ move_left E repaired_dir ocr_dir name)
      /\ (copy_ok E (input_dir ++ [name]) (error_dir ++ [name]) = true
            /\ fs w2 !! (error_dir ++ [name]) = Some original
          \/ copy_ok E (input_dir ++ [name]) (error_dir ++ [name]) = false
            /\ fs w2 !! (error_dir ++ [name])
               = match copy_leaves E (input_dir ++ [name]) (error_dir ++ [name])
                         original with
                 | Some debris => Some debris
                 | None => fs w1 !! (error_dir ++ [name])
                 end)).
Proof.
  intros Hsrc w2 out same_repaired same_ocr same_quarantine.
  destruct layout as (Hir & Hio & Hie & Hro & Hre & Hoe).
  subst w2 out same_repaired same_ocr same_quarantine.
  destruct (process_pdf_run E repaired_dir ocr_dir (Some error_dir)
              (input_dir ++ [name]) reader w1)
    as (ev & branch & Hcase & ->).
  destruct (branches_print_classification (input_dir ++ [name]) reader) as [HpD HpS].
  rewrite basename_join in *.
  set (w0 := add_stdout ev w1).
  set (tmps := fun q : path => q = repaired_dir ++ [name]
                               \/ q = ocr_dir ++ [ocr_name name]).
  set (wide := fun q : path => tmps q
                               \/ (exists l, q = repaired_dir ++ [l; name])
                               \/ (exists l, q = ocr_dir ++ [l; ocr_name name])).
  assert (Hev : errored [ev] = []) by (destruct Hcase as [(-> & _)|(-> & _)]; reflexivity).
  assert (Hbr : prints classification_line w0 (snd (branch w0))
                /\ match branch w0 with
                   | (Return _, w') =>
                       (exists label pages,
                          fs w' = <[repaired_dir ++ [label; name] := Pdf pages]>
                                    (delete (repaired_dir ++ [name]) (fs w1)))
                       \/ (exists label text,
                             fs w' = <[ocr_dir ++ [label; ocr_name name] := Text text]>
                                       (delete (ocr_dir ++ [ocr_name name]) (fs w1)))
                   | (Raise _, w') =>
                       frame tmps w1 w'
                       \/ (move_left E repaired_dir ocr_dir name /\ frame wide w1 w')
                   end).
  { destruct Hcase as [(_ & -> & _)|(_ & -> & _)].
    - split; [apply HpD|].
      pose proof (repair_and_file_outcome E (input_dir ++ [name]) repaired_dir
                    ocr_dir w0) as Ho.
      rewrite basename_join in Ho. cbv zeta in Ho.
      destruct (repair_and_file E (input_dir ++ [name]) repaired_dir w0)
        as [[[]|e] w']; [left; exact Ho|].
      destruct Ho as [Ho|[Hleft [l Ho]]]; [left | right; split; [exact Hleft|]];
        intros q Hq; rewrite (Ho q); try reflexivity;
        subst wide tmps; cbv beta in Hq.
      + tauto.
      + intros [->| ->]; apply Hq; [tauto | right; left; eauto].
    - split; [apply HpS|].
      pose proof (extract_and_file_outcome E (input_dir ++ [name]) repaired_dir
                    ocr_dir reader w0) as Ho.
      rewrite basename_join in Ho. cbv zeta in Ho.
      destruct (extract_and_file E (input_dir ++ [name]) ocr_dir reader w0)
        as [[[]|e] w']; [right; exact Ho|].
      destruct Ho as [Ho|[Hleft [l Ho]]]; [left | right; split; [exact Hleft|]];
        intros q Hq; rewrite (Ho q); try reflexivity;
        subst wide tmps; cbv beta in Hq.
      + tauto.
      + intros [->| ->]; apply Hq; [tauto | right; right; eauto]. }
  destruct Hbr as [(o & Ho & Hcls) Hfs]. unfold try_except.
  destruct (branch w0) as [[[]|e] w'] eqn:Hrun; cbn [snd] in *.
  - (* the branch returned *)
    assert (Hout : errored (printed w1 w') = []).
    { rewrite (printed_app w1 w' ([ev] ++ o))
        by (rewrite Ho; subst w0; simpl; rewrite <- app_assoc; reflexivity).
      rewrite errored_app, Hev, (errored_classification _ Hcls). reflexivity. }
    destruct Hfs as [(label & pages & Hfs)|(label & text & Hfs)]; [left | right; left];
      (split; [exact Hout|]); rewrite Hfs.
    + split; [|split].
      * exists label, pages. split; [apply lookup_insert_eq|].
        intros label' Hne.
        rewrite lookup_insert_ne by apart. apply lookup_delete_ne. apart.
      * intros l. rewrite lookup_insert_ne by apart. apply lookup_delete_ne. apart.
      * rewrite lookup_insert_ne by apart. apply lookup_delete_ne. apart.
    + split; [|split].
      * exists label, text. split; [apply lookup_insert_eq|].
        intros label' Hne.
        rewrite lookup_insert_ne by apart. apply lookup_delete_ne. apart.
      * intros l. rewrite lookup_insert_ne by apart. apply lookup_delete_ne. apart.
      * rewrite lookup_insert_ne by apart. apply lookup_delete_ne. apart.
  - (* the branch raised *)
    right; right.
    assert (Hwide : frame wide w1 w').
    { destruct Hfs as [Hfs|[_ Hfs]]; [|exact Hfs].
      apply (frame_weaken tmps); [|exact Hfs]. intros q Hq. left. exact Hq. }
    assert (Hout_wide : forall q,
               (forall x, q <> repaired_dir ++ x) -> (forall x, q <> ocr_dir ++ x) ->
               fs w' !! q = fs w1 !! q).
    { intros q Hr Ho'. apply Hwide. subst wide tmps. cbv beta.
      intros [[->| ->]|[[l ->]|[l ->]]];
        first [exact (Hr _ eq_refl) | exact (Ho' _ eq_refl)]. }
    assert (Hsrc' : fs w' !! (input_dir ++ [name]) = Some original).
    { rewrite Hout_wide; [exact Hsrc| |]; intros x; apart. }
    pose proof (quarantine_stdout E (input_dir ++ [name]) (Some error_dir) e w')
      as Hqs.
    pose proof (quarantine_outcome E (input_dir ++ [name]) error_dir e original w'
                  error_dir_set Hsrc') as Hq.
    rewrite basename_join in *. cbv zeta in Hq.
    set (w2 := snd (quarantine E (input_dir ++ [name]) (Some error_dir) e w')) in *.
    split.
    { rewrite (printed_app w1 w2 (([ev] ++ o) ++ [MsgError name e]))
        by (rewrite Hqs, Ho; subst w0; simpl; rewrite <- !app_assoc; reflexivity).
      rewrite !errored_app, Hev, (errored_classification _ Hcls). reflexivity. }
    assert (Herr : fs w' !! (error_dir ++ [name]) = fs w1 !! (error_dir ++ [name])).
    { apply Hout_wide; intros x; apart. }
    assert (Hq2 : forall q, q <> error_dir ++ [name] -> fs w2 !! q = fs w' !! q).
    { intros q Hne. destruct Hq as [[_ Hq]|[_ Hq]]; rewrite Hq.
      - apply lookup_insert_ne. congruence.
      - unfold leave. destruct (copy_leaves E _ _ _); [|reflexivity].
        apply lookup_insert_ne. congruence. }
    split.
    { destruct Hfs as [Hfs|[Hleft _]]; [left | right; exact Hleft].
      split; intros l; (rewrite Hq2 by apart); apply Hfs; subst tmps; cbv beta;
        intros [Hq'|Hq']; revert Hq'; apart. }
    destruct Hq as [[Hok Hq]|[Hok Hq]]; rewrite Hq.
    + left. split; [exact Hok | apply lookup_insert_eq].
    + right. split; [exact Hok|]. unfold leave.
      destruct (copy_leaves E _ _ _); [apply lookup_insert_eq | exact Herr].
Qed.

End Verdict.

(** ** Footprints of different documents *)

Section Footprints.

Variables (input_dir repaired_dir ocr_dir error_dir : path).
Hypothesis layout : layout_ok input_dir repaired_dir ocr_dir error_dir.

Lemma footprint_input (name : str) (x : path) :
  ~ footprint repaired_dir ocr_dir (Some error_dir) name (input_dir ++ x).
Proof.
  destruct layout as (Hir & Hio & Hie & Hro & Hre & Hoe).
  intros [H|[(l & H)|[H|[(l & H)|(dir & Hd & H)]]]];
    try (injection Hd as <-); revert H; apart.
Qed.

Lemma footprint_quarantine (name n : str) :
  n <> name ->
  ~ footprint repaired_dir ocr_dir (Some error_dir) name (error_dir ++ [n]).
Proof.
  destruct layout as (Hir & Hio & Hie & Hro & Hre & Hoe).
  intros Hne [H|[(l & H)|[H|[(l & H)|(dir & Hd & H)]]]];
    try (injection Hd as <-); revert H; apart.
Qed.



End Footprints.

Lemma NoDup_middle {A} (done rest : list A) (x : A) :
  NoDup (done ++ x :: rest) -> ~ In x done.
Proof.
  intros Hnd Hin. apply NoDup_app in Hnd. destruct Hnd as (_ & Hdisj & _).
  apply (Hdisj x); [apply list_elem_of_In; exact Hin | left].
Qed.

Lemma NoDup_under_cap (limit : option Z) (queue : list str) :
  NoDup queue -> NoDup (under_cap limit 0 queue).
Proof.
  intros H. unfold under_cap. destruct limit; [|exact H].
  rewrite <- (take_drop (Z.to_nat (z - 0)) queue) in H.
  apply NoDup_app in H. tauto.
Qed.

Lemma In_under_cap (limit : option Z) (queue : list str) (n : str) :
  In n (under_cap limit 0 queue) -> In n queue.
Proof.
  unfold under_cap. destruct limit; [|tauto].
  intros H. rewrite <- (take_drop (Z.to_nat (z - 0)) queue).
  apply in_app_iff. left. exact H.
Qed.

(** ** Quarantine *)

(** With the output roots outside the input directory, making them adds
    nothing to the listing of the input directory. *)
Lemma pdf_queue_arranged (input_dir repaired_dir ocr_dir error_dir : path) (w : world) :
  layout_ok input_dir repaired_dir ocr_dir error_dir ->
  pdf_queue input_dir (arranged repaired_dir ocr_dir (Some error_dir) w)
  = pdf_queue input_dir w.
Proof.
  intros (Hir & Hio & Hie & _). unfold pdf_queue. f_equal. f_equal.
  apply listing_same. intros name. rewrite !elem_of_listing, arranged_fs.
  assert (Hout : forall root rest,
             separate input_dir root -> input_dir ++ name :: rest ∈ ancestors root -> False).
  { intros root rest [Hn _] Hin. apply elem_of_ancestors in Hin.
    apply Hn. etransitivity; [|exact Hin]. apply prefix_app_r. reflexivity. }
  split; intros [rest [H|H]]; exists rest; try (left; exact H); right.
  - unfold arranged in H. destruct (truthy error_dir); cbn [dirs add_dirs] in H;
      rewrite ?elem_of_union in H;
      repeat match goal with H : _ \/ _ |- _ => destruct H as [H|H] end;
      try exact H; exfalso;
      first [exact (Hout _ _ Hir H) | exact (Hout _ _ Hio H) | exact (Hout _ _ Hie H)].
  - unfold arranged. destruct (truthy error_dir); cbn [dirs add_dirs];
      rewrite ?elem_of_union; tauto.
Qed.


Lemma kept_ext (E : env) (input_dir error_dir : path) (w : world)
    (m1 m2 : gmap (list (list N)) file) (name : str) :
  m2 !! (error_dir ++ [name]) = m1 !! (error_dir ++ [name]) ->
  kept E input_dir error_dir w m1 name -> kept E input_dir error_dir w m2 name.
Proof. unfold kept. intros ->. tauto. Qed.

Section Quarantine.

Variable E : env.
Variables (input_dir repaired_dir ocr_dir error_dir : path).
Variable limit : option Z.
Hypothesis layout : layout_ok input_dir repaired_dir ocr_dir error_dir.
Hypothesis error_dir_set : error_dir <> [].

(** An entry of the input directory that is no file, a sub-directory,
    leaves its quarantine path as it was: no copy takes it. *)
Lemma process_pdf_absent (name : str) (reader : option engine) (w1 : world) :
  fs w1 !! (input_dir ++ [name]) = None ->
  fs (snd (process_pdf E (input_dir ++ [name]) repaired_dir ocr_dir
             (Some error_dir) reader w1)) !! (error_dir ++ [name])
  = fs w1 !! (error_dir ++ [name]).
Proof.
  intros Hsrc. destruct layout as (Hir & Hio & Hie & Hro & Hre & Hoe).
  destruct (process_pdf_run E repaired_dir ocr_dir (Some error_dir)
              (input_dir ++ [name]) reader w1)
    as (ev & branch & Hcase & ->).
  set (w0 := add_stdout ev w1).
  set (S := fun q : path => (exists x, q = repaired_dir ++ x)
                            \/ (exists x, q = ocr_dir ++ x)).
  assert (Hfr : frame S w0 (snd (branch w0))).
  { destruct (branches_frame E repaired_dir ocr_dir S (input_dir ++ [name]) reader)
      as [HD HS]; try (subst S; cbv beta; eauto).
    destruct Hcase as [(_ & -> & _)|(_ & -> & _)]; [apply HD | apply HS]. }
  assert (Hout : forall q, (forall x, q <> repaired_dir ++ x) ->
                           (forall x, q <> ocr_dir ++ x) ->
                           fs (snd (branch w0)) !! q = fs w1 !! q).
  { intros q Hr Ho. rewrite (Hfr q); [reflexivity|].
    subst S. cbv beta. intros [[x ->]|[x ->]]; [exact (Hr _ eq_refl) | exact (Ho _ eq_refl)]. }
  unfold try_except.
  destruct (branch w0) as [[[]|e] w'] eqn:Hrun; cbn [snd] in *.
  - apply Hout; intros x; apart.
  - destruct (quarantine_world E (input_dir ++ [name]) (Some error_dir) e w')
      as (Hq & _).
    rewrite Hq. unfold quarantine_copy.
    rewrite (Hout (input_dir ++ [name])), Hsrc by (intros x; apart).
    apply Hout; intros x; apart.
Qed.

Lemma batch_quarantine (w : world) :
  input_dir ∈ dirs w ->
  let queue := under_cap limit 0 (pdf_queue input_dir w) in
  exists (w1 : world) (out : list event),
    main E input_dir repaired_dir ocr_dir (Some error_dir) limit w
    = (Return (Z.of_nat (length queue)), add_stdout MsgCompleted w1)
    /\ stdout w1 = stdout w ++ out
    /\ dispatched out = queue
    /\ (forall x, fs w1 !! (input_dir ++ x) = fs w !! (input_dir ++ x))
    /\ forall name, In name (errored out) ->
         In name queue /\ kept E input_dir error_dir w (fs w1) name.
Proof.
  intros Hdir queue.
  assert (Hnd : NoDup queue) by apply NoDup_under_cap, NoDup_pdf_queue.
  set (I := fun (done : list str) (w1 : world) =>
              exists out, stdout w1 = stdout w ++ out
                /\ dispatched out = done
                /\ frame (fun q => exists n, In n done
                             /\ footprint repaired_dir ocr_dir (Some error_dir) n q)
                     w w1
                /\ forall name, In name (errored out) ->
                                In name done /\ kept E input_dir error_dir w (fs w1) name).
  destruct (batch_inv E input_dir repaired_dir ocr_dir (Some error_dir) limit I w Hdir)
    as (w1 & Hmain & out & Hout & Hdisp & Hframe & Herr).
  - intros w0 Hfs _ Hstd _ _ _ _. exists []. rewrite app_nil_r.
    split; [exact Hstd|]. split; [reflexivity|]. split; [|intros name []].
    intros q _. rewrite Hfs. reflexivity.
  - intros done name rest w1 Hq (out & Hout & Hdisp & Hframe & Herr).
    rewrite (pdf_queue_arranged _ _ _ _ _ layout) in Hq. fold queue in Hq.
    assert (Hfresh : ~ In name done) by (rewrite Hq in Hnd; exact (NoDup_middle _ _ _ Hnd)).
    assert (Hkeep : forall q, (forall n, In n done ->
                       ~ footprint repaired_dir ocr_dir (Some error_dir) n q) ->
                     fs w1 !! q = fs w !! q).
    { intros q Hq'. apply Hframe. intros (n & Hn & Hfp). exact (Hq' n Hn Hfp). }
    assert (Hsrc : fs w1 !! (input_dir ++ [name]) = fs w !! (input_dir ++ [name])).
    { apply Hkeep. intros n _. apply footprint_input. exact layout. }
    assert (Hbefore : fs w1 !! (error_dir ++ [name]) = fs w !! (error_dir ++ [name])).
    { apply Hkeep. intros n Hn.
      apply footprint_quarantine with (input_dir := input_dir);
        [exact layout | congruence]. }
    pose proof (process_pdf_frame E repaired_dir ocr_dir (Some error_dir)
                  (path_join input_dir name) (boot_engine E w) w1) as Hfr.
    destruct (process_pdf_stdout E repaired_dir ocr_dir (Some error_dir)
                (path_join input_dir name) (boot_engine E w) w1)
      as (w2 & ev & out2 & Hrun & Hout2 & Hev & Hrep).
    assert (Hnow : In name (errored (ev :: out2)) ->
                   kept E input_dir error_dir w (fs w2) name).
    { intros Hin. unfold kept. cbv zeta.
      destruct (fs w !! (input_dir ++ [name])) as [original|] eqn:Horig.
      - pose proof (process_pdf_verdict E input_dir repaired_dir ocr_dir error_dir
                      layout error_dir_set name (boot_engine E w) w1 original Hsrc)
          as Hverdict.
        unfold path_join in Hrun. rewrite Hrun in Hverdict.
        cbv zeta in Hverdict. cbn [snd] in Hverdict.
        rewrite (printed_app w1 w2 (ev :: out2) Hout2) in Hverdict.
        destruct Hverdict as [(He & _)|[(He & _)|(_ & _ & Hc)]];
          [rewrite He in Hin; destruct Hin | rewrite He in Hin; destruct Hin|].
        destruct Hc as [[-> Hc]|[-> Hc]]; [exact Hc|].
        rewrite Hc, Hbefore. reflexivity.
      - pose proof (process_pdf_absent name (boot_engine E w) w1 Hsrc) as Habs.
        unfold path_join in Hrun. rewrite Hrun in Habs. cbn [snd] in Habs.
        rewrite Habs. exact Hbefore. }
    unfold path_join in *. rewrite basename_join in *.
    rewrite Hrun in *. cbn [snd] in *.
    exists (out ++ ev :: out2).
    split; [rewrite Hout2, Hout, <- app_assoc; reflexivity|]. split; [|split].
    + rewrite dispatched_app, Hdisp. f_equal.
      change (ev :: out2) with ([ev] ++ out2).
      rewrite dispatched_app, (dispatched_reports _ _ Hrep).
      destruct Hev as [-> | ->]; reflexivity.
    + intros q Hq'. rewrite Hfr.
      * apply Hframe. intros (n & Hn & Hfp). apply Hq'.
        exists n. split; [apply in_app_iff; left; exact Hn | exact Hfp].
      * intros Hfp. apply Hq'. exists name.
        split; [apply in_app_iff; right; left; reflexivity | exact Hfp].
    + intros n Hn. rewrite errored_app in Hn. apply in_app_iff in Hn.
      destruct Hn as [Hn|Hn].
      * destruct (Herr n Hn) as [Hdone Hk].
        split; [apply in_app_iff; left; exact Hdone|].
        apply (kept_ext E input_dir error_dir w (fs w1)); [|exact Hk].
        apply Hfr. apply footprint_quarantine with (input_dir := input_dir);
          [exact layout | congruence].
      * assert (Hname : n = name).
        { assert (Hn' : In n (errored out2))
            by (destruct Hev as [-> | ->]; exact Hn).
          exact (errored_reports _ _ Hrep n Hn'). }
        subst n.
        split; [apply in_app_iff; right; left; reflexivity | exact (Hnow Hn)].
  - rewrite (pdf_queue_arranged _ _ _ _ _ layout) in Hmain, Hdisp, Herr.
    exists w1, out. split; [exact Hmain|]. split; [exact Hout|].
    split; [exact Hdisp|]. split; [|exact Herr].
    intros x. apply Hframe. intros (n & _ & Hfp).
    exact (footprint_input _ _ _ _ layout n x Hfp).
Qed.

End Quarantine.



(** ** Exactly one outcome per document *)




Section Settled.

Variable E : env.
Variables (input_dir repaired_dir ocr_dir error_dir : path).
Variable limit : option Z.
Hypothesis layout : layout_ok input_dir repaired_dir ocr_dir error_dir.
Hypothesis error_dir_set : error_dir <> [].



End Settled.


Lemma two_not_one (A B C : Prop) : A -> B -> ~ exactly_one A B C.
Proof. unfold exactly_one. tauto. Qed.




(** * Further properties of the pipeline *)

(** ** File names *)

Lemma lower_char_dot (c : N) :
  (if ((65 <=? c) && (c <=? 90))%N then (c + 32)%N else c) = 46%N <-> c = 46%N.
Proof.
  destruct ((65 <=? c) && (c <=? 90))%N eqn:Hc; [|tauto].
  apply andb_true_iff in Hc. rewrite !N.leb_le in Hc. lia.
Qed.

Lemma lower_char_letter (c l : N) :
  (97 <= l <= 122)%N ->
  (if ((65 <=? c) && (c <=? 90))%N then (c + 32)%N else c) = l
  <-> c = l \/ c = (l - 32)%N.
Proof.
  intros Hl. destruct ((65 <=? c) && (c <=? 90))%N eqn:Hc.
  - apply andb_true_iff in Hc. rewrite !N.leb_le in Hc. lia.
  - apply andb_false_iff in Hc. rewrite !N.leb_gt in Hc. lia.
Qed.

(** X1. A directory entry is taken for a document exactly when it ends
    in a dot followed by the letters p, d, f, each in either case; nothing
    is required of what comes before the dot. *)
Theorem is_pdf_name_extension (name : str) :
  is_pdf_name name = true
  <-> exists (stem : str) (p d f : N),
        name = stem ++ [46; p; d; f]%N
        /\ (p = 112 \/ p = 80)%N /\ (d = 100 \/ d = 68)%N /\ (f = 102 \/ f = 70)%N.
Proof.
  unfold is_pdf_name, endswith, lower. rewrite <- map_rev.
  change (rev (lit ".pdf")) with [102; 100; 112; 46]%N.
  split.
  - intros H. destruct (rev name) as [|f [|d [|p [|dot rest]]]] eqn:Hrev;
      simpl in H; try discriminate;
      repeat (apply andb_true_iff in H; destruct H as [? H]);
      try discriminate.
    repeat match goal with Hc : (_ =? _)%N = true |- _ => apply N.eqb_eq in Hc end.
    match goal with
    | Hc : _ = 46%N |- _ => apply (proj1 (lower_char_dot _)) in Hc; subst dot
    end.
    repeat match goal with
           | Hc : (if _ then _ else ?c) = ?l |- _ =>
               apply (proj1 (lower_char_letter c l ltac:(lia))) in Hc
           end.
    exists (rev rest), p, d, f. split; [|auto].
    apply (f_equal (@rev N)) in Hrev. rewrite rev_involutive in Hrev.
    rewrite Hrev. simpl. rewrite <- !app_assoc. reflexivity.
  - intros (stem & p & d & f & -> & Hp & Hd & Hf).
    rewrite rev_app_distr. simpl.
    assert (Hnil : forall s : str, startswith s [] = true) by (intros []; reflexivity).
    rewrite Hnil.
    destruct Hp as [-> | ->], Hd as [-> | ->], Hf as [-> | ->]; reflexivity.
Qed.

Lemma rfind_dot_app (s t : str) :
  forall (i : nat) (found : option nat),
    rfind_dot (s ++ t) i found = rfind_dot t (i + length s) (rfind_dot s i found).
Proof.
  induction s as [|c s IH]; intros i found; simpl.
  - rewrite Nat.add_0_r. reflexivity.
  - rewrite IH. f_equal. lia.
Qed.

Lemma rfind_dot_none (s : str) :
  Forall (fun c => c <> 46%N) s ->
  forall i found, rfind_dot s i found = found.
Proof.
  induction 1 as [|c s Hc _ IH]; intros i found; simpl; [reflexivity|].
  rewrite IH. destruct (N.eqb_spec c 46); [contradiction | reflexivity].
Qed.

Lemma rfind_dot_last (stem ext : str) :
  Forall (fun c => c <> 46%N) ext ->
  rfind_dot (stem ++ 46%N :: ext) 0 None = Some (length stem).
Proof.
  intros Hext. rewrite rfind_dot_app. simpl. apply rfind_dot_none. exact Hext.
Qed.

Lemma forallb_dots_false (stem : str) (c : N) :
  In c stem -> c <> 46%N -> forallb (fun c => (c =? 46)%N) stem = false.
Proof.
  intros Hin Hc. destruct (forallb _ stem) eqn:Hf; [|reflexivity].
  rewrite forallb_forall in Hf. apply Hf, N.eqb_eq in Hin. contradiction.
Qed.

(** X2. The name of the text file of a document is its name with the last
    extension replaced by [_ocr.txt]: the extension starts at the last dot,
    provided some character other than a dot comes before it.  Names that
    differ in their extension only are given the same text file.  A name
    without a dot, or with dots in front only, keeps all of its
    characters. *)
Theorem ocr_name_replaces_extension (stem ext : str) :
  Forall (fun c => c <> 46%N) ext ->
  ((exists c, In c stem /\ c <> 46%N) ->
   ocr_name (stem ++ 46%N :: ext) = stem ++ lit "_ocr.txt"
   /\ forall ext', Forall (fun c => c <> 46%N) ext' ->
                   ocr_name (stem ++ 46%N :: ext') = ocr_name (stem ++ 46%N :: ext))
  /\ (Forall (fun c => c = 46%N) stem ->
      ocr_name (stem ++ 46%N :: ext) = (stem ++ 46%N :: ext) ++ lit "_ocr.txt")
  /\ ocr_name ext = ext ++ lit "_ocr.txt".
Proof.
  intros Hext.
  assert (Hcut : forall e, Forall (fun c => c <> 46%N) e ->
                 (exists c, In c stem /\ c <> 46%N) ->
                 ocr_name (stem ++ 46%N :: e) = stem ++ lit "_ocr.txt").
  { intros e He (c & Hin & Hc). unfold ocr_name, splitext.
    rewrite (rfind_dot_last stem e He), take_app_length.
    rewrite (forallb_dots_false stem c Hin Hc). reflexivity. }
  split; [|split].
  - intros Hstem. split; [apply Hcut; assumption|].
    intros ext' Hext'. rewrite !Hcut by assumption. reflexivity.
  - intros Hdots. unfold ocr_name, splitext.
    rewrite (rfind_dot_last stem ext Hext), take_app_length.
    replace (forallb (fun c => (c =? 46)%N) stem) with true; [reflexivity|].
    symmetry. apply forallb_forall. intros c Hc. apply N.eqb_eq.
    rewrite Forall_forall in Hdots. apply Hdots, list_elem_of_In, Hc.
  - unfold ocr_name, splitext. rewrite (rfind_dot_none ext Hext). reflexivity.
Qed.

Lemma ocr_name_replaces_extension_witness :
  ocr_name (lit "report.v2.pdf") = lit "report.v2_ocr.txt"
  /\ ocr_name (lit "report.v2.PDF") = ocr_name (lit "report.v2.pdf")
  /\ ocr_name (lit ".pdf") = lit ".pdf_ocr.txt".
Proof.
  assert (Hpdf : Forall (fun c => c <> 46%N) (lit "pdf"))
    by (repeat constructor; discriminate).
  assert (HPDF : Forall (fun c => c <> 46%N) (lit "PDF"))
    by (repeat constructor; discriminate).
  destruct (ocr_name_replaces_extension (lit "report.v2") (lit "pdf") Hpdf)
    as (Hcut & _ & _).
  destruct Hcut as [H1 H2]; [exists 114%N; split; [left; reflexivity | discriminate]|].
  destruct (ocr_name_replaces_extension [] (lit "pdf") Hpdf) as (_ & Hdots & _).
  split; [exact H1|]. split; [exact (H2 (lit "PDF") HPDF)|].
  exact (Hdots (List.Forall_nil _)).
Defined.

(** ** The repair stage *)





(** ** The extraction stage *)

Lemma readtext_fail (E : env) (reader : engine) (pix : image) (w : world) :
  recognise E reader pix = None ->
  readtext E reader pix w = (Raise EngineError, add_ocr_call (reader, pix) w).
Proof. intros H. unfold readtext. rewrite H. reflexivity. Qed.

(** One turn of the page loop on a page that is recognised. *)
Lemma ocr_pages_step (E : env) (txt_path : path) (reader : engine) (dpi : Z)
    (pg : page) (rest : list page) (n : nat) (fr : list str) (content : str)
    (w : world) :
  recognise E reader (get_pixmap pg dpi) = Some fr ->
  fs w !! txt_path = Some (Text content) ->
  exists w1,
    ocr_pages E txt_path reader dpi (pg :: rest) (Z.of_nat n) w
    = ocr_pages E txt_path reader dpi rest (Z.of_nat (S n)) w1
    /\ fs w1 = <[txt_path := Text (content ++ page_block (S n) fr)]> (fs w)
    /\ ocr_calls w1 = ocr_calls w ++ [(reader, get_pixmap pg dpi)]
    /\ model_calls w1 = model_calls w /\ stdout w1 = stdout w
    /\ reader_attempts w1 = reader_attempts w /\ readers w1 = readers w
    /\ dirs w1 = dirs w.
Proof.
  intros Hpg Hfile. rewrite ocr_pages_cons.
  rewrite (bind_Return _ _ _ _ _ (readtext_ok E _ _ _ w Hpg)).
  set (w1 := add_ocr_call (reader, get_pixmap pg dpi) w).
  assert (H1 : fs w1 !! txt_path = Some (Text content)) by exact Hfile.
  rewrite (bind_Return _ _ _ _ _ (write_text _ _ _ _ H1)).
  set (w2 := set_fs _ w1).
  assert (H2 : fs w2 !! txt_path
               = Some (Text (content ++ lit "Page " ++ str_of_Z (Z.of_nat n + 1)
                              ++ lit ":" ++ [NL])))
    by apply lookup_insert_eq.
  rewrite (bind_Return _ _ _ _ _ (write_text _ _ _ _ H2)).
  set (w3 := set_fs _ w2).
  assert (H3 : fs w3 !! txt_path
               = Some (Text ((content ++ lit "Page " ++ str_of_Z (Z.of_nat n + 1)
                               ++ lit ":" ++ [NL]) ++ join (lit " ") fr)))
    by apply lookup_insert_eq.
  rewrite (bind_Return _ _ _ _ _ (write_text _ _ _ _ H3)).
  set (w4 := set_fs _ w3).
  exists w4. replace (Z.of_nat n + 1)%Z with (Z.of_nat (S n)) by lia.
  split; [reflexivity|]. split; [|repeat split].
  subst w4 w3 w2 w1. unfold set_fs, add_ocr_call. cbn [fs].
  rewrite !insert_insert_eq. f_equal. f_equal.
  unfold page_block, NL. rewrite separator_line_eq.
  replace (Z.of_nat n + 1)%Z with (Z.of_nat (S n)) by lia.
  rewrite <- !app_assoc. reflexivity.
Qed.

Lemma ocr_pages_fails_at (E : env) (txt_path : path) (reader : engine) (dpi : Z)
    (failed : page) (rest : list page) (done : list page) :
  recognise E reader (get_pixmap failed dpi) = None ->
  forall (per_page : list (list str)) (n : nat) (content : str) (w : world),
    Forall2 (fun pg fr => recognise E reader (get_pixmap pg dpi) = Some fr)
            done per_page ->
    fs w !! txt_path = Some (Text content) ->
    exists w',
      ocr_pages E txt_path reader dpi (done ++ failed :: rest) (Z.of_nat n) w
      = (Raise EngineError, w')
      /\ fs w' = <[txt_path :=
                    Text (content ++ concat (page_blocks_from (S n) per_page))]> (fs w)
      /\ ocr_calls w'
         = ocr_calls w
           ++ map (fun pg => (reader, get_pixmap pg dpi)) (done ++ [failed]).
Proof.
  intros Hfail.
  induction done as [|pg done IH]; intros per_page n content w Hrec Hfile.
  - inversion Hrec; subst. change ([] ++ failed :: rest) with (failed :: rest).
    rewrite ocr_pages_cons.
    rewrite (bind_Raise _ _ _ _ _ (readtext_fail E _ _ w Hfail)).
    eexists. split; [reflexivity|]. split; [|reflexivity].
    cbn [page_blocks_from imap concat fs add_ocr_call]. rewrite app_nil_r.
    symmetry. apply insert_id. exact Hfile.
  - inversion Hrec as [|pg' fr done' per_page' Hpg Hrest]; subst.
    rewrite <- app_comm_cons.
    destruct (ocr_pages_step E txt_path reader dpi pg (done ++ failed :: rest)
                n fr content w Hpg Hfile)
      as (w1 & Hstep & Hfs1 & Hcalls1 & _).
    assert (Hfile1 : fs w1 !! txt_path = Some (Text (content ++ page_block (S n) fr)))
      by (rewrite Hfs1; apply lookup_insert_eq).
    destruct (IH per_page' (S n) _ w1 Hrest Hfile1) as (w' & Hrun & Hfs & Hcalls).
    exists w'. rewrite Hstep. split; [exact Hrun|]. split.
    + rewrite Hfs, Hfs1, insert_insert_eq, page_blocks_from_cons.
      cbn [concat]. rewrite <- app_assoc. reflexivity.
    + rewrite Hcalls, Hcalls1, <- app_assoc. reflexivity.
Qed.



(** ** One document, end to end *)

Section EndToEnd.

Variable E : env.

Lemma classify_text_label_of (text : str) (label : str) (w : world) :
  label_of E text = Some label ->
  exists w' out,
    classify_text E text w = (Return label, w')
    /\ fs w' = fs w /\ dirs w' = dirs w
    /\ stdout w' = stdout w ++ out /\ Forall classification_line out
    /\ engine_idle w w'.
Proof.
  unfold label_of, classify_text. rewrite truthy_strip.
  destruct (forallb is_space text); cbn [negb].
  - intros H. injection H as <-. exists w, []. rewrite app_nil_r.
    repeat split. constructor.
  - unfold bind at 1. unfold classifier.
    destruct (zero_shot E text LABELS) as [r|]; [|discriminate].
    destruct (labels r) as [|l ls] eqn:Hl; [discriminate|].
    destruct (scores r) as [|s ss] eqn:Hs; [discriminate|].
    intros H. injection H as <-.
    unfold bind, subscript, ret, print. cbn [nth_error].
    eexists. exists [MsgClassified l s]. split; [reflexivity|].
    repeat split. constructor; [exact I | constructor].
Qed.

Lemma classify_text_no_label (text : str) (w : world) :
  label_of E text = None ->
  exists e w', classify_text E text w = (Raise e, w').
Proof.
  unfold label_of, classify_text. rewrite truthy_strip.
  destruct (forallb is_space text); cbn [negb]; [discriminate|].
  unfold bind at 1. unfold classifier.
  destruct (zero_shot E text LABELS) as [r|]; [|eexists; eexists; reflexivity].
  unfold bind, subscript, ret, raise, print.
  destruct (labels r) as [|l ls]; cbn [nth_error];
    [intros _; eexists; eexists; reflexivity|].
  destruct (scores r) as [|s ss]; cbn [nth_error]; [|discriminate].
  intros _. eexists. eexists. reflexivity.
Qed.


End EndToEnd.







Section Scanned.

Variable E : env.

Lemma classify_text_asks (text : str) (w : world) :
  model_calls (snd (classify_text E text w))
  = model_calls w ++ (if forallb is_space text then [] else [(text, LABELS)]).
Proof.
  unfold classify_text. rewrite truthy_strip.
  destruct (forallb is_space text); cbn [negb].
  - rewrite app_nil_r. reflexivity.
  - unfold bind at 1. unfold classifier.
    destruct (zero_shot E text LABELS) as [r|]; [|reflexivity].
    unfold bind, subscript, ret, raise, print.
    destruct (nth_error (labels r) 0); [|reflexivity].
    destruct (nth_error (scores r) 0); reflexivity.
Qed.

Lemma artifact_read_not_blank (fr : list str) (rest : list (list str)) :
  forallb is_space (artifact_read (fr :: rest)) = false.
Proof.
  unfold artifact_read, text_artifact. rewrite page_blocks_from_cons. unfold page_block.
  change (lit "Page ") with (80%N :: lit "age "). reflexivity.
Qed.

Lemma ocr_pages_all (txt_path : path) (reader : engine) (dpi : Z)
    (pages : list page) :
  forall (per_page : list (list str)) (n : nat) (content : str) (w : world),
    legible E reader dpi pages per_page ->
    fs w !! txt_path = Some (Text content) ->
    exists w',
      ocr_pages E txt_path reader dpi pages (Z.of_nat n) w = (Return tt, w')
      /\ fs w' = <[txt_path :=
                    Text (content ++ concat (page_blocks_from (S n) per_page))]> (fs w)
      /\ ocr_calls w' = ocr_calls w ++ scans reader dpi pages
      /\ model_calls w' = model_calls w /\ stdout w' = stdout w
      /\ reader_attempts w' = reader_attempts w /\ readers w' = readers w
      /\ dirs w' = dirs w.
Proof.
  induction pages as [|pg rest IH]; intros per_page n content w Hall Hfile.
  - apply Forall2_nil_inv_l in Hall. subst per_page. exists w.
    split; [reflexivity|]. unfold page_blocks_from, scans. simpl.
    rewrite !app_nil_r. repeat split. symmetry. apply insert_id. exact Hfile.
  - apply Forall2_cons_inv_l in Hall. destruct Hall as (fr & frs & Hpg & Hrest & ->).
    destruct (ocr_pages_step E txt_path reader dpi pg rest n fr content w Hpg Hfile)
      as (w1 & Hstep & Hfs1 & Hocr1 & Hm1 & Hout1 & Ha1 & Hr1 & Hd1).
    assert (Hfile1 : fs w1 !! txt_path = Some (Text (content ++ page_block (S n) fr)))
      by (rewrite Hfs1; apply lookup_insert_eq).
    destruct (IH frs (S n) _ w1 Hrest Hfile1)
      as (w' & Hrun & Hfs & Hocr & Hm & Hout & Ha & Hr & Hd).
    exists w'. split; [rewrite Hstep; exact Hrun|].
    split.
    { rewrite Hfs, Hfs1, insert_insert_eq, page_blocks_from_cons.
      cbn [concat]. rewrite <- app_assoc. reflexivity. }
    split.
    { rewrite Hocr, Hocr1. unfold scans. cbn [map]. rewrite <- app_assoc. reflexivity. }
    repeat split; congruence.
Qed.

Lemma engine_for_run (reader : option engine) (r : engine) (w : world) :
  engine_for E reader w = Some r ->
  exists wa,
    match reader with
    | None => easyocr_Reader E [lit "hi"; lit "en"] true
    | Some r0 => ret r0
    end w = (Return r, wa)
    /\ fs wa = fs w /\ dirs wa = dirs w /\ stdout wa = stdout w
    /\ model_calls wa = model_calls w /\ ocr_calls wa = ocr_calls w.
Proof.
  destruct reader as [r0|]; simpl.
  - intros [= ->]. exists w. repeat split.
  - unfold boot_engine, easyocr_Reader.
    destruct (reader_boot E (reader_attempts w)); [|discriminate].
    intros [= <-]. eexists. split; [reflexivity|]. repeat split.
Qed.

Lemma makedirs_leaf (d : path) (name : str) (w : world) :
  d ++ [name] ∈ dirs (snd (makedirs (path_join d name) w)).
Proof.
  unfold makedirs, path_join. cbn [snd dirs add_dirs].
  apply elem_of_union_l, elem_of_list_to_set, list_elem_of_In, in_map_iff.
  exists (length d). split.
  - apply take_ge. rewrite length_app. simpl. lia.
  - apply in_seq. rewrite length_app. simpl. lia.
Qed.

(** The extraction when every page is recognised. *)
Lemma ocr_extract_all (pdf_path ocr_dir : path) (r : engine) (dpi : Z)
    (doc : list page) (per_page : list (list str)) (w : world) :
  fs w !! pdf_path = Some (Pdf doc) ->
  legible E r dpi doc per_page ->
  let txt := ocr_dir ++ [ocr_name (basename pdf_path)] in
  exists w1,
    ocr_extract E pdf_path ocr_dir r dpi w = (Return txt, w1)
    /\ fs w1 = <[txt := Text (text_artifact per_page)]> (fs w)
    /\ ocr_calls w1 = ocr_calls w ++ scans r dpi doc
    /\ model_calls w1 = model_calls w /\ stdout w1 = stdout w.
Proof.
  intros Hdoc Hall txt.
  unfold ocr_extract. unfold bind at 1. unfold makedirs at 1.
  set (w0 := add_dirs _ w).
  assert (Hopen : fitz_open pdf_path w0 = (Return doc, w0)).
  { unfold fitz_open. change (fs w0) with (fs w). rewrite Hdoc. reflexivity. }
  rewrite (bind_Return _ _ _ _ _ Hopen).
  unfold bind at 1. unfold open_w at 1.
  change (path_join ocr_dir (fst (splitext (basename pdf_path)) ++ lit "_ocr.txt"))
    with txt.
  set (wb := set_fs (insert txt (Text [])) w0).
  assert (Hfile : fs wb !! txt = Some (Text [])) by apply lookup_insert_eq.
  destruct (ocr_pages_all txt r dpi doc per_page 0 [] wb Hall Hfile)
    as (w1 & Hrun & Hfs & Hocr & Hm & Hout & _).
  change 0%Z with (Z.of_nat 0).
  rewrite (bind_Return _ _ _ _ _ Hrun). exists w1. split; [reflexivity|].
  split; [|repeat split; assumption].
  rewrite Hfs. subst wb w0. unfold set_fs, add_dirs. cbn [fs].
  rewrite insert_insert_eq. reflexivity.
Qed.

(** The scanned branch up to its last step: with an engine at hand, every
    page recognised and the classification succeeding, what remains is the
    move of the text file into the directory of its label. *)
Lemma extract_and_file_reaches_move (pdf_path ocr_dir : path)
    (reader : option engine) (r : engine) (w : world)
    (doc : list page) (per_page : list (list str)) (label : str) :
  engine_for E reader w = Some r ->
  fs w !! pdf_path = Some (Pdf doc) ->
  legible E r 200 doc per_page ->
  label_of E (artifact_read per_page) = Some label ->
  let txt := ocr_dir ++ [ocr_name (basename pdf_path)] in
  exists w3 out,
    extract_and_file E pdf_path ocr_dir reader w
    = shutil_move E txt (ocr_dir ++ [label_dir label; ocr_name (basename pdf_path)]) w3
    /\ fs w3 = <[txt := Text (text_artifact per_page)]> (fs w)
    /\ stdout w3 = stdout w ++ out /\ Forall classification_line out
    /\ ocr_dir ++ [label_dir label] ∈ dirs w3
    /\ ocr_calls w3 = ocr_calls w ++ scans r 200 doc
    /\ model_calls w3
       = model_calls w ++ (if forallb is_space (artifact_read per_page) then []
                           else [(artifact_read per_page, LABELS)]).
Proof.
  intros Hengine Hdoc Hall Hlabel txt.
  destruct (engine_for_run reader r w Hengine)
    as (wa & Hboot & Hfsa & _ & Houta & Hma & Hoa).
  unfold extract_and_file. rewrite (bind_Return _ _ _ _ _ Hboot).
  assert (Hdoca : fs wa !! pdf_path = Some (Pdf doc)) by (rewrite Hfsa; exact Hdoc).
  destruct (ocr_extract_all pdf_path ocr_dir r 200 doc per_page wa Hdoca Hall)
    as (w1 & Hext & Hfs1 & Ho1 & Hm1 & Hout1).
  fold txt in Hext, Hfs1.
  rewrite (bind_Return _ _ _ _ _ Hext).
  assert (Hread : read txt w1 = (Return (artifact_read per_page), w1)).
  { unfold read. rewrite Hfs1, lookup_insert_eq. reflexivity. }
  rewrite (bind_Return _ _ _ _ _ Hread).
  pose proof (classify_text_asks (artifact_read per_page) w1) as Hasks.
  destruct (classify_text_label_of E _ label w1 Hlabel)
    as (w2 & out & Hc & Hfs2 & Hdirs2 & Hout2 & Hcls & (_ & _ & Ho2)).
  rewrite Hc in Hasks. cbn [snd] in Hasks.
  rewrite (bind_Return _ _ _ _ _ Hc). unfold bind at 1.
  pose proof (makedirs_leaf ocr_dir (replace_char 32 95 label) w2) as Hleaf.
  destruct (makedirs (path_join ocr_dir (replace_char 32 95 label)) w2)
    as [[[]|e] w3] eqn:Hmk; [|unfold makedirs in Hmk; discriminate].
  assert (Hw3 : fs w3 = fs w2 /\ stdout w3 = stdout w2
                /\ ocr_calls w3 = ocr_calls w2 /\ model_calls w3 = model_calls w2).
  { unfold makedirs in Hmk. injection Hmk as <-. repeat split. }
  destruct Hw3 as (Hfs3 & Hout3 & Ho3 & Hm3).
  exists w3, out. split.
  - unfold path_join. fold txt. unfold txt at 2. rewrite basename_join.
    rewrite <- app_assoc. reflexivity.
  - split; [congruence|]. split; [congruence|]. split; [exact Hcls|].
    split; [exact Hleaf|]. split; congruence.
Qed.

End Scanned.

(** What a call of [process_pdf] amounts to: the dispatch line, the lines of
    the classification, and either the world the branch returns or the
    handler run on the world where the branch raised. *)
Lemma process_pdf_outcome (E : env) (pdf_path repaired_dir ocr_dir : path)
    (error_dir : option path) (reader : option engine) (w : world) :
  let name := basename pdf_path in
  let run := process_pdf E pdf_path repaired_dir ocr_dir error_dir reader w in
  exists (ev : event) (branch : M unit) (out : list event),
    (ev = MsgDigital name
       /\ branch = repair_and_file E pdf_path repaired_dir
       /\ is_digital pdf_path w = (Return true, w)
     \/ ev = MsgScanned name
       /\ branch = extract_and_file E pdf_path ocr_dir reader
       /\ is_digital pdf_path w = (Return false, w))
    /\ Forall classification_line out
    /\ ((exists w1, branch (add_stdout ev w) = (Return tt, w1)
           /\ run = (Return tt, w1)
           /\ printed w w1 = ev :: out)
        \/ (exists e w1, branch (add_stdout ev w) = (Raise e, w1)
              /\ run = quarantine E pdf_path error_dir e w1
              /\ printed w (snd run) = (ev :: out) ++ [MsgError name e])).
Proof.
  intros name run.
  destruct (process_pdf_run E repaired_dir ocr_dir error_dir pdf_path reader w)
    as (ev & branch & Hcase & Hrun).
  fold name in Hcase. fold run in Hrun.
  assert (Hprints : prints classification_line (add_stdout ev w)
                      (snd (branch (add_stdout ev w)))).
  { destruct (branches_print_classification E repaired_dir ocr_dir pdf_path reader)
      as [Hd Hs].
    destruct Hcase as [(_ & -> & _)|(_ & -> & _)]; [apply Hd | apply Hs]. }
  destruct Hprints as (out & Hout & Hcls).
  exists ev, branch, out. split; [exact Hcase|]. split; [exact Hcls|].
  unfold try_except in Hrun.
  destruct (branch (add_stdout ev w)) as [[[]|e] w1] eqn:Hb; cbn [snd] in Hout.
  - left. exists w1. split; [reflexivity|]. split; [exact Hrun|].
    apply printed_app. rewrite Hout. cbn [stdout add_stdout].
    rewrite <- app_assoc. reflexivity.
  - right. exists e, w1. split; [reflexivity|]. split; [exact Hrun|].
    apply printed_app. rewrite Hrun, quarantine_stdout, Hout.
    cbn [stdout add_stdout]. rewrite <- !app_assoc. reflexivity.
Qed.




Section ScannedFailures.

Variable E : env.

Lemma legible_or_fails (r : engine) (dpi : Z) (doc : list page) :
  (exists per_page, legible E r dpi doc per_page)
  \/ (exists done failed rest per_page,
        doc = done ++ failed :: rest
        /\ legible E r dpi done per_page
        /\ recognise E r (get_pixmap failed dpi) = None).
Proof.
  induction doc as [|pg doc IH].
  - left. exists []. constructor.
  - destruct (recognise E r (get_pixmap pg dpi)) as [fr|] eqn:Hpg.
    + destruct IH as [(per_page & Hall)|(done & failed & rest & per_page & -> & Hall & Hf)].
      * left. exists (fr :: per_page). constructor; assumption.
      * right. exists (pg :: done), failed, rest, (fr :: per_page).
        split; [reflexivity|]. split; [constructor; assumption | exact Hf].
    + right. exists [], pg, doc, []. split; [reflexivity|].
      split; [constructor | exact Hpg].
Qed.

Lemma extract_and_file_no_engine (pdf_path ocr_dir : path)
    (reader : option engine) (w : world) :
  engine_for E reader w = None ->
  exists w1, extract_and_file E pdf_path ocr_dir reader w = (Raise EngineError, w1).
Proof.
  destruct reader as [r|]; [discriminate|]. unfold engine_for, boot_engine.
  intros He. unfold extract_and_file. unfold bind at 1. unfold easyocr_Reader.
  destruct (reader_boot E (reader_attempts w)); [discriminate|].
  eexists. reflexivity.
Qed.

(** A file that does not open as a document stops the extraction before the
    text file is created. *)
Lemma ocr_extract_unopened (pdf_path ocr_dir : path) (r : engine) (dpi : Z)
    (w : world) :
  (forall doc, fs w !! pdf_path <> Some (Pdf doc)) ->
  exists w1,
    ocr_extract E pdf_path ocr_dir r dpi w = (Raise (FileDataError pdf_path), w1)
    /\ fs w1 = fs w /\ stdout w1 = stdout w
    /\ model_calls w1 = model_calls w /\ ocr_calls w1 = ocr_calls w
    /\ dirs w1 = ancestors ocr_dir ∪ dirs w.
Proof.
  intros Hno. unfold ocr_extract. unfold bind at 1. unfold makedirs at 1.
  set (w0 := add_dirs _ w). unfold bind at 1. unfold fitz_open.
  change (fs w0) with (fs w).
  destruct (fs w !! pdf_path) as [[doc| |]|] eqn:Hf;
    [exfalso; exact (Hno doc eq_refl) | | |];
    (exists w0; split; [reflexivity | repeat split]).
Qed.

Lemma extract_and_file_unopened (pdf_path ocr_dir : path)
    (reader : option engine) (r : engine) (w : world) :
  engine_for E reader w = Some r ->
  (forall doc, fs w !! pdf_path <> Some (Pdf doc)) ->
  exists w1,
    extract_and_file E pdf_path ocr_dir reader w = (Raise (FileDataError pdf_path), w1)
    /\ fs w1 = fs w /\ stdout w1 = stdout w
    /\ model_calls w1 = model_calls w /\ ocr_calls w1 = ocr_calls w
    /\ dirs w1 = ancestors ocr_dir ∪ dirs w.
Proof.
  intros He Hno.
  destruct (engine_for_run E reader r w He)
    as (wa & Hboot & Hfsa & Hda & Houta & Hma & Hoa).
  unfold extract_and_file. rewrite (bind_Return _ _ _ _ _ Hboot).
  assert (Hnoa : forall doc, fs wa !! pdf_path <> Some (Pdf doc))
    by (rewrite Hfsa; exact Hno).
  destruct (ocr_extract_unopened pdf_path ocr_dir r 200 wa Hnoa)
    as (w1 & Hrun & Hfs & Hout & Hm & Ho & Hd).
  exists w1. rewrite (bind_Raise _ _ _ _ _ Hrun). split; [reflexivity|].
  repeat split; congruence.
Qed.

Lemma ocr_extract_fails_at (pdf_path ocr_dir : path) (r : engine) (dpi : Z)
    (w : world) (done : list page) (failed : page) (rest : list page)
    (per_page : list (list str)) :
  fs w !! pdf_path = Some (Pdf (done ++ failed :: rest)) ->
  legible E r dpi done per_page ->
  recognise E r (get_pixmap failed dpi) = None ->
  exists w1, ocr_extract E pdf_path ocr_dir r dpi w = (Raise EngineError, w1).
Proof.
  intros Hdoc Hdone Hfail.
  unfold ocr_extract. unfold bind at 1. unfold makedirs.
  set (w0 := add_dirs _ w). unfold bind at 1. unfold fitz_open.
  change (fs w0) with (fs w). rewrite Hdoc.
  unfold bind at 1. unfold open_w.
  set (txt := path_join ocr_dir _).
  set (wb := set_fs _ w0).
  assert (Hfile : fs wb !! txt = Some (Text [])) by apply lookup_insert_eq.
  destruct (ocr_pages_fails_at E txt r dpi failed rest done Hfail per_page 0 [] wb
              Hdone Hfile) as (w1 & Hrun & _).
  change 0%Z with (Z.of_nat 0). exists w1.
  rewrite (bind_Raise _ _ _ _ _ Hrun). reflexivity.
Qed.

Lemma extract_and_file_fails_at (pdf_path ocr_dir : path)
    (reader : option engine) (r : engine) (w : world)
    (done : list page) (failed : page) (rest : list page)
    (per_page : list (list str)) :
  engine_for E reader w = Some r ->
  fs w !! pdf_path = Some (Pdf (done ++ failed :: rest)) ->
  legible E r 200 done per_page ->
  recognise E r (get_pixmap failed 200) = None ->
  exists w1, extract_and_file E pdf_path ocr_dir reader w = (Raise EngineError, w1).
Proof.
  intros He Hdoc Hdone Hfail.
  destruct (engine_for_run E reader r w He) as (wa & Hboot & Hfsa & _).
  unfold extract_and_file. rewrite (bind_Return _ _ _ _ _ Hboot).
  assert (Hdoca : fs wa !! pdf_path = Some (Pdf (done ++ failed :: rest)))
    by (rewrite Hfsa; exact Hdoc).
  destruct (ocr_extract_fails_at pdf_path ocr_dir r 200 wa done failed rest per_page
              Hdoca Hdone Hfail) as (w1 & Hrun).
  exists w1. rewrite (bind_Raise _ _ _ _ _ Hrun). reflexivity.
Qed.

Lemma extract_and_file_no_label (pdf_path ocr_dir : path)
    (reader : option engine) (r : engine) (w : world)
    (doc : list page) (per_page : list (list str)) :
  engine_for E reader w = Some r ->
  fs w !! pdf_path = Some (Pdf doc) ->
  legible E r 200 doc per_page ->
  label_of E (artifact_read per_page) = None ->
  exists e w1, extract_and_file E pdf_path ocr_dir reader w = (Raise e, w1).
Proof.
  intros He Hdoc Hall Hlabel.
  destruct (engine_for_run E reader r w He) as (wa & Hboot & Hfsa & _).
  unfold extract_and_file. rewrite (bind_Return _ _ _ _ _ Hboot).
  assert (Hdoca : fs wa !! pdf_path = Some (Pdf doc)) by (rewrite Hfsa; exact Hdoc).
  destruct (ocr_extract_all E pdf_path ocr_dir r 200 doc per_page wa Hdoca Hall)
    as (w1 & Hext & Hfs1 & _).
  rewrite (bind_Return _ _ _ _ _ Hext).
  set (txt := ocr_dir ++ [ocr_name (basename pdf_path)]) in *.
  assert (Hread : read txt w1 = (Return (artifact_read per_page), w1)).
  { unfold read. rewrite Hfs1, lookup_insert_eq. reflexivity. }
  rewrite (bind_Return _ _ _ _ _ Hread).
  destruct (classify_text_no_label E _ w1 Hlabel) as (e & w2 & Hc).
  exists e, w2. rewrite (bind_Raise _ _ _ _ _ Hc). reflexivity.
Qed.

(** The scanned branch returns only along one path: an engine at hand, the
    document opened, every page recognised, the text classified and the file
    moved. *)
Lemma extract_and_file_returns (pdf_path ocr_dir : path)
    (reader : option engine) (w w' : world) :
  extract_and_file E pdf_path ocr_dir reader w = (Return tt, w') ->
  exists r doc per_page label,
    engine_for E reader w = Some r
    /\ fs w !! pdf_path = Some (Pdf doc)
    /\ legible E r 200 doc per_page
    /\ label_of E (artifact_read per_page) = Some label
    /\ fs w' = <[ocr_dir ++ [label_dir label; ocr_name (basename pdf_path)] :=
                  Text (text_artifact per_page)]>
                 (delete (ocr_dir ++ [ocr_name (basename pdf_path)]) (fs w))
    /\ ocr_calls w' = ocr_calls w ++ scans r 200 doc
    /\ model_calls w'
       = model_calls w ++ (if forallb is_space (artifact_read per_page) then []
                           else [(artifact_read per_page, LABELS)]).
Proof.
  intros Hret.
  destruct (engine_for E reader w) as [r|] eqn:He;
    [|destruct (extract_and_file_no_engine pdf_path ocr_dir reader w He) as (w1 & H);
      congruence].
  destruct (fs w !! pdf_path) as [f|] eqn:Hf.
  2: { destruct (extract_and_file_unopened pdf_path ocr_dir reader r w He)
         as (w1 & H & _); [rewrite Hf; discriminate | congruence]. }
  destruct f as [doc|c|raw].
  2,3: destruct (extract_and_file_unopened pdf_path ocr_dir reader r w He)
         as (w1 & H & _); [rewrite Hf; discriminate | congruence].
  destruct (legible_or_fails r 200 doc)
    as [(per_page & Hall)|(done & failed & rest & per_page & -> & Hdone & Hfail)].
  2: { destruct (extract_and_file_fails_at pdf_path ocr_dir reader r w done failed
                   rest per_page He Hf Hdone Hfail) as (w1 & H). congruence. }
  destruct (label_of E (artifact_read per_page)) as [label|] eqn:Hlabel.
  2: { destruct (extract_and_file_no_label pdf_path ocr_dir reader r w doc per_page
                   He Hf Hall Hlabel) as (e & w1 & H). congruence. }
  destruct (extract_and_file_reaches_move E pdf_path ocr_dir reader r w doc per_page
              label He Hf Hall Hlabel)
    as (w3 & out & Hrun & Hfs3 & _ & _ & _ & Hocr & Hasked).
  rewrite Hrun in Hret. unfold shutil_move in Hret.
  rewrite Hfs3, lookup_insert_eq in Hret.
  destruct (move_ok E _ _); [|discriminate]. injection Hret as <-.
  exists r, doc, per_page, label. cbn [fs set_fs ocr_calls model_calls].
  split; [reflexivity|]. split; [reflexivity|]. split; [exact Hall|].
  split; [exact Hlabel|]. split; [rewrite Hfs3, delete_insert_eq; reflexivity|].
  split; assumption.
Qed.

End ScannedFailures.

(** X8. On the scanned path the label always comes from the model: when a
    document dispatched as scanned is processed without an error being
    reported, the model was asked exactly once, on the text of the page
    blocks of the recognised document as the read in text mode returns it,
    and this text is not blank, so the label [unknown] of blank text is never
    given to a scanned document. *)
Theorem scanned_label_comes_from_model (E : env)
    (pdf_path repaired_dir ocr_dir : path) (error_dir : option path)
    (reader : option engine) (w : world) :
  is_digital pdf_path w = (Return false, w) ->
  let w' := snd (process_pdf E pdf_path repaired_dir ocr_dir error_dir reader w) in
  errored (printed w w') = [] ->
  exists r doc per_page,
    fs w !! pdf_path = Some (Pdf doc)
    /\ legible E r 200 doc per_page
    /\ forallb is_space (artifact_read per_page) = false
    /\ asked w w' = [(artifact_read per_page, LABELS)].
Proof.
  intros Hd w' Hquiet.
  destruct (process_pdf_outcome E pdf_path repaired_dir ocr_dir error_dir reader w)
    as (ev & branch & out & Hcase & Hcls & Hrun).
  destruct Hcase as [(_ & _ & Hdig)|(Hev & -> & _)]; [congruence|].
  destruct Hrun as [(w1 & Hb & Hrun & _)|(e & w1 & _ & _ & Hp)].
  2: { exfalso. fold w' in Hp. rewrite Hp, errored_app in Hquiet.
       apply app_eq_nil in Hquiet. destruct Hquiet as [_ Hquiet]. discriminate. }
  assert (Hw' : w' = w1) by (subst w'; rewrite Hrun; reflexivity).
  destruct (extract_and_file_returns E pdf_path ocr_dir reader _ w1 Hb)
    as (r & doc & per_page & label & _ & Hdoc & Hall & _ & _ & _ & Hasked).
  cbn [fs add_stdout model_calls] in Hdoc, Hasked.
  assert (Hblank : forallb is_space (artifact_read per_page) = false).
  { destruct Hall as [|pg fr pages frs _ _]; [|apply artifact_read_not_blank].
    rewrite (is_digital_opened _ _ _ Hdoc) in Hd. discriminate Hd. }
  exists r, doc, per_page. split; [exact Hdoc|]. split; [exact Hall|].
  split; [exact Hblank|].
  unfold asked. rewrite Hw', Hasked, Hblank. apply drop_app_length.
Qed.

Lemma scanned_label_comes_from_model_witness :
  let w := Sample.world_of [(lit "deed.pdf", Sample.scan)] in
  let w' := snd (process_pdf Sample.all_good
                   (path_join Sample.input_dir (lit "deed.pdf"))
                   Sample.repaired_dir Sample.ocr_dir (Some Sample.error_dir)
                   None w) in
  exists r doc per_page,
    fs w !! path_join Sample.input_dir (lit "deed.pdf") = Some (Pdf doc)
    /\ legible Sample.all_good r 200 doc per_page
    /\ forallb is_space (artifact_read per_page) = false
    /\ asked w w' = [(artifact_read per_page, LABELS)].
Proof.
  intros w w'.
  apply (scanned_label_comes_from_model Sample.all_good
           (path_join Sample.input_dir (lit "deed.pdf"))
           Sample.repaired_dir Sample.ocr_dir (Some Sample.error_dir) None w);
    vm_compute; reflexivity.
Defined.






(** ** The batch at its edges *)





Lemma layout_error_dir_set (input_dir repaired_dir ocr_dir error_dir : path) :
  layout_ok input_dir repaired_dir ocr_dir error_dir -> error_dir <> [].
Proof.
  intros (_ & _ & (_ & H) & _) ->. apply H. apply prefix_nil.
Qed.

(** ** The directories a run makes *)

(** The stages preserve every relation on the directories that the calls of
    [os.makedirs] preserve. *)
Section Directories.

Variable E : env.
Variable R : world -> world -> Prop.
Context `{!Reflexive R, !Transitive R}.
Hypothesis R_same : forall w w', dirs w' = dirs w -> R w w'.

Ltac same := run_primitive; apply R_same; reflexivity.

Ltac chain :=
  repeat first
    [ apply preserves_ret; exact _
    | apply preserves_raise; exact _
    | assumption
    | apply preserves_bind; [exact _ | | intros ?]
    | apply preserves_try; [exact _ | | intros ?]
    | same ].

Lemma classify_text_dirs (text : str) : preserves R (classify_text E text).
Proof. unfold classify_text. destruct (negb _); chain. Qed.

Lemma ghostscript_repair_dirs (pdf_path repaired_dir : path) :
  preserves R (makedirs repaired_dir) ->
  preserves R (ghostscript_repair E pdf_path repaired_dir).
Proof.
  intros Hr. unfold ghostscript_repair.
  apply preserves_bind; [exact _ | exact Hr |]. intros _. cbv zeta.
  destruct (probe E gs_candidates); chain.
Qed.

Lemma ocr_pages_dirs (txt_path : path) (reader : engine) (dpi : Z)
    (pages : list page) :
  forall page_num, preserves R (ocr_pages E txt_path reader dpi pages page_num).
Proof.
  induction pages as [|pg pages IH]; intros page_num; [chain|].
  rewrite ocr_pages_cons.
  apply preserves_bind; [exact _ | same |]. intros ocr_result.
  apply preserves_bind; [exact _ | same |]. intros _.
  apply preserves_bind; [exact _ | same |]. intros _.
  apply preserves_bind; [exact _ | same |]. intros _.
  apply IH.
Qed.

Lemma process_pdf_dirs (pdf_path repaired_dir ocr_dir : path)
    (error_dir : option path) (reader : option engine) :
  preserves R (makedirs repaired_dir) ->
  (forall label, preserves R (makedirs (path_join repaired_dir label))) ->
  preserves R (makedirs ocr_dir) ->
  (forall label, preserves R (makedirs (path_join ocr_dir label))) ->
  (forall dir, error_dir = Some dir -> preserves R (makedirs dir)) ->
  preserves R (process_pdf E pdf_path repaired_dir ocr_dir error_dir reader).
Proof.
  intros Hr Hrl Ho Hol He.
  unfold process_pdf. apply preserves_try; [exact _ | |].
  - unfold process_body.
    apply preserves_bind; [exact _ | apply is_digital_preserves; exact _ |].
    intros digital. destruct digital.
    + apply preserves_bind; [exact _ | same |]. intros _.
      unfold repair_and_file.
      apply preserves_bind;
        [exact _ | apply ghostscript_repair_dirs; exact Hr |]. intros p.
      apply preserves_bind; [exact _ | same |]. intros doc.
      apply preserves_bind; [exact _ | apply classify_text_dirs |]. intros label.
      apply preserves_bind; [exact _ | apply Hrl |]. intros _. same.
    + apply preserves_bind; [exact _ | same |]. intros _.
      unfold extract_and_file.
      apply preserves_bind; [exact _ | destruct reader; chain |]. intros r.
      apply preserves_bind; [exact _ | |].
      { unfold ocr_extract.
        apply preserves_bind; [exact _ | exact Ho |]. intros _.
        apply preserves_bind; [exact _ | same |]. intros doc.
        apply preserves_bind; [exact _ | same |]. intros _.
        apply preserves_bind; [exact _ | apply ocr_pages_dirs |]. intros _.
        apply preserves_ret; exact _. }
      intros txt.
      apply preserves_bind; [exact _ | same |]. intros text_content.
      apply preserves_bind; [exact _ | apply classify_text_dirs |]. intros label.
      apply preserves_bind; [exact _ | apply Hol |]. intros _. same.
  - intros e. unfold quarantine.
    apply preserves_bind; [exact _ | same |]. intros _.
    destruct error_dir as [dir|]; [|chain]. destruct (truthy dir); [|chain].
    apply preserves_bind; [exact _ | apply He; reflexivity |]. intros _.
    apply preserves_try; [exact _ | same |]. intros _. chain.
Qed.

Lemma main_loop_dirs (input_dir repaired_dir ocr_dir : path)
    (error_dir : option path) (limit : option Z) (reader : option engine)
    (files : list str) :
  preserves R (makedirs repaired_dir) ->
  (forall label, preserves R (makedirs (path_join repaired_dir label))) ->
  preserves R (makedirs ocr_dir) ->
  (forall label, preserves R (makedirs (path_join ocr_dir label))) ->
  (forall dir, error_dir = Some dir -> preserves R (makedirs dir)) ->
  forall count,
    preserves R
      (main_loop E input_dir repaired_dir ocr_dir error_dir limit reader files count).
Proof.
  intros Hr Hrl Ho Hol He.
  induction files as [|filename rest IH]; intros count; cbn [main_loop]; [chain|].
  destruct (negb (is_pdf_name filename)); [apply IH|].
  destruct (match limit with Some l => (count >=? l)%Z | None => false end); [chain|].
  apply preserves_bind; [exact _ | apply process_pdf_dirs; assumption |].
  intros _. apply IH.
Qed.

Lemma main_dirs (input_dir repaired_dir ocr_dir : path)
    (error_dir : option path) (limit : option Z) :
  preserves R (makedirs repaired_dir) ->
  (forall label, preserves R (makedirs (path_join repaired_dir label))) ->
  preserves R (makedirs ocr_dir) ->
  (forall label, preserves R (makedirs (path_join ocr_dir label))) ->
  (forall dir, error_dir = Some dir -> preserves R (makedirs dir)) ->
  preserves R (main E input_dir repaired_dir ocr_dir error_dir limit).
Proof.
  intros Hr Hrl Ho Hol He.
  unfold main. apply preserves_bind; [exact _ | same |]. intros exists_.
  destruct (negb exists_); [chain|].
  apply preserves_bind; [exact _ | exact Hr |]. intros _.
  apply preserves_bind; [exact _ | exact Ho |]. intros _.
  apply preserves_bind; [exact _ | |].
  { destruct error_dir as [dir|]; [destruct (truthy dir)|]; chain.
    apply He. reflexivity. }
  intros _.
  apply preserves_bind; [exact _ | chain |]. intros reader.
  apply preserves_bind; [exact _ | same |]. intros names.
  apply preserves_bind; [exact _ | apply main_loop_dirs; assumption |].
  intros count. chain.
Qed.

End Directories.

#[local] Instance dirs_grow_refl : Reflexive dirs_grow.
Proof. intros w. unfold dirs_grow. set_solver. Qed.

#[local] Instance dirs_grow_trans : Transitive dirs_grow.
Proof. intros w1 w2 w3. unfold dirs_grow. set_solver. Qed.

Lemma makedirs_grows (p : path) : preserves dirs_grow (makedirs p).
Proof. intros w. unfold makedirs, dirs_grow, add_dirs. cbn [snd dirs]. set_solver. Qed.

(** No run removes a directory. *)
Lemma main_grows (E : env) (input_dir repaired_dir ocr_dir : path)
    (error_dir : option path) (limit : option Z) :
  preserves dirs_grow (main E input_dir repaired_dir ocr_dir error_dir limit).
Proof.
  apply main_dirs; try exact _; intros; try apply makedirs_grows.
  unfold dirs_grow. match goal with H : dirs _ = dirs _ |- _ => rewrite H end.
  reflexivity.
Qed.

#[local] Instance made_under_refl (repaired_dir ocr_dir : path)
    (error_dir : option path) : Reflexive (made_under repaired_dir ocr_dir error_dir).
Proof. intros w p Hp. left. exact Hp. Qed.

#[local] Instance made_under_trans (repaired_dir ocr_dir : path)
    (error_dir : option path) : Transitive (made_under repaired_dir ocr_dir error_dir).
Proof.
  intros w1 w2 w3 H12 H23 p Hp.
  destruct (H23 p Hp) as [H|H]; [apply H12; exact H | right; exact H].
Qed.

Lemma makedirs_made_under (repaired_dir ocr_dir : path) (error_dir : option path)
    (root : path) (label : str) (p : path) :
  root = repaired_dir \/ root = ocr_dir \/ error_dir = Some root ->
  p `prefix_of` root ++ [label] ->
  preserves (made_under repaired_dir ocr_dir error_dir) (makedirs p).
Proof.
  intros Hroot Hp w q Hq. unfold makedirs, add_dirs in Hq. cbn [snd dirs] in Hq.
  apply elem_of_union in Hq. destruct Hq as [Hq|Hq]; [|left; exact Hq].
  right. exists root, label. split; [exact Hroot|].
  etransitivity; [apply elem_of_ancestors; exact Hq | exact Hp].
Qed.

(** The directories a run makes lie at or above its output roots and the
    label directories. *)
Lemma main_made_under (E : env) (input_dir repaired_dir ocr_dir : path)
    (error_dir : option path) (limit : option Z) :
  preserves (made_under repaired_dir ocr_dir error_dir)
    (main E input_dir repaired_dir ocr_dir error_dir limit).
Proof.
  apply main_dirs; try exact _.
  - intros w w' H p Hp. left. rewrite <- H. exact Hp.
  - apply (makedirs_made_under _ _ _ repaired_dir []); [auto|].
    apply prefix_app_r. reflexivity.
  - intros label. apply (makedirs_made_under _ _ _ repaired_dir label); [auto|].
    reflexivity.
  - apply (makedirs_made_under _ _ _ ocr_dir []); [auto|].
    apply prefix_app_r. reflexivity.
  - intros label. apply (makedirs_made_under _ _ _ ocr_dir label); [auto|].
    reflexivity.
  - intros dir Hdir. apply (makedirs_made_under _ _ _ dir []); [auto|].
    apply prefix_app_r. reflexivity.
Qed.

(** With the output roots outside the input directory, a run leaves the
    listing of the input directory as it was. *)
Lemma main_keeps_queue (E : env) (input_dir repaired_dir ocr_dir error_dir : path)
    (limit : option Z) (w : world) :
  layout_ok input_dir repaired_dir ocr_dir error_dir ->
  let w' := snd (main E input_dir repaired_dir ocr_dir (Some error_dir) limit w) in
  (forall x, fs w' !! (input_dir ++ x) = fs w !! (input_dir ++ x)) ->
  pdf_queue input_dir w' = pdf_queue input_dir w.
Proof.
  intros (Hir & Hio & Hie & _) w' Hfs.
  pose proof (main_grows E input_dir repaired_dir ocr_dir (Some error_dir) limit w)
    as Hgrow.
  pose proof (main_made_under E input_dir repaired_dir ocr_dir (Some error_dir)
                limit w) as Hmade.
  fold w' in Hgrow, Hmade.
  unfold pdf_queue. f_equal. f_equal. apply listing_same. intros name.
  rewrite !elem_of_listing.
  split; intros [rest [H|H]]; exists rest.
  - left. rewrite <- (Hfs (name :: rest)). exact H.
  - right. destruct (Hmade _ H) as [Hw|(root & label & Hroot & [k Hk])]; [exact Hw|].
    exfalso. rewrite <- app_assoc in Hk.
    destruct Hroot as [->|[->|Hroot]]; [| |injection Hroot as <-].
    + exact (separate_apart _ _ _ _ Hir (eq_sym Hk)).
    + exact (separate_apart _ _ _ _ Hio (eq_sym Hk)).
    + exact (separate_apart _ _ _ _ Hie (eq_sym Hk)).
  - left. rewrite (Hfs (name :: rest)). exact H.
  - right. apply Hgrow. exact H.
Qed.

(** X14. A run consumes nothing: with the input directory and the three
    output roots pairwise separate, every path under the input directory
    holds after the run what it held before, whether its document was filed,
    quarantined or lost, so that a second run finds the same queue. *)
Theorem run_leaves_input_directory_untouched (E : env)
    (input_dir repaired_dir ocr_dir error_dir : path) (limit : option Z)
    (w : world) :
  layout_ok input_dir repaired_dir ocr_dir error_dir ->
  input_dir ∈ dirs w ->
  let w' := snd (main E input_dir repaired_dir ocr_dir (Some error_dir) limit w) in
  (forall x, fs w' !! (input_dir ++ x) = fs w !! (input_dir ++ x))
  /\ pdf_queue input_dir w' = pdf_queue input_dir w.
Proof.
  intros Hlayout Hdir w'.
  destruct (batch_quarantine E input_dir repaired_dir ocr_dir error_dir limit Hlayout
              (layout_error_dir_set _ _ _ _ Hlayout) w Hdir)
    as (w1 & out & Hmain & _ & _ & Hsame & _).
  assert (Hfs : forall x, fs w' !! (input_dir ++ x) = fs w !! (input_dir ++ x)).
  { intros x. subst w'. rewrite Hmain. exact (Hsame x). }
  split; [exact Hfs|].
  apply main_keeps_queue; assumption.
Qed.

Lemma run_leaves_input_directory_untouched_witness :
  let w' := snd (main Sample.no_copy Sample.input_dir Sample.repaired_dir
                   Sample.ocr_dir (Some Sample.error_dir) None Sample.five) in
  pdf_queue Sample.input_dir w' = pdf_queue Sample.input_dir Sample.five.
Proof.
  intros w'.
  refine (proj2 (run_leaves_input_directory_untouched Sample.no_copy Sample.input_dir
                   Sample.repaired_dir Sample.ocr_dir Sample.error_dir None
                   Sample.five layout_sample _)).
  vm_compute. reflexivity.
Defined.

#[local] Instance engine_idle_refl : Reflexive engine_idle.
Proof. intros w. repeat split. Qed.

#[local] Instance engine_idle_trans : Transitive engine_idle.
Proof.
  intros w1 w2 w3 (A1 & B1 & C1) (A2 & B2 & C2).
  unfold engine_idle. repeat split; congruence.
Qed.

Lemma engine_idle_quiet (w w' : world) :
  fs w' = fs w -> stdout w' = stdout w ->
  reader_attempts w' = reader_attempts w -> readers w' = readers w ->
  ocr_calls w' = ocr_calls w -> engine_idle w w'.
Proof. intros _ _ H1 H2 H3. repeat split; assumption. Qed.

Lemma engine_idle_of_eq (w w' : world) :
  reader_attempts w' = reader_attempts w -> readers w' = readers w ->
  ocr_calls w' = ocr_calls w -> engine_idle w w'.
Proof. intros H1 H2 H3. repeat split; assumption. Qed.

Ltac idle_primitive := run_primitive; apply engine_idle_of_eq; reflexivity.

(** X15. A document dispatched as digital never touches the recognition
    engine: whatever the repair, the model and the move do, no engine is
    constructed and no page is recognised during its processing. *)
Theorem digital_document_leaves_engine_idle (E : env)
    (pdf_path repaired_dir ocr_dir : path) (error_dir : option path)
    (reader : option engine) (w : world) :
  is_digital pdf_path w = (Return true, w) ->
  engine_idle w (snd (process_pdf E pdf_path repaired_dir ocr_dir error_dir reader w)).
Proof.
  intros Hd. rewrite (process_pdf_digital E _ _ _ _ _ _ Hd).
  set (w0 := add_stdout (MsgDigital (basename pdf_path)) w).
  assert (H0 : engine_idle w w0) by (apply engine_idle_of_eq; reflexivity).
  transitivity w0; [exact H0|].
  apply (preserves_try engine_idle _).
  - apply repair_and_file_preserves; try exact _; try apply engine_idle_quiet.
    + intros l s. idle_primitive.
    + intros gs. idle_primitive.
    + intros label. idle_primitive.
  - intros e. apply quarantine_preserves; try exact _; try apply engine_idle_quiet.
    + idle_primitive.
    + intros dir _. idle_primitive.
Qed.

Lemma digital_document_leaves_engine_idle_witness :
  let w := Sample.world_of [(lit "report.pdf", Sample.typed)] in
  engine_idle w
    (snd (process_pdf Sample.nothing_works
            (path_join Sample.input_dir (lit "report.pdf"))
            Sample.repaired_dir Sample.ocr_dir (Some Sample.error_dir) None w)).
Proof.
  intros w.
  apply (digital_document_leaves_engine_idle Sample.nothing_works
           (path_join Sample.input_dir (lit "report.pdf"))
           Sample.repaired_dir Sample.ocr_dir (Some Sample.error_dir) None w).
  vm_compute. reflexivity.
Defined.



(** * Properties of the text cleaner *)

Section CleanerText.

Import Cleaning.

Lemma universal_step (n : nat) :
  forall s, length s <= n ->
    ~ In 13%N (universal s) /\ (~ In 13%N s -> universal s = s).
Proof.
  induction n as [|n IH]; intros s Hlen.
  - destruct s; [|simpl in Hlen; lia]. split; [intros [] | reflexivity].
  - destruct s as [|c rest]; [split; [intros [] | reflexivity]|].
    simpl in Hlen. cbn [universal].
    destruct (N.eqb_spec c 13) as [->|Hc].
    + split.
      * destruct rest as [|d rest'].
        -- intros [H|[]]. discriminate H.
        -- simpl in Hlen. destruct (d =? 10)%N.
           ++ intros [H|H]; [discriminate H|]. apply (IH rest'); [lia | exact H].
           ++ intros [H|H]; [discriminate H|].
              apply (IH (d :: rest')); [simpl; lia | exact H].
      * intros H. exfalso. apply H. left. reflexivity.
    + split.
      * intros [H|H]; [congruence|]. apply (IH rest); [lia | exact H].
      * intros H. f_equal. apply (IH rest); [lia|]. intros Hin. apply H. right. exact Hin.
Qed.

Lemma universal_no_cr (s : str) : ~ In 13%N (universal s).
Proof. apply (universal_step (length s) s). lia. Qed.

Lemma universal_id (s : str) : ~ In 13%N s -> universal s = s.
Proof. apply (universal_step (length s) s). lia. Qed.

Lemma concat_split_lines (s : str) : concat (split_lines s) = s.
Proof.
  induction s as [|c rest IH]; [reflexivity|]. cbn [split_lines].
  destruct (c =? 10)%N.
  - cbn [concat]. rewrite IH. reflexivity.
  - destruct (split_lines rest) as [|line lines]; cbn [concat] in *.
    + rewrite <- IH. reflexivity.
    + rewrite <- IH. reflexivity.
Qed.

Lemma split_lines_no_lf (s : str) :
  s <> [] -> ~ In 10%N s -> split_lines s = [s].
Proof.
  induction s as [|c rest IH]; [congruence|]. intros _ Hno. cbn [split_lines].
  destruct (N.eqb_spec c 10) as [->|Hc]; [exfalso; apply Hno; left; reflexivity|].
  destruct rest as [|d rest']; [reflexivity|].
  rewrite IH; [reflexivity | discriminate |].
  intros H. apply Hno. right. exact H.
Qed.

Lemma split_lines_terminated (body rest : str) :
  ~ In 10%N body ->
  split_lines (body ++ 10%N :: rest) = (body ++ [10%N]) :: split_lines rest.
Proof.
  induction body as [|c body IH]; intros Hno; [reflexivity|].
  cbn [app split_lines].
  destruct (N.eqb_spec c 10) as [->|Hc]; [exfalso; apply Hno; left; reflexivity|].
  rewrite IH; [reflexivity|]. intros H. apply Hno. right. exact H.
Qed.

Lemma split_lines_concat (lines : list str) :
  lines_wf lines -> split_lines (concat lines) = lines.
Proof.
  induction 1 as [|line Hne Hno|line rest (body & -> & Hno) _ IH].
  - reflexivity.
  - cbn [concat]. rewrite app_nil_r. apply split_lines_no_lf; assumption.
  - cbn [concat]. rewrite <- app_assoc. cbn [app].
    rewrite split_lines_terminated by exact Hno. rewrite IH. reflexivity.
Qed.

Lemma split_lines_wf (s : str) : lines_wf (split_lines s).
Proof.
  induction s as [|c rest IH]; [constructor|]. cbn [split_lines].
  destruct (N.eqb_spec c 10) as [->|Hc].
  - apply wf_cons; [|exact IH]. exists []. split; [reflexivity | intros []].
  - destruct (split_lines rest) as [|line lines].
    + apply wf_last; [discriminate|]. intros [H|[]]. congruence.
    + inversion IH as [|l Hne Hno|l r (body & Hb & Hno) Hr]; subst.
      * apply wf_last; [discriminate|]. intros [H|H]; [congruence | exact (Hno H)].
      * apply wf_cons; [|exact Hr]. exists (c :: body). split; [reflexivity|].
        intros [H|H]; [congruence | exact (Hno H)].
Qed.

Lemma marker_terminated : terminated marker.
Proof.
  exists (lit "#"). split; [reflexivity|]. vm_compute. intros [H|[]]. discriminate H.
Qed.

Lemma marker_content : is_content marker = true.
Proof. vm_compute. reflexivity. Qed.

Lemma cleaned_wf (lines : list str) :
  lines_wf lines -> forall b, lines_wf (cleaned lines b).
Proof.
  induction 1 as [|line Hne Hno|line rest Hterm _ IH]; intros b.
  - constructor.
  - cbn [cleaned]. destruct (is_header (strip line)).
    + destruct b; [constructor|]. apply wf_cons; [apply marker_terminated | constructor].
    + destruct (truthy (strip line)); [apply wf_last; assumption | constructor].
  - cbn [cleaned]. destruct (is_header (strip line)).
    + destruct b; [apply IH|]. apply wf_cons; [apply marker_terminated | apply IH].
    + destruct (truthy (strip line)); [|apply IH].
      apply wf_cons; [exact Hterm | apply IH].
Qed.

Lemma cleaned_pieces (lines : list str) :
  forall b piece, In piece (cleaned lines b) ->
    (piece = marker \/ In piece lines) /\ is_content piece = true.
Proof.
  induction lines as [|line rest IH]; intros b piece; [intros []|].
  cbn [cleaned]. destruct (is_header (strip line)) eqn:Hh.
  - destruct b.
    + intros H. destruct (IH _ _ H) as [[H1|H1] H2]; (split; [|exact H2]);
        [left; exact H1 | right; right; exact H1].
    + intros [<-|H]; [split; [left; reflexivity | apply marker_content]|].
      destruct (IH _ _ H) as [[H1|H1] H2]; (split; [|exact H2]);
        [left; exact H1 | right; right; exact H1].
  - destruct (truthy (strip line)) eqn:Ht.
    + intros [<-|H].
      * split; [right; left; reflexivity|]. unfold is_content. rewrite Hh, Ht. reflexivity.
      * destruct (IH _ _ H) as [[H1|H1] H2]; (split; [|exact H2]);
          [left; exact H1 | right; right; exact H1].
    + intros H. destruct (IH _ _ H) as [[H1|H1] H2]; (split; [|exact H2]);
        [left; exact H1 | right; right; exact H1].
Qed.

Lemma cleaned_content (lines : list str) :
  Forall (fun line => is_content line = true) lines ->
  forall b, cleaned lines b = lines.
Proof.
  induction 1 as [|line rest Hline _ IH]; intros b; [reflexivity|].
  cbn [cleaned]. unfold is_content in Hline.
  apply andb_true_iff in Hline. destruct Hline as [Hh Ht].
  apply negb_true_iff in Hh. rewrite Hh, Ht, IH. reflexivity.
Qed.

Lemma clean_text_no_cr (content : str) : ~ In 13%N (clean_text content).
Proof.
  unfold clean_text. intros H. apply in_concat in H. destruct H as (piece & Hp & Hin).
  apply cleaned_pieces in Hp. destruct Hp as [[->|Hp] _].
  - vm_compute in Hin. destruct Hin as [H|[H|[]]]; discriminate H.
  - apply (universal_no_cr content). rewrite <- (concat_split_lines (universal content)).
    apply in_concat. exists piece. split; assumption.
Qed.

End CleanerText.

Section CleanerLines.

Import Cleaning.

Lemma split_lines_clean_text (content : str) :
  split_lines (clean_text content) = cleaned (split_lines (universal content)) false.
Proof. apply split_lines_concat, cleaned_wf, split_lines_wf. Qed.

(** X17. A cleaned text holds no blank line and no header line: each of
    its lines is the marker line [#] or a line of the text that was read,
    and none is blank, holds [---] or starts with [Page ]. *)
Theorem cleaned_text_holds_content_only (content line : str) :
  In line (split_lines (clean_text content)) ->
  (line = marker \/ In line (split_lines (universal content)))
  /\ truthy (strip line) = true
  /\ contains (strip line) (lit "---") = false
  /\ startswith (strip line) (lit "Page ") = false.
Proof.
  rewrite split_lines_clean_text. intros H. apply cleaned_pieces in H.
  destruct H as [Hfrom Hc]. split; [exact Hfrom|].
  unfold is_content, is_header in Hc. apply andb_true_iff in Hc.
  destruct Hc as [Hh Ht]. apply negb_true_iff, orb_false_iff in Hh.
  destruct Hh as [H1 H2]. split; [exact Ht|]. split; assumption.
Qed.

Lemma cleaned_text_holds_content_only_witness :
  let content := lit "Page 1:" ++ [10%N] ++ lit "deed of sale" ++ [10%N; 10%N]
                 ++ lit "-----" ++ [10%N] in
  let line := lit "deed of sale" ++ [10%N] in
  In line (split_lines (clean_text content))
  /\ contains (strip line) (lit "---") = false.
Proof.
  intros content line.
  assert (Hin : In line (split_lines (clean_text content)))
    by (vm_compute; right; left; reflexivity).
  split; [exact Hin|].
  apply (cleaned_text_holds_content_only content line Hin).
Defined.

(** X18. Cleaning is idempotent: a cleaned text cleans to itself. *)
Theorem clean_text_idempotent (content : str) :
  clean_text (clean_text content) = clean_text content.
Proof.
  unfold clean_text at 1.
  rewrite (universal_id _ (clean_text_no_cr content)), split_lines_clean_text.
  rewrite cleaned_content; [reflexivity|].
  apply List.Forall_forall. intros piece Hp. apply (cleaned_pieces _ _ _ Hp).
Qed.

Lemma cleaned_keeps_content (lines : list str) :
  forall b,
    filter (fun line => is_content line = true) lines `sublist_of` cleaned lines b
    /\ filter (fun line => line <> marker) (cleaned lines b)
       = filter (fun line => line <> marker)
           (filter (fun line => is_content line = true) lines).
Proof.
  induction lines as [|line rest IH]; intros b; [split; [constructor | reflexivity]|].
  cbn [cleaned]. unfold is_content at 1 3.
  destruct (is_header (strip line)) eqn:Hh.
  - rewrite filter_cons_False by (rewrite Hh; discriminate).
    destruct b; [apply IH|]. destruct (IH true) as [H1 H2]. split.
    + apply sublist_cons. exact H1.
    + rewrite filter_cons_False by (intros H; apply H; reflexivity). exact H2.
  - destruct (truthy (strip line)) eqn:Ht.
    + rewrite filter_cons_True by (rewrite Hh, Ht; reflexivity).
      destruct (IH false) as [H1 H2]. split.
      * apply sublist_skip. exact H1.
      * destruct (decide (line = marker)) as [Hm|Hm].
        -- rewrite !filter_cons_False by (intros H; apply H; exact Hm). exact H2.
        -- rewrite !filter_cons_True by exact Hm. f_equal. exact H2.
    + rewrite filter_cons_False by (rewrite Hh, Ht; discriminate). apply IH.
Qed.

(** X19. Cleaning loses and reorders no content: the lines of the text
    that are neither blank nor headers are all in the cleaned text, in their
    order, and what the cleaned text holds besides them are marker lines
    only. *)
Theorem cleaning_keeps_content_lines_in_order (content : str) :
  let kept := filter (fun line => is_content line = true)
                (split_lines (universal content)) in
  kept `sublist_of` split_lines (clean_text content)
  /\ filter (fun line => line <> marker) (split_lines (clean_text content))
     = filter (fun line => line <> marker) kept.
Proof.
  intros kept. rewrite split_lines_clean_text. apply cleaned_keeps_content.
Qed.

End CleanerLines.

Section CleanerOcr.

Import Cleaning.

Lemma string_of_uint_digits (d : Decimal.uint) :
  Forall (fun c => (48 <= c <= 57)%N) (lit (NilEmpty.string_of_uint d)).
Proof.
  unfold lit. induction d; cbn; constructor; try exact IHd; vm_compute; split; discriminate.
Qed.

Lemma str_of_nat_digits (k : nat) :
  Forall (fun c => (48 <= c <= 57)%N) (str_of_Z (Z.of_nat k)).
Proof.
  unfold str_of_Z. destruct (Z.of_nat k) as [|p|p] eqn:Hk; [| |lia].
  - vm_compute. constructor; [split; discriminate | constructor].
  - cbn [Z.to_int NilZero.string_of_int].
    pose proof (string_of_uint_digits (Pos.to_uint p)) as H.
    unfold NilZero.string_of_uint. destruct (Pos.to_uint p); try exact H.
    vm_compute. constructor; [split; discriminate | constructor].
Qed.

Lemma lstrip_nonspace (c : N) (s : str) :
  is_space c = false -> lstrip (c :: s) = c :: s.
Proof. intros H. cbn [lstrip]. rewrite H. reflexivity. Qed.

Lemma rstrip_snoc_space (s : str) (x : N) :
  is_space x = true -> rstrip (s ++ [x]) = rstrip s.
Proof.
  intros H. unfold rstrip. rewrite rev_app_distr. cbn [rev app lstrip].
  rewrite H. reflexivity.
Qed.

Lemma rstrip_snoc_nonspace (s : str) (d : N) :
  is_space d = false -> rstrip (s ++ [d]) = s ++ [d].
Proof.
  intros H. unfold rstrip. rewrite rev_app_distr. cbn [rev app lstrip].
  rewrite H. change (d :: rev s) with ([d] ++ rev s).
  rewrite rev_app_distr, rev_involutive. reflexivity.
Qed.

Lemma lstrip_snoc_space (t : str) (x : N) :
  is_space x = true ->
  lstrip (t ++ [x]) = if forallb is_space t then [] else lstrip t ++ [x].
Proof.
  intros H. induction t as [|c t IH]; cbn [app lstrip forallb].
  - rewrite H. reflexivity.
  - destruct (is_space c); cbn [andb]; [exact IH | reflexivity].
Qed.

Lemma lstrip_blank (t : str) : forallb is_space t = true -> lstrip t = [].
Proof.
  induction t as [|c t IH]; [reflexivity|]. cbn [forallb lstrip].
  destruct (is_space c); cbn [andb]; [exact IH | discriminate].
Qed.

(** The line feed that ends a line does not count in its stripped form. *)
Lemma strip_line_feed (t : str) : strip (t ++ [10%N]) = strip t.
Proof.
  unfold strip. rewrite lstrip_snoc_space by reflexivity.
  destruct (forallb is_space t) eqn:Hb.
  - rewrite (lstrip_blank t Hb). reflexivity.
  - apply rstrip_snoc_space. reflexivity.
Qed.

Lemma startswith_app (pre rest : str) : startswith (pre ++ rest) pre = true.
Proof.
  induction pre as [|p pre IH]; [destruct rest; reflexivity|].
  cbn [app startswith]. rewrite N.eqb_refl, IH. reflexivity.
Qed.

Lemma page_line_is_header (k : nat) :
  is_header (strip ((lit "Page " ++ str_of_Z (Z.of_nat k) ++ lit ":") ++ [10%N])) = true.
Proof.
  rewrite strip_line_feed. unfold strip.
  change (lit "Page ") with (80%N :: lit "age ").
  rewrite <- app_comm_cons, lstrip_nonspace by reflexivity.
  rewrite app_comm_cons, app_assoc. change (lit ":") with [58%N].
  rewrite rstrip_snoc_nonspace by reflexivity.
  rewrite <- app_assoc. unfold is_header.
  change (80%N :: lit "age ") with (lit "Page ").
  rewrite startswith_app. apply orb_true_r.
Qed.

Lemma page_line_plain (k : nat) (c : N) :
  (c = 10 \/ c = 13)%N ->
  ~ In c (lit "Page " ++ str_of_Z (Z.of_nat k) ++ lit ":").
Proof.
  intros Hc H. apply in_app_iff in H. destruct H as [H|H].
  - vm_compute in H. destruct Hc as [-> | ->];
      repeat (destruct H as [H|H]; [discriminate H|]); exact H.
  - apply in_app_iff in H. destruct H as [H|H].
    + pose proof (str_of_nat_digits k) as Hd.
      rewrite List.Forall_forall in Hd. specialize (Hd c H). lia.
    + vm_compute in H. destruct Hc as [-> | ->];
        repeat (destruct H as [H|H]; [discriminate H|]); exact H.
Qed.

Lemma separator_plain (c : N) : (c = 10 \/ c = 13)%N -> ~ In c separator_line.
Proof.
  intros Hc H. unfold separator_line in H. apply repeat_spec in H. lia.
Qed.

Lemma separator_is_header : is_header (strip (separator_line ++ [10%N])) = true.
Proof. vm_compute. reflexivity. Qed.

(** The lines of the page blocks, block by block. *)
Lemma split_lines_page_block (k : nat) (fr : list str) (rest : str) :
  ~ In 10%N (join (lit " ") fr) ->
  split_lines (page_block k fr ++ rest)
  = ((lit "Page " ++ str_of_Z (Z.of_nat k) ++ lit ":") ++ [10%N])
      :: (join (lit " ") fr ++ [10%N])
      :: (separator_line ++ [10%N])
      :: split_lines rest.
Proof.
  intros Ht. unfold page_block.
  replace ((lit "Page " ++ str_of_Z (Z.of_nat k) ++ lit ":" ++ [10%N]
            ++ join (lit " ") fr ++ [10%N] ++ separator_line ++ [10%N]) ++ rest)
    with ((lit "Page " ++ str_of_Z (Z.of_nat k) ++ lit ":")
            ++ 10%N :: (join (lit " ") fr ++ 10%N :: (separator_line ++ 10%N :: rest))).
  2: { rewrite <- !app_assoc. cbn [app]. reflexivity. }
  rewrite split_lines_terminated by (apply page_line_plain; left; reflexivity).
  rewrite split_lines_terminated by exact Ht.
  rewrite split_lines_terminated by (apply separator_plain; left; reflexivity).
  reflexivity.
Qed.

Lemma cleaned_page_blocks (per_page : list (list str)) :
  Forall (fun fr => one_line (join (lit " ") fr)) per_page ->
  forall (k : nat) (b : bool),
    concat (cleaned (split_lines (concat (page_blocks_from k per_page))) b)
    = (if b then [] else match per_page with [] => [] | _ => marker end)
      ++ concat (map (fun fr => let t := join (lit " ") fr in
                                if truthy (strip t) then t ++ [10%N] ++ marker else [])
                   per_page).
Proof.
  induction 1 as [|fr rest (Hlf & _ & Hh) _ IH]; intros k b.
  - destruct b; reflexivity.
  - rewrite page_blocks_from_cons. cbn [concat map].
    rewrite split_lines_page_block by exact Hlf.
    cbn [cleaned]. rewrite page_line_is_header.
    rewrite (strip_line_feed (join (lit " ") fr)), Hh, separator_is_header.
    cbv zeta.
    destruct b, (truthy (strip (join (lit " ") fr))); cbn [concat];
      rewrite (IH (S k) true); cbn [app]; rewrite <- ?app_assoc; reflexivity.
Qed.

Lemma page_blocks_no_cr (per_page : list (list str)) :
  Forall (fun fr => one_line (join (lit " ") fr)) per_page ->
  forall k, ~ In 13%N (concat (page_blocks_from k per_page)).
Proof.
  induction 1 as [|fr rest (_ & Hcr & _) _ IH]; intros k; [intros []|].
  rewrite page_blocks_from_cons. cbn [concat]. intros H.
  apply in_app_iff in H. destruct H as [H|H]; [|exact (IH _ H)].
  unfold page_block in H.
  repeat (apply in_app_iff in H; destruct H as [H|H]);
    try (vm_compute in H; repeat (destruct H as [H|H]; [discriminate H|]); exact H).
  - pose proof (str_of_nat_digits k) as Hd.
    rewrite List.Forall_forall in Hd. specialize (Hd _ H). lia.
  - exact (Hcr H).
Qed.

(** X20. Cleaning the text file of a scanned document leaves its pages
    between marker lines: when the text recognised on each page is one line
    that is not itself a header, the cleaned file is one marker line, then,
    for every page whose text is not blank, the text of the page and a marker
    line. *)
Theorem cleaning_extracted_text (per_page : list (list str)) :
  Forall (fun fr => one_line (join (lit " ") fr)) per_page ->
  clean_text (text_artifact per_page)
  = match per_page with [] => [] | _ => marker end
    ++ concat (map (fun fr => let t := join (lit " ") fr in
                              if truthy (strip t) then t ++ [10%N] ++ marker else [])
                 per_page).
Proof.
  intros Hall. unfold clean_text, text_artifact.
  rewrite (universal_id _ (page_blocks_no_cr per_page Hall 1)).
  apply (cleaned_page_blocks per_page Hall 1 false).
Qed.

Lemma cleaning_extracted_text_witness :
  clean_text (text_artifact [[lit "deed"; lit "of sale"]; []; [lit "signed"]])
  = lit "#" ++ [10%N] ++ lit "deed of sale" ++ [10%N] ++ lit "#" ++ [10%N]
    ++ lit "signed" ++ [10%N] ++ lit "#" ++ [10%N].
Proof.
  rewrite cleaning_extracted_text; [vm_compute; reflexivity|].
  repeat constructor; vm_compute; intuition discriminate.
Defined.

End CleanerOcr.

Section CleanerFiles.

Import Cleaning.

Variable E : Cleaning.env.




End CleanerFiles.

Section CleanerSafety.

Import Cleaning.

Variable E : Cleaning.env.


End CleanerSafety.

Section CleanerDirectory.

Import Cleaning.

Variable E : Cleaning.env.

Lemma keeps_bind {A B} (q : path) (f : file) (m : M A) (k : A -> M B) :
  keeps q f m -> (forall a, keeps q f (k a)) -> keeps q f (bind m k).
Proof.
  intros Hm Hk s Hq. unfold bind. specialize (Hm s Hq).
  destruct (m s) as [[a|e] s1]; cbn [snd] in *; [apply Hk; exact Hm | exact Hm].
Qed.

Lemma keeps_try {A} (q : path) (f : file) (m : M A) (h : error -> M A) :
  keeps q f m -> (forall e, keeps q f (h e)) -> keeps q f (try_except m h).
Proof.
  intros Hm Hh s Hq. unfold try_except. specialize (Hm s Hq).
  destruct (m s) as [[a|e] s1]; cbn [snd] in *; [exact Hm | apply Hh; exact Hm].
Qed.

Lemma keeps_quiet {A} (q : path) (f : file) (m : M A) :
  (forall s, files (snd (m s)) = files s) -> keeps q f m.
Proof. intros H s Hq. rewrite H. exact Hq. Qed.

Lemma keeps_write (q : path) (f : file) (p : path) (data : str) :
  q <> p -> keeps q f (write p data).
Proof.
  intros Hne s Hq. unfold write.
  destruct (files s !! p) as [[| |]|]; cbn [snd files set_files];
    rewrite lookup_insert_ne by congruence; exact Hq.
Qed.

Lemma keeps_move (q : path) (f : file) (src dst : path) :
  q <> src -> q <> dst -> keeps q f (shutil_move E src dst).
Proof.
  intros Hs Hd s Hq. unfold shutil_move.
  destruct (files s !! src) as [f0|]; [|exact Hq].
  destruct (move_ok E src dst); cbn [snd files set_files].
  - rewrite lookup_insert_ne, lookup_delete_ne by congruence. exact Hq.
  - unfold leave. destruct (move_leaves E src dst f0); [|exact Hq].
    rewrite lookup_insert_ne by congruence. exact Hq.
Qed.

Lemma keeps_remove (q : path) (f : file) (p : path) :
  q <> p -> keeps q f (os_remove E p).
Proof.
  intros Hne s Hq. unfold os_remove.
  destruct (files s !! p); [|exact Hq].
  destruct (remove_ok E p); [|exact Hq].
  cbn [snd files set_files]. rewrite lookup_delete_ne by congruence. exact Hq.
Qed.

Lemma keeps_clean_loop (q : path) (f : file) (temp_path : path) (lines : list str) :
  q <> temp_path -> forall b, keeps q f (clean_loop temp_path lines b).
Proof.
  intros Hne. induction lines as [|line rest IH]; intros b.
  - apply keeps_quiet. reflexivity.
  - cbn [clean_loop].
    destruct (is_header (strip line)); [destruct b; cbn [negb]|
      destruct (truthy (strip line))]; try apply IH.
    + apply keeps_bind; [apply keeps_write; exact Hne | intros _; apply IH].
    + apply keeps_bind; [apply keeps_write; exact Hne | intros _; apply IH].
Qed.

Lemma keeps_clean_file (q : path) (f : file) (filepath : path) :
  fresh_temps E -> q <> filepath -> keeps q f (clean_file_in_place E filepath).
Proof.
  intros Hfresh Hne s Hq. unfold clean_file_in_place. unfold bind at 1. unfold mkstemp.
  destruct (mkstemp_path E (files s)) as [temp_path|] eqn:Htemp; [|exact Hq].
  assert (Hqt : q <> temp_path).
  { intros ->. rewrite (Hfresh _ _ Htemp) in Hq. discriminate Hq. }
  assert (H0 : files (set_files (insert temp_path (Text [])) s) !! q = Some f)
    by (cbn; rewrite lookup_insert_ne by congruence; exact Hq).
  revert H0. generalize (set_files (insert temp_path (Text [])) s). intros s0 H0.
  revert s0 H0. change (keeps q f
    (try_except
       (original_file <- open_r filepath ;;
        let '(lines, complete) := lines_of E original_file in
        clean_loop temp_path lines false ;;;
        (if complete then ret tt else raise (UnicodeDecodeError filepath)) ;;;
        shutil_move E temp_path filepath ;;;
        ret true)
       (fun e =>
          print (ErrorProcessing (basename filepath) e) ;;;
          exists_ <- path_exists temp_path ;;
          (if exists_ then os_remove E temp_path else ret tt) ;;;
          ret false))%clean).
  apply keeps_try.
  - apply keeps_bind; [apply keeps_quiet; intros s0; unfold open_r;
                       destruct (files s0 !! filepath); reflexivity|].
    intros original. destruct (lines_of E original) as [lines complete].
    apply keeps_bind; [apply keeps_clean_loop; exact Hqt|]. intros _.
    apply keeps_bind; [destruct complete; apply keeps_quiet; reflexivity|]. intros _.
    apply keeps_bind; [apply keeps_move; assumption|]. intros _.
    apply keeps_quiet. reflexivity.
  - intros e. apply keeps_bind; [apply keeps_quiet; reflexivity|]. intros _.
    apply keeps_bind; [apply keeps_quiet; reflexivity|]. intros exists_.
    apply keeps_bind; [|intros _; apply keeps_quiet; reflexivity].
    destruct exists_; [apply keeps_remove; exact Hqt | apply keeps_quiet; reflexivity].
Qed.

Lemma keeps_clean_each (q : path) (f : file) (directory_path : path)
    (names : list str) :
  fresh_temps E ->
  (forall name, endswith name (lit ".txt") = true -> q <> directory_path ++ [name]) ->
  forall n, keeps q f (clean_each E directory_path names n).
Proof.
  intros Hfresh Hq. induction names as [|name rest IH]; intros n.
  - apply keeps_quiet. reflexivity.
  - cbn [clean_each]. destruct (endswith name (lit ".txt")) eqn:Htxt; [|apply IH].
    apply keeps_bind; [|intros _; apply IH].
    apply keeps_clean_file; [exact Hfresh | apply Hq; exact Htxt].
Qed.

(** X22. The cleaning of a directory touches its [.txt] entries only:
    with new temporary files, a file that is not an entry of the directory
    with a name ending in [.txt], in this letter case, is after the call what
    it was before, however the call ends. *)
Theorem clean_directory_keeps_other_files (directory_path q : path) (f : file)
    (s : store) :
  fresh_temps E ->
  files s !! q = Some f ->
  (forall name, endswith name (lit ".txt") = true -> q <> directory_path ++ [name]) ->
  files (snd (clean_directory E directory_path s)) !! q = Some f.
Proof.
  intros Hfresh Hfile Hq. revert s Hfile.
  change (keeps q f (clean_directory E directory_path)).
  unfold clean_directory. apply keeps_bind; [apply keeps_quiet; reflexivity|].
  intros is_dir. destruct is_dir; cbn [negb]; [|apply keeps_quiet; reflexivity].
  apply keeps_bind; [apply keeps_quiet; reflexivity|]. intros names.
  apply keeps_bind; [apply keeps_clean_each; assumption|]. intros n.
  destruct (n =? 0)%Z; apply keeps_quiet; reflexivity.
Qed.

End CleanerDirectory.

Section CleanerRun.

Import Cleaning.

Lemma length_concat_elem (x : list str) (l : list (list str)) :
  In x l -> length x <= length (concat l).
Proof.
  induction l as [|y l IH]; [intros []|].
  cbn [concat]. rewrite length_app. intros [->|H]; [lia|].
  specialize (IH H). lia.
Qed.

Lemma fresh_temps_all_good : fresh_temps Cleaning.all_good.
Proof.
  intros m p. cbn. intros [= <-].
  destruct (m !! beyond m) as [f|] eqn:Hf; [|reflexivity]. exfalso.
  apply elem_of_map_to_list in Hf.
  assert (Hin : In (beyond m) (map fst (map_to_list m))).
  { apply in_map_iff. exists (beyond m, f). split; [reflexivity|].
    apply list_elem_of_In. exact Hf. }
  apply length_concat_elem in Hin. unfold beyond in Hin at 1. simpl in Hin. lia.
Qed.

Variable E : Cleaning.env.

Hypothesis temps_new : fresh_temps E.
Hypothesis temps_made : forall m, is_Some (mkstemp_path E m).
Hypothesis moves_work : forall src dst, move_ok E src dst = true.



End CleanerRun.


Lemma clean_directory_keeps_other_files_witness :
  let s := Cleaning.shelf [(lit "a.txt", Text (lit "---"));
                           (lit "NOTES.TXT", Text (lit "---"))] in
  Cleaning.files (snd (Cleaning.clean_directory Cleaning.all_good Cleaning.texts s))
    !! (Cleaning.texts ++ [lit "NOTES.TXT"])
  = Some (Text (lit "---")).
Proof.
  intros s.
  apply (clean_directory_keeps_other_files Cleaning.all_good Cleaning.texts
           (Cleaning.texts ++ [lit "NOTES.TXT"]) (Text (lit "---")) s
           fresh_temps_all_good).
  - vm_compute. reflexivity.
  - intros name Htxt Heq. apply app_inv_head in Heq. injection Heq as <-.
    vm_compute in Htxt. discriminate Htxt.
Defined.


(** * Properties of the question-answering session *)

Section SessionLoop.

Import Llama.

Variable E : Llama.env.

Lemma bind_ok {A B} (m : M A) (k : A -> M B) (s : session) (b : B) :
  fst (bind m k s) = Ok b ->
  exists a s1, m s = (Ok a, s1) /\ fst (k a s1) = Ok b.
Proof.
  unfold bind. destruct (m s) as [[a|e] s1]; [|discriminate].
  intros H. exists a, s1. split; [reflexivity | exact H].
Qed.

Lemma asks_only_bind {A B} (m : M A) (k : A -> M B) :
  asks_only m -> (forall a, asks_only (k a)) -> asks_only (bind m k).
Proof.
  intros Hm Hk s. unfold bind. destruct (Hm s) as (qs1 & H1).
  destruct (m s) as [[a|e] s1]; cbn [snd] in *.
  - destruct (Hk a s1) as (qs2 & H2). exists (qs1 ++ qs2).
    rewrite H2, H1, map_app, app_assoc. reflexivity.
  - exists qs1. exact H1.
Qed.

Lemma asks_only_quiet {A} (m : M A) :
  (forall s, calls (snd (m s)) = calls s) -> asks_only m.
Proof. intros H s. exists []. rewrite H. cbn. rewrite app_nil_r. reflexivity. Qed.

Lemma asks_only_print_sources (nodes : list source_node) :
  asks_only (print_sources nodes).
Proof.
  induction nodes as [|node rest IH]; [apply asks_only_quiet; reflexivity|].
  cbn [print_sources]. destruct (score node); [|apply asks_only_quiet; reflexivity].
  apply asks_only_bind; [apply asks_only_quiet; reflexivity | intros _; exact IH].
Qed.

Lemma query_loop_asks (inputs : list str) : asks_only (query_loop E inputs).
Proof.
  induction inputs as [|query_text rest IH]; cbn [query_loop].
  - apply asks_only_bind; [|intros _]; apply asks_only_quiet; reflexivity.
  - apply asks_only_bind; [apply asks_only_quiet; reflexivity|]. intros _.
    apply asks_only_bind; [apply asks_only_quiet; reflexivity|]. intros _.
    destruct (bool_decide _); [apply asks_only_quiet; reflexivity|].
    destruct (negb _).
    + apply asks_only_bind; [apply asks_only_quiet; reflexivity | intros _; exact IH].
    + apply asks_only_bind.
      * intros s. exists [query_text]. unfold ask.
        destruct (answers E query_text); reflexivity.
      * intros r.
        apply asks_only_bind; [apply asks_only_quiet; reflexivity|]. intros _.
        apply asks_only_bind; [apply asks_only_quiet; reflexivity|]. intros _.
        apply asks_only_bind; [apply asks_only_quiet; reflexivity|]. intros _.
        apply asks_only_bind; [|intros _; exact IH].
        destruct (truthy _); [apply asks_only_print_sources |
                              apply asks_only_quiet; reflexivity].
Qed.

(** The loop is left without an error only by an exit word. *)
Lemma query_loop_ok (inputs : list str) :
  forall s, fst (query_loop E inputs s) = Ok tt -> existsb is_exit inputs = true.
Proof.
  induction inputs as [|query_text rest IH]; intros s; cbn [query_loop existsb].
  - intros H. apply bind_ok in H. destruct H as (_ & s1 & _ & H). discriminate H.
  - intros H. apply bind_ok in H. destruct H as (_ & s1 & _ & H).
    apply bind_ok in H. destruct H as (_ & s2 & _ & H).
    fold (is_exit query_text) in H.
    destruct (is_exit query_text); [reflexivity|]. cbn [orb].
    destruct (negb (truthy (strip query_text))).
    + apply bind_ok in H. destruct H as (_ & s3 & _ & H). exact (IH _ H).
    + apply bind_ok in H. destruct H as (r & s3 & _ & H).
      apply bind_ok in H. destruct H as (_ & s4 & _ & H).
      apply bind_ok in H. destruct H as (_ & s5 & _ & H).
      apply bind_ok in H. destruct H as (_ & s6 & _ & H).
      apply bind_ok in H. destruct H as (_ & s7 & _ & H).
      exact (IH _ H).
Qed.

Lemma print_sources_run (nodes : list source_node) :
  forall s,
    Forall (fun node => is_Some (score node)) nodes ->
    exists s',
      print_sources nodes s = (Ok tt, s')
      /\ calls s' = calls s /\ stdin s' = stdin s /\ made s' = made s.
Proof.
  induction nodes as [|node rest IH]; intros s Hall.
  - exists s. repeat split.
  - apply Forall_cons in Hall. destruct Hall as [[sc Hsc] Hrest].
    cbn [print_sources]. rewrite Hsc. unfold bind at 1. unfold print at 1.
    destruct (IH (add_line (SourceLine (dict_get (node_metadata node) (lit "file_name")
                                          (lit "N/A")) sc) s) Hrest)
      as (s' & Hrun & Hc & Hi & Hm).
    exists s'. split; [exact Hrun|]. repeat split; assumption.
Qed.

(** The loop when the engine answers every question: the questions are
    the lines before the first exit word that are not blank, and the lines
    up to the exit word are read. *)
Lemma query_loop_run (inputs : list str) :
  forall s,
    stdin s = inputs ->
    (forall q, In q (questions inputs) ->
               exists r, answers E q = Some r /\ scored r) ->
    exists s',
      query_loop E inputs s
      = (if existsb is_exit inputs then Ok tt else Err EOFError, s')
      /\ calls s' = calls s ++ map Query (questions inputs)
      /\ stdin s' = drop (S (length (before_exit inputs))) inputs
      /\ made s' = made s.
Proof.
  induction inputs as [|query_text rest IH]; intros s Hin Hans.
  - eexists. split; [reflexivity|]. cbn. rewrite app_nil_r. repeat split. exact Hin.
  - cbn [query_loop existsb before_exit]. unfold questions in *.
    cbn [before_exit] in *.
    unfold bind at 1. unfold print at 1. unfold bind at 1.
    fold (is_exit query_text). set (s1 := read_line (add_line Prompt s)).
    assert (Hs1 : stdin s1 = rest) by (cbn; rewrite Hin; reflexivity).
    destruct (is_exit query_text); cbn [orb].
    + eexists. split; [reflexivity|]. cbn. rewrite app_nil_r, drop_0.
      repeat split. exact Hs1.
    + cbn [List.filter length] in *.
      destruct (truthy (strip query_text)) eqn:Hq; cbn [negb].
      * destruct (Hans query_text (or_introl eq_refl)) as (r & Hr & Hscored).
        unfold bind at 1. unfold ask at 1. rewrite Hr.
        set (s2 := add_call (Query query_text) s1).
        unfold bind at 1. unfold print at 1. unfold bind at 1. unfold print at 1.
        unfold bind at 1. unfold print at 1. unfold bind at 1.
        set (s3 := add_line SourceHeader _).
        assert (Hsrc : exists s4,
                   (if truthy (source_nodes r) then print_sources (source_nodes r)
                    else print NoSourceNodes) s3 = (Ok tt, s4)
                   /\ calls s4 = calls s2 /\ stdin s4 = rest /\ made s4 = made s).
        { destruct (truthy (source_nodes r)).
          - destruct (print_sources_run (source_nodes r) s3 Hscored)
              as (s4 & Hrun & Hc & Hi & Hm).
            exists s4. split; [exact Hrun|]. repeat split; [exact Hc | | exact Hm].
            rewrite Hi. exact Hs1.
          - eexists. split; [reflexivity|]. repeat split. exact Hs1. }
        destruct Hsrc as (s4 & Hrun4 & Hc4 & Hi4 & Hm4). rewrite Hrun4.
        destruct (IH s4 Hi4) as (s' & Hrun & Hc & Hi & Hm).
        { intros q Hq'. apply Hans. right. exact Hq'. }
        exists s'. split; [exact Hrun|].
        split; [rewrite Hc, Hc4; subst s2 s1; cbn [calls add_call read_line add_line map];
                rewrite <- app_assoc; reflexivity|].
        split; [exact Hi | rewrite Hm; exact Hm4].
      * unfold bind at 1. unfold print at 1.
        destruct (IH (add_line EmptyQuery s1) Hs1) as (s' & Hrun & Hc & Hi & Hm);
          [exact Hans|].
        exists s'. split; [exact Hrun|]. split; [exact Hc|]. split; [exact Hi | exact Hm].
Qed.

End SessionLoop.

Section SessionRun.

Import Llama.

Variable E : Llama.env.

Lemma called_app (s s' : session) (cs : list call) :
  calls s' = calls s ++ cs -> called s s' = cs.
Proof. intros H. unfold called. rewrite H. apply drop_app_length. Qed.

(** X24. A session that finds documents and is ended by an exit word runs
    to its end: with every collaborator working, the collection is created
    only when it is missing, the documents of both folders are prepared,
    split and indexed once, the questions put to the engine are the lines
    typed before the first [exit] or [quit] (in any letter case) that are not
    blank, in the order typed, the client is closed last, and the lines after
    the exit word are left unread. *)
Theorem session_answers_until_exit (s : session) (present : bool)
    (docs1 docs2 : list document) (nodes : list str) :
  let repaired := project_root E ++ [lit "sorted_data"; lit "repaired"] in
  let ocr_texts := project_root E ++ [lit "sorted_data"; lit "ocr_texts"] in
  let docs := map prepare (docs1 ++ docs2) in
  connects E = true ->
  ready E = Some true ->
  collection_exists E index_name = Some present ->
  (present = false -> creates E index_name = true) ->
  loads E repaired = Some docs1 ->
  loads E ocr_texts = Some docs2 ->
  docs1 ++ docs2 <> [] ->
  splits E docs = Some nodes ->
  indexes E nodes = true ->
  engine_made E = true ->
  closes E = true ->
  (forall q, In q (questions (stdin s)) -> exists r, answers E q = Some r /\ scored r) ->
  existsb is_exit (stdin s) = true ->
  exists s',
    run_llama E s = (Ok tt, s')
    /\ called s s'
       = [ConnectToLocal 8080; IsReady; CollectionsExists index_name]
         ++ (if present then [] else [CollectionsCreate index_name])
         ++ [LoadData repaired; LoadData ocr_texts; GetNodesFromDocuments docs;
             BuildIndex nodes index_name; AsQueryEngine 5]
         ++ map Query (questions (stdin s)) ++ [Close]
    /\ stdin s' = drop (S (length (before_exit (stdin s)))) (stdin s)
    /\ made s' = made s ++ [repaired; ocr_texts].
Proof.
  intros repaired ocr_texts docs Hconn Hready Hexists Hcreate Hload1 Hload2 Hdocs
    Hsplit Hindex Hengine Hclose Hans Hexit.
  unfold run_llama. fold repaired ocr_texts.
  unfold bind at 1. unfold ask at 1. rewrite Hconn. cbn [done].
  unfold bind at 1. unfold ask at 1. rewrite Hready. cbn [negb].
  unfold bind at 1. unfold ask at 1. rewrite Hexists.
  unfold bind at 1.
  set (s3 := add_call (CollectionsExists index_name) _).
  assert (Hcol : exists s4,
             (if negb present
              then (print CreatingCollection ;;;
                    ask (CollectionsCreate index_name) (done (creates E index_name)))%llama
              else ret tt) s3 = (Ok tt, s4)
             /\ calls s4 = calls s3 ++ (if present then [] else [CollectionsCreate index_name])
             /\ stdin s4 = stdin s /\ made s4 = made s).
  { destruct present; cbn [negb].
    - exists s3. rewrite app_nil_r. repeat split.
    - unfold bind, print, ask. rewrite (Hcreate eq_refl). cbn [done].
      eexists. split; [reflexivity|]. repeat split. }
  destruct Hcol as (s4 & Hrun4 & Hc4 & Hi4 & Hm4). rewrite Hrun4.
  unfold bind at 1. unfold makedirs at 1. unfold bind at 1. unfold makedirs at 1.
  unfold bind at 1. cbn [load_all]. unfold bind at 1. unfold ask at 1. rewrite Hload1.
  unfold bind at 1. unfold ask at 1. rewrite Hload2. unfold ret at 1. cbn [app].
  destruct (docs1 ++ docs2) as [|doc rest] eqn:Hd; [congruence|]. cbn [truthy negb].
  fold docs.
  unfold bind at 1. unfold ask at 1. rewrite Hsplit.
  unfold bind at 1. unfold print at 1.
  unfold bind at 1. unfold ask at 1. rewrite Hindex. cbn [done].
  unfold bind at 1. unfold print at 1.
  unfold bind at 1. unfold ask at 1. rewrite Hengine. cbn [done].
  unfold bind at 1. unfold print at 1.
  unfold bind at 1. unfold print at 1.
  unfold bind at 1.
  set (s5 := add_line TypeExit _).
  assert (Hi5 : stdin s5 = stdin s) by (cbn; exact Hi4).
  destruct (query_loop_run E (stdin s) s5 Hi5 Hans) as (s6 & Hrun6 & Hc6 & Hi6 & Hm6).
  rewrite Hi5, Hrun6, Hexit. unfold ask. rewrite Hclose. cbn [done].
  eexists. split; [reflexivity|]. cbn [stdin made add_call].
  split; [|split; [exact Hi6|]].
  - apply called_app. cbn [calls add_call]. rewrite Hc6. subst s5.
    cbn [calls add_call add_line add_made]. rewrite Hc4. subst s3.
    cbn [calls add_call]. rewrite <- !app_assoc. reflexivity.
  - rewrite Hm6. subst s5. cbn [made add_call add_line add_made].
    rewrite Hm4, <- app_assoc. reflexivity.
Qed.

(** X25. With nothing to load the session ends before it starts: when both
    folders yield no document, [run_llama] prints the warning and returns,
    having split, indexed and asked nothing and read no line; the client it
    opened is not closed. *)
Theorem no_documents_no_session (s : session) (present : bool) :
  let repaired := project_root E ++ [lit "sorted_data"; lit "repaired"] in
  let ocr_texts := project_root E ++ [lit "sorted_data"; lit "ocr_texts"] in
  connects E = true ->
  ready E = Some true ->
  collection_exists E index_name = Some present ->
  (present = false -> creates E index_name = true) ->
  loads E repaired = Some [] ->
  loads E ocr_texts = Some [] ->
  exists s',
    run_llama E s = (Ok tt, s')
    /\ called s s'
       = [ConnectToLocal 8080; IsReady; CollectionsExists index_name]
         ++ (if present then [] else [CollectionsCreate index_name])
         ++ [LoadData repaired; LoadData ocr_texts]
    /\ stdout s' = stdout s ++ (if present then [] else [CreatingCollection])
                   ++ [NoDocuments]
    /\ stdin s' = stdin s.
Proof.
  intros repaired ocr_texts Hconn Hready Hexists Hcreate Hload1 Hload2.
  unfold run_llama. fold repaired ocr_texts.
  unfold bind at 1. unfold ask at 1. rewrite Hconn. cbn [done].
  unfold bind at 1. unfold ask at 1. rewrite Hready. cbn [negb].
  unfold bind at 1. unfold ask at 1. rewrite Hexists.
  unfold bind at 1.
  set (s3 := add_call (CollectionsExists index_name) _).
  assert (Hcol : exists s4,
             (if negb present
              then (print CreatingCollection ;;;
                    ask (CollectionsCreate index_name) (done (creates E index_name)))%llama
              else ret tt) s3 = (Ok tt, s4)
             /\ calls s4 = calls s3 ++ (if present then [] else [CollectionsCreate index_name])
             /\ stdout s4 = stdout s ++ (if present then [] else [CreatingCollection])
             /\ stdin s4 = stdin s).
  { destruct present; cbn [negb].
    - exists s3. rewrite !app_nil_r. repeat split.
    - unfold bind, print, ask. rewrite (Hcreate eq_refl). cbn [done].
      eexists. split; [reflexivity|]. repeat split. }
  destruct Hcol as (s4 & Hrun4 & Hc4 & Ho4 & Hi4). rewrite Hrun4.
  unfold bind at 1. unfold makedirs at 1. unfold bind at 1. unfold makedirs at 1.
  unfold bind at 1. cbn [load_all]. unfold bind at 1. unfold ask at 1. rewrite Hload1.
  unfold bind at 1. unfold ask at 1. rewrite Hload2. unfold ret at 1.
  cbn [app truthy negb]. unfold print.
  eexists. split; [reflexivity|].
  cbn [calls stdout stdin add_line add_call add_made].
  split; [|split; [rewrite Ho4, <- app_assoc; reflexivity | exact Hi4]].
  apply called_app. cbn [calls add_call add_made add_line]. rewrite Hc4. subst s3.
  cbn [calls add_call]. rewrite <- !app_assoc. reflexivity.
Qed.

Lemma harmless_bind {A B} (m : M A) (k : A -> M B) :
  harmless m -> (forall a, harmless (k a)) -> harmless (bind m k).
Proof.
  intros Hm Hk s. unfold bind. destruct (Hm s) as (Hi1 & cs1 & Hc1 & Hn1).
  destruct (m s) as [[a|e] s1]; cbn [snd] in *.
  - destruct (Hk a s1) as (Hi2 & cs2 & Hc2 & Hn2). split; [congruence|].
    exists (cs1 ++ cs2). split; [rewrite Hc2, Hc1, app_assoc; reflexivity|].
    intros H. apply in_app_iff in H. tauto.
  - split; [exact Hi1|]. exists cs1. split; assumption.
Qed.

Lemma harmless_quiet {A} (m : M A) :
  (forall s, stdin (snd (m s)) = stdin s /\ calls (snd (m s)) = calls s) ->
  harmless m.
Proof.
  intros H s. destruct (H s) as [Hi Hc]. split; [exact Hi|].
  exists []. rewrite Hc, app_nil_r. split; [reflexivity | intros []].
Qed.

Lemma harmless_ask {A} (c : call) (answer : option A) :
  c <> Close -> harmless (ask c answer).
Proof.
  intros Hc s. unfold ask. destruct answer; cbn [snd stdin calls add_call];
    (split; [reflexivity|]; exists [c]; split; [reflexivity|];
     intros [H|[]]; congruence).
Qed.

Lemma guarded_bind {A B} (m : M A) (k : A -> M B) :
  harmless m -> (forall a, guarded (k a)) -> guarded (bind m k).
Proof.
  intros Hm Hk s. unfold bind. destruct (Hm s) as (Hi1 & cs1 & Hc1 & Hn1).
  destruct (m s) as [[a|e] s1]; cbn [snd] in *.
  - destruct (Hk a s1) as (cs2 & Hc2 & Hg2).
    exists (cs1 ++ cs2). split; [rewrite Hc2, Hc1, app_assoc; reflexivity|].
    intros H. apply in_app_iff in H. destruct H as [H|H]; [contradiction|].
    rewrite <- Hi1. exact (Hg2 H).
  - exists cs1. split; [exact Hc1 | contradiction].
Qed.

Lemma harmless_guarded {A} (m : M A) : harmless m -> guarded m.
Proof.
  intros Hm s. destruct (Hm s) as (_ & cs & Hc & Hn).
  exists cs. split; [exact Hc | contradiction].
Qed.

Lemma harmless_load_all (data_dirs : list path) :
  forall docs, harmless (load_all E data_dirs docs).
Proof.
  induction data_dirs as [|dir_path rest IH]; intros docs; cbn [load_all].
  - apply harmless_quiet. intros s. split; reflexivity.
  - apply harmless_bind; [apply harmless_ask; discriminate | intros loaded; apply IH].
Qed.

Lemma guarded_loop_and_close :
  guarded ((fun s => query_loop E (stdin s) s) ;;; ask Close (done (closes E)))%llama.
Proof.
  intros s. unfold bind.
  destruct (query_loop_asks E (stdin s) s) as (qs & Hqs).
  pose proof (query_loop_ok E (stdin s) s) as Hok.
  destruct (query_loop E (stdin s) s) as [[[]|e] s1]; cbn [fst snd] in *.
  - exists (map Query qs ++ [Close]). split.
    + unfold ask. destruct (done (closes E)); cbn [snd calls add_call];
        rewrite Hqs, app_assoc; reflexivity.
    + intros _. apply Hok. reflexivity.
  - exists (map Query qs). split; [exact Hqs|].
    intros H. apply in_map_iff in H. destruct H as (q & H & _). discriminate H.
Qed.

(** X26. The client is closed only after an exit word: whatever the
    collaborators answer, [run_llama] calls [client.close()] only when
    [exit] or [quit], in any letter case, is among the lines of the standard
    input; a database that is not ready, an error of a collaborator, no
    document found and the end of the input all leave the client open. *)
Theorem client_closed_only_after_exit_word (s : session) :
  In Close (called s (snd (run_llama E s))) ->
  existsb is_exit (stdin s) = true.
Proof.
  assert (Hg : guarded (run_llama E)).
  { unfold run_llama.
    apply guarded_bind; [apply harmless_ask; discriminate|]. intros _.
    apply guarded_bind; [apply harmless_ask; discriminate|]. intros is_ready.
    destruct is_ready; cbn [negb];
      [|apply harmless_guarded, harmless_quiet; intros s0; split; reflexivity].
    apply guarded_bind; [apply harmless_ask; discriminate|]. intros exists_.
    apply guarded_bind.
    { destruct exists_; cbn [negb];
        [apply harmless_quiet; intros s0; split; reflexivity|].
      apply harmless_bind; [apply harmless_quiet; intros s0; split; reflexivity|].
      intros _. apply harmless_ask. discriminate. }
    intros _.
    apply guarded_bind; [apply harmless_quiet; intros s0; split; reflexivity|]. intros _.
    apply guarded_bind; [apply harmless_quiet; intros s0; split; reflexivity|]. intros _.
    apply guarded_bind; [apply harmless_load_all|]. intros docs.
    destruct (truthy docs); cbn [negb];
      [|apply harmless_guarded, harmless_quiet; intros s0; split; reflexivity].
    apply guarded_bind; [apply harmless_ask; discriminate|]. intros nodes.
    apply guarded_bind; [apply harmless_quiet; intros s0; split; reflexivity|]. intros _.
    apply guarded_bind; [apply harmless_ask; discriminate|]. intros _.
    apply guarded_bind; [apply harmless_quiet; intros s0; split; reflexivity|]. intros _.
    apply guarded_bind; [apply harmless_ask; discriminate|]. intros _.
    apply guarded_bind; [apply harmless_quiet; intros s0; split; reflexivity|]. intros _.
    apply guarded_bind; [apply harmless_quiet; intros s0; split; reflexivity|]. intros _.
    apply guarded_loop_and_close. }
  destruct (Hg s) as (cs & Hc & Hclose). rewrite (called_app _ _ _ Hc). exact Hclose.
Qed.

End SessionRun.

Section SessionSamples.

Import Llama.

Lemma session_answers_until_exit_witness :
  let s := typing [lit "Who sold the land?"; lit "   "; lit "Exit"; lit "unread"] in
  exists s',
    run_llama all_good s = (Ok tt, s')
    /\ queried (called s s') = [lit "Who sold the land?"]
    /\ stdin s' = [lit "unread"].
Proof.
  intros s.
  destruct (session_answers_until_exit Llama.all_good s true [deed] [deed] [text deed; text deed])
    as (s' & Hrun & Hcalled & Hin & _);
    try (vm_compute; reflexivity); try discriminate.
  - intros q Hq. vm_compute in Hq. destruct Hq as [<-|[]].
    eexists. split; [reflexivity|]. repeat constructor. eexists. reflexivity.
  - exists s'. split; [exact Hrun|]. rewrite Hcalled, Hin.
    split; vm_compute; reflexivity.
Defined.

Lemma no_documents_no_session_witness :
  let s := typing [lit "Who sold the land?"; lit "exit"] in
  exists s',
    run_llama nothing_loaded s = (Ok tt, s')
    /\ stdout s' = [NoDocuments]
    /\ stdin s' = stdin s.
Proof.
  intros s.
  destruct (no_documents_no_session Llama.nothing_loaded s true) as (s' & Hrun & _ & Hout & Hin);
    try reflexivity; try discriminate.
  exists s'. split; [exact Hrun|]. split; [exact Hout | exact Hin].
Defined.

Lemma client_closed_only_after_exit_word_witness :
  let s := typing [lit "Who sold the land?"; lit "QUIT"] in
  In Close (called s (snd (run_llama all_good s)))
  /\ existsb is_exit (stdin s) = true.
Proof.
  intros s.
  assert (H : In Close (called s (snd (run_llama all_good s)))).
  { vm_compute. do 9 right. left. reflexivity. }
  split; [exact H|]. exact (client_closed_only_after_exit_word Llama.all_good s H).
Defined.

End SessionSamples.

(** * Properties of the entry point *)


